(** * build2: target registry, compile rule and test-script core

    A shallow embedding of the parts of build2 that decide the behaviour
    of the target set, of recipes and derived paths, of the compile
    rule's dependency database and header injection, and of the script
    parser (redirects, here-documents, conditionals, variable lines);
    with them the factories and the printing of target keys, the
    readers of the compilers' dependency output (make rules and
    /showIncludes notes), the prefix map of the include options, the
    words and exit status of a command line, the reading of
    here-documents, and the lookup of the special variables.

    Conventions: a C++ pointer that may be [nullptr] is an [option]; a
    [fail << ...] diagnostic is the outcome [Failed]; a violated
    [assert] is the outcome [Aborted]; a function that mutates the
    object it is called on returns the new object next to its result. *)

From Stdlib Require Import ZArith List String Ascii Bool Lia.
From stdpp Require Import base list strings.
Import ListNotations.
Open Scope string_scope.
Open Scope list_scope.

(** ** Outcomes *)

Inductive outcome (A : Type) : Type :=
| Done (a : A)
| Failed (diag : string)
| Aborted.

Arguments Done {A} a.
Arguments Failed {A} diag.
Arguments Aborted {A}.

Definition is_done {A} (o : outcome A) : bool :=
  match o with Done _ => true | _ => false end.

Definition is_failed {A} (o : outcome A) : bool :=
  match o with Failed _ => true | _ => false end.

(** ** build2/target.cxx *)

Module Target.

(** [target_state], in the order of [target_state_[]]. *)
Inductive target_state :=
| ts_unknown | ts_unchanged | ts_postponed | ts_changed | ts_failed | ts_group.

Definition target_state_eqb (x y : target_state) : bool :=
  match x, y with
  | ts_unknown, ts_unknown | ts_unchanged, ts_unchanged
  | ts_postponed, ts_postponed | ts_changed, ts_changed
  | ts_failed, ts_failed | ts_group, ts_group => true
  | _, _ => false
  end.

(** The plain functions a recipe can point to. *)
Inductive recipe_function :=
| noop_action | default_action | group_action | other_action (id : nat).

(** [recipe_type] is a [std::function]: empty, a plain function pointer,
    or some other callable. *)
Inductive recipe_type :=
| empty_recipe
| function_recipe (f : recipe_function)
| closure_recipe (id : nat).

Definition noop_recipe : recipe_type := function_recipe noop_action.
Definition default_recipe : recipe_type := function_recipe default_action.
Definition group_recipe : recipe_type := function_recipe group_action.

(** [recipe_.target<recipe_function*> ()] *)
Definition recipe_target (r : recipe_type) : option recipe_function :=
  match r with function_recipe f => Some f | _ => None end.

(** [static_cast<bool> (recipe_)] *)
Definition recipe_set (r : recipe_type) : bool :=
  match r with empty_recipe => false | _ => true end.

Definition is_noop (r : recipe_type) : bool :=
  match recipe_target r with Some noop_action => true | _ => false end.

(** Target types are static descriptors; a type is named by its index in
    the registry and the descriptors' members are looked up there. *)
Definition target_type := nat.

Record target_key := mk_key {
  k_type : target_type;
  k_dir : string;
  k_out : string;
  k_name : string;
  k_ext : option string
}.

Section Engine.

(** The action class and its comparison operators are declared in a
    header of their own; [recipe] only uses [a > action] and
    [a == action]. *)
Variable action_type : Type.
Variable action_gt : action_type -> action_type -> bool.
Variable action_eq : action_type -> action_type -> bool.

(** [target_type::extension]: the extension derivation function of a
    type, if it has one, already applied to the base scope. *)
Variable type_extension : target_type -> option (target_key -> option string).

Record target := mk_target {
  type : target_type;
  dir : string;
  out : string;
  name : string;
  ext : option string;
  action : action_type;
  recipe_ : recipe_type;
  raw_state : target_state;
  dependents : nat;
  path_ : string
}.

Definition key (t : target) : target_key :=
  mk_key (type t) (dir t) (out t) (name t) (ext t).

Definition set_ext (t : target) (e : option string) : target :=
  mk_target (type t) (dir t) (out t) (name t) e
            (action t) (recipe_ t) (raw_state t) (dependents t) (path_ t).

Definition set_path (t : target) (p : string) : target :=
  mk_target (type t) (dir t) (out t) (name t) (ext t)
            (action t) (recipe_ t) (raw_state t) (dependents t) p.

(** [target::recipe (action_type a, recipe_type r)] *)
Definition recipe (t : target) (a : action_type) (r : recipe_type)
  : outcome target :=
  if negb (action_gt a (action t) || negb (recipe_set (recipe_ t)))
  then Aborted
  else
    let override := action_eq a (action t) && recipe_set (recipe_ t) in
    if override && negb (is_noop (recipe_ t))
    then Aborted
    else
      Done (mk_target (type t) (dir t) (out t) (name t) (ext t)
              a r
              (if is_noop r then ts_unchanged else ts_unknown)
              (if override then dependents t else 0%nat)
              (path_ t)).

(** [path_target::derive_extension (const char* de)] *)
Definition derive_extension (t : target) (de : option string)
  : outcome string * target :=
  if negb (match de with None => true | Some _ => false end
           || match type_extension (type t) with Some _ => true | None => false end)
  then (Aborted, t)
  else
    match ext t with
    | Some e => (Done e, t)
    | None =>
        let t1 := match type_extension (type t) with
                  | Some f => set_ext t (f (key t))
                  | None => t
                  end in
        match ext t1 with
        | Some e => (Done e, t1)
        | None =>
            match de with
            | Some d => (Done d, set_ext t1 (Some d))
            | None => (Failed "no default extension for target", t1)
            end
        end
    end.

(** [path_target::derive_path (path_type p, const char* de)] *)
Definition derive_path (t : target) (p : string) (de : option string)
  : outcome string * target :=
  match derive_extension t de with
  | (Done e, t1) =>
      let p1 := if String.eqb e "" then p else p +:+ "." +:+ e in
      let ep := path_ t1 in
      if String.eqb ep ""
      then (Done p1, set_path t1 p1)
      else if negb (String.eqb p1 ep)
           then (Failed "path mismatch for target", t1)
           else (Done ep, t1)
  | (Failed d, t1) => (Failed d, t1)
  | (Aborted, t1) => (Aborted, t1)
  end.

(** The path [derive_path] compares with the stored one. *)
Definition derived (p e : string) : string :=
  if String.eqb e "" then p else p +:+ "." +:+ e.

(** *** target_set *)

(** Modelled from the spec: [target_key]'s [operator==] is declared in
    the target header.  An extension of [nullptr] means "not yet
    decided", so a key with an unspecified extension is the same as one
    with any extension ([find] traces "assuming target ... is the same as
    the one with unspecified extension"); two decided extensions must
    agree. *)
Definition ext_compatible (x y : option string) : bool :=
  match x, y with
  | Some a, Some b => String.eqb a b
  | _, _ => true
  end.

Definition target_key_eq (x y : target_key) : bool :=
  Nat.eqb (k_type x) (k_type y)
  && String.eqb (k_dir x) (k_dir y)
  && String.eqb (k_out x) (k_out y)
  && String.eqb (k_name x) (k_name y)
  && ext_compatible (k_ext x) (k_ext y).

(** Pointer comparison of two extensions (they are interned in the
    extension pool, so equal strings are the same pointer). *)
Definition ext_eqb (x y : option string) : bool :=
  match x, y with
  | None, None => true
  | Some a, Some b => String.eqb a b
  | _, _ => false
  end.

(** The action of a target nobody has matched yet. *)
Variable action0 : action_type.

(** Modelled from the spec: the constructor call [new T (d, o, n, e)]
    in which every factory of target.cxx ends (the constructors are
    declared with the target classes).  The target has the type, the
    directories, the name and the extension given; "targets are created
    on first lookup", so nothing has matched it yet: no recipe, state
    unknown, no dependents, no path.  This is not the factory of a type:
    those are [file_factory], [buildfile_factory] and [man_factory]
    below. *)
Definition new_target (tt : target_type) (d o n : string) (e : option string)
  : target :=
  mk_target tt d o n e action0 empty_recipe ts_unknown 0%nat "".

(** [target_type::factory], applied to the type itself as [insert]
    applies it ([tt.factory (tt, dir, out, name, ext)]): [None] is a
    [nullptr] factory, a factory may [fail]. *)
Definition factory_type : Type :=
  string -> string -> string -> option string -> outcome target.

Variable type_factory : target_type -> option factory_type.

(** [map_] is a [list target]: the targets in insertion order; a target
    is identified by its position (its address), and the key of an entry
    points into the target it owns. *)

(** [map_.find (k)] *)
Fixpoint map_find (m : list target) (k : target_key) : option nat :=
  match m with
  | [] => None
  | t :: m' =>
      if target_key_eq (key t) k then Some 0%nat
      else match map_find m' k with
           | Some i => Some (S i)
           | None => None
           end
  end.

(** [target_set::find (const target_key& k, tracer&)] *)
Definition find (m : list target) (k : target_key)
  : list target * option nat :=
  match map_find m k with
  | Some i =>
      match m !! i with
      | Some t =>
          if negb (ext_eqb (ext t) (k_ext k))
          then match k_ext k with
               | Some e => (<[i := set_ext t (Some e)]> m, Some i)
               | None => (m, Some i)
               end
          else (m, Some i)
      | None => (m, Some i)
      end
  | None => (m, None)
  end.

(** What [find] does to the target it returns: the extension becomes
    the caller's when that one is decided and differs. *)
Definition upgraded (t : target) (e : option string) : target :=
  match e with
  | Some x => if ext_eqb (ext t) e then t else set_ext t (Some x)
  | None => t
  end.

(** [target_set::insert (tt, dir, out, name, ext, trace)]: the target
    returned (by position) and whether it was inserted.  A key that is
    not found has its target made by [tt.factory]; the call through a
    [nullptr] factory (the abstract types have none) does not return.
    The key emplaced is made of [tt] and of the directories, the name
    and the extension of the target made; here the key of an entry is
    read off its target, the type included, a factory making a target
    of the type it is called for ([factories_keep_key] below). *)
Definition insert (m : list target) (tt : target_type) (d o n : string)
  (e : option string) : outcome (list target * nat * bool) :=
  match find m (mk_key tt d o n e) with
  | (m1, Some i) => Done (m1, i, false)
  | (m1, None) =>
      match type_factory tt with
      | Some f =>
          match f d o n e with
          | Done pt => Done ((m1 ++ [pt])%list, length m1, true)
          | Failed x => Failed x
          | Aborted => Aborted
          end
      | None => Aborted
      end
  end.

(** What [insert] needs of the factories for the target it emplaces to
    be found under the key it was asked for: the target made has the
    type, the directories and the name asked for, and the extension
    asked for if there was one. *)
Definition factories_keep_key : Prop :=
  forall tt f d o n e t,
    type_factory tt = Some f -> f d o n e = Done t ->
    type t = tt /\ dir t = d /\ out t = o /\ name t = n
    /\ forall x, e = Some x -> ext t = Some x.

End Engine.

Arguments mk_target {action_type} type dir out name ext action recipe_
  raw_state dependents path_.
Arguments type {action_type} t.
Arguments dir {action_type} t.
Arguments out {action_type} t.
Arguments name {action_type} t.
Arguments ext {action_type} t.
Arguments action {action_type} t.
Arguments recipe_ {action_type} t.
Arguments raw_state {action_type} t.
Arguments dependents {action_type} t.
Arguments path_ {action_type} t.
Arguments key {action_type} t.
Arguments set_ext {action_type} t e.
Arguments set_path {action_type} t p.
Arguments recipe {action_type} action_gt action_eq t a r.
Arguments derive_extension {action_type} type_extension t de.
Arguments derive_path {action_type} type_extension t p de.
Arguments new_target {action_type} action0 tt d o n e.
Arguments map_find {action_type} m k.
Arguments find {action_type} m k.
Arguments upgraded {action_type} t e.
Arguments insert {action_type} type_factory m tt d o n e.
Arguments factories_keep_key {action_type} type_factory.

(** *** Factories and extension functions of the built-in types *)

Section Factories.

Variable action_type : Type.
Variable action0 : action_type.

(** [file_factory<T, ext>]: the target is a [T]; [own] says that
    [tt.factory] is this very factory, that is, that [tt] is not a
    dynamically derived type. *)
Definition file_factory (T : target_type) (ext : option string)
  (own : bool) (d o n : string) (e : option string)
  : target action_type :=
  new_target action0 T d o n
    (if match e with Some _ => true | None => false end
        || match ext with None => true | Some _ => false end
        || negb own
     then e
     else ext).

(** [buildfile_factory], [T] being the buildfile type. *)
Definition buildfile_factory (T : target_type) (d o n : string)
  (e : option string) : target action_type :=
  new_target action0 T d o n
    (match e with
     | None => Some (if String.eqb n "buildfile" then "" else "build")
     | Some _ => e
     end).

(** [man_factory], [T] being the man type. *)
Definition man_factory (T : target_type) (d o n : string)
  (e : option string) : outcome (target action_type) :=
  match e with
  | None => Failed "man target must include extension (man section)"
  | Some _ => Done (new_target action0 T d o n e)
  end.

(** The types of target.cxx, in the order of their [static_type]s. *)
Definition root_target_type : target_type := 0%nat.
Definition mtime_target_type : target_type := 1%nat.
Definition path_target_type : target_type := 2%nat.
Definition file_type : target_type := 3%nat.
Definition alias_type : target_type := 4%nat.
Definition dir_type : target_type := 5%nat.
Definition fsdir_type : target_type := 6%nat.
Definition buildfile_type : target_type := 7%nat.
Definition doc_type : target_type := 8%nat.
Definition man_type : target_type := 9%nat.
Definition man1_type : target_type := 10%nat.

(** The [factory] member of those [static_type]s, as [insert] calls it
    (with the type itself, so that [file_factory] finds [tt.factory] to
    be itself): [nullptr] for target, mtime_target and path_target,
    [file_factory<file, file_ext_def>] with [file_ext_def] empty for
    file, the same with [doc] for doc, [buildfile_factory],
    [man_factory], and [file_factory<man1, man1_ext>] with [man1_ext]
    being "1".  The factory of alias, dir and fsdir is
    [target_factory<T>], a template of the target header, and the other
    modules define their types themselves: those are looked up in
    [other]. *)
Definition static_factory
  (other : target_type -> option (factory_type action_type))
  (tt : target_type) : option (factory_type action_type) :=
  match tt with
  | 0%nat | 1%nat | 2%nat => None
  | 3%nat =>
      Some (fun d o n e => Done (file_factory file_type (Some "") true d o n e))
  | 7%nat =>
      Some (fun d o n e => Done (buildfile_factory buildfile_type d o n e))
  | 8%nat =>
      Some (fun d o n e => Done (file_factory doc_type (Some "") true d o n e))
  | 9%nat => Some (man_factory man_type)
  | 10%nat =>
      Some (fun d o n e => Done (file_factory man1_type (Some "1") true d o n e))
  | _ => other tt
  end.

End Factories.

Arguments file_factory {action_type} action0 T ext own d o n e.
Arguments buildfile_factory {action_type} action0 T d o n e.
Arguments man_factory {action_type} action0 T d o n e.
Arguments static_factory {action_type} action0 other tt.

(** *** Printing a target key *)

Section Print.

(** [target_type::name], whether [target_type::extension] is set, and
    [diag_relative (d, false)] of the diagnostics module. *)
Variable type_name : target_type -> string.
Variable type_extension : target_type -> option (target_key -> option string).
Variable diag_relative : string -> string.

(** What [to_stream] prints before the type name: the directory,
    unless the name is empty. *)
Definition dir_part (verb : nat) (k : target_key) : string :=
  if negb (String.eqb (k_name k) "")
  then if Nat.ltb verb 2 then diag_relative (k_dir k) else k_dir k
  else EmptyString.

(** What it prints after the closing brace: "if this target is from
    src, print its out". *)
Definition out_part (verb : nat) (k : target_key) : string :=
  if negb (String.eqb (k_out k) "")
  then
    if Nat.ltb verb 2
    then let o := diag_relative (k_out k) in
         if negb (String.eqb o "") then String "@" o else EmptyString
    else String "@" (k_out k)
  else EmptyString.

(** [to_stream (os, k, ev)], [verb] being [stream_verb (os)]: the text
    written. *)
Definition to_stream (verb : nat) (k : target_key) (ev : nat)
  : outcome string :=
  let inner : outcome string :=
    if negb (String.eqb (k_name k) "")
    then
      match type_extension (k_type k) with
      | Some _ =>
          Done (k_name k
                +:+ (if Nat.ltb 0 ev
                        && (Nat.ltb 1 ev
                            || match k_ext k with
                               | Some e => negb (String.eqb e "")
                               | None => false
                               end)
                     then String "." (match k_ext k with
                                      | Some e => e
                                      | None => "?"
                                      end)
                     else EmptyString))
      | None =>
          match k_ext k with
          | None => Done (k_name k)
          | Some _ => Aborted
          end
      end
    else Done (k_dir k) in
  match inner with
  | Done i =>
      Done (dir_part verb k +:+ type_name (k_type k) +:+ String "{" i
            +:+ String "}" (out_part verb k))
  | Failed d => Failed d
  | Aborted => Aborted
  end.

(** [target_print_0_ext_verb]: "remap 1 to 0". *)
Definition target_print_0_ext_verb (verb : nat) (k : target_key)
  : outcome string :=
  to_stream verb k (if Nat.ltb verb 2 then 0%nat else verb).

(** [target_print_1_ext_verb]: "remap 0 to 1". *)
Definition target_print_1_ext_verb (verb : nat) (k : target_key)
  : outcome string :=
  to_stream verb k (if Nat.ltb verb 1 then 1%nat else verb).

End Print.

(** [buildfile_target_extension] *)
Definition buildfile_target_extension (tk : target_key) : option string :=
  Some (if String.eqb (k_name tk) "buildfile" then "" else "build").

(** [target_extension_null] *)
Definition target_extension_null (tk : target_key) : option string := None.

End Target.

(** ** build2/cxx/compile.cxx *)

Module Compile.

Import Target.

Definition timestamp := Z.

(** *** depdb *)

(** Modelled from the spec: the depdb class lives in files of its own.
    It is a line-oriented file read from the start; [expect] compares
    with the next stored line and, on a mismatch (or when there is no
    stored line left), writes the line, discards the tail and switches
    to write; [read] returns the next line ([None] for a malformed one);
    [touch] updates the modification time without changing the content;
    [close] truncates after the last written line. *)
Inductive depdb_state := dd_read | dd_write | dd_closed.

Record depdb := mk_depdb {
  dd_lines : list (option string);
  dd_pos : nat;
  dd_state : depdb_state;
  dd_mtime : timestamp;
  dd_touched : bool
}.

Definition depdb_open (stored : list (option string)) (mt : timestamp)
  : depdb :=
  mk_depdb stored 0 dd_read mt false.

Definition reading (dd : depdb) : bool :=
  match dd_state dd with dd_read => true | _ => false end.

Definition writing (dd : depdb) : bool :=
  match dd_state dd with dd_write => true | _ => false end.

Definition more (dd : depdb) : bool :=
  reading dd && (dd_pos dd <? length (dd_lines dd))%nat.

Definition write (dd : depdb) (l : string) : depdb :=
  mk_depdb (take (dd_pos dd) (dd_lines dd) ++ [Some l])%list
           (S (dd_pos dd)) dd_write (dd_mtime dd) (dd_touched dd).

Definition advance (dd : depdb) : depdb :=
  mk_depdb (dd_lines dd) (S (dd_pos dd)) (dd_state dd) (dd_mtime dd)
           (dd_touched dd).

Definition read (dd : depdb) : option string * depdb :=
  if more dd
  then match dd_lines dd !! dd_pos dd with
       | Some (Some l) => (Some l, advance dd)
       | _ => (None, advance dd)
       end
  else (None, dd).

(** The result is the stored line that did not match, if there was one. *)
Definition expect (dd : depdb) (l : string) : option string * depdb :=
  if more dd
  then match dd_lines dd !! dd_pos dd with
       | Some (Some s) =>
           if String.eqb s l then (None, advance dd) else (Some s, write dd l)
       | _ => (None, write dd l)
       end
  else (None, write dd l).

Definition touch (dd : depdb) : depdb :=
  mk_depdb (dd_lines dd) (dd_pos dd) (dd_state dd) (dd_mtime dd) true.

Definition close (dd : depdb) : depdb :=
  mk_depdb (if writing dd then take (dd_pos dd) (dd_lines dd) else dd_lines dd)
           (dd_pos dd) dd_closed (dd_mtime dd) (dd_touched dd).

(** A database that is open, with its position inside the file. *)
Definition open_db (dd : depdb) : Prop :=
  dd_state dd <> dd_closed /\ (dd_pos dd <= length (dd_lines dd))%nat.

(** *** Targets with a path and a modification time *)

Record path_target := mk_path_target {
  pt_state : target_state;
  pt_path : string;
  pt_mtime : timestamp
}.

Definition set_mtime (t : path_target) (m : timestamp) : path_target :=
  mk_path_target (pt_state t) (pt_path t) m.

Definition assign_path (t : path_target) (p : string) : path_target :=
  mk_path_target (pt_state t) p (pt_mtime t).

(** The actions [apply] distinguishes. *)
Inductive action :=
| perform_update_id | perform_clean_id | configure_update_id.

Definition is_perform_update (a : action) : bool :=
  match a with perform_update_id => true | _ => false end.

Section Rule.

(** The two sentinels of the timestamp type. *)
Variable timestamp_unknown : timestamp.
Variable timestamp_nonexistent : timestamp.

(** [butl::file_mtime] *)
Variable file_mtime : string -> timestamp.

(** [file::load_mtime ()] *)
Definition load_mtime (t : path_target) : timestamp :=
  if String.eqb (pt_path t) "" then timestamp_unknown
  else file_mtime (pt_path t).

(** Modelled from the spec: [mtime_target::mtime ()] is declared in the
    target header; the modification time is loaded on first use and
    cached. *)
Definition mtime (t : path_target) : timestamp * path_target :=
  if Z.eqb (pt_mtime t) timestamp_unknown
  then (load_mtime t, set_mtime t (load_mtime t))
  else (pt_mtime t, t).

(** The fingerprint part of [compile::apply] (the block under
    [a == perform_update_id], up to the call of [inject_prerequisites]):
    [stored] and [db_mtime] are the content and modification time of
    [t.path () + ".d"], [checksum] is [cxx.checksum], [options] is
    [cs.string ()] and [source] is [st.path ()]. *)
Definition apply_fingerprint (a : action) (t : path_target)
  (stored : list (option string)) (db_mtime : timestamp)
  (checksum options source : string) : option depdb * path_target :=
  if is_perform_update a
  then
    let dd := depdb_open stored db_mtime in
    let dd := snd (expect dd "cxx.compile 1") in
    let dd := snd (expect dd checksum) in
    let dd := snd (expect dd options) in
    let dd := snd (expect dd source) in
    if writing dd
    then (Some dd, set_mtime t timestamp_nonexistent)
    else
      let '(mt, t1) := mtime t in
      if Z.gtb (dd_mtime dd) mt
      then (Some dd, set_mtime t1 timestamp_nonexistent)
      else (Some dd, t1)
  else (None, t).

(** Whether one of the four fingerprint lines differs from what the
    database has stored in that place. *)
Definition line_matches (stored : list (option string)) (i : nat)
  (l : string) : bool :=
  match stored !! i with
  | Some (Some s) => String.eqb s l
  | _ => false
  end.

Definition fingerprint_mismatch (stored : list (option string))
  (checksum options source : string) : bool :=
  negb (line_matches stored 0 "cxx.compile 1"
        && line_matches stored 1 checksum
        && line_matches stored 2 options
        && line_matches stored 3 source).

(** *** Header injection *)

(** [execute_direct (a, pt)] and [build2::match (a, pt)] belong to the
    rule engine. *)
Variable execute_direct : action -> path_target -> target_state * path_target.
Variable match_rule : action -> path_target -> path_target.

(** The [update] lambda of [inject_prerequisites]. *)
Definition update (a : action) (pt : path_target) (ts : timestamp)
  : bool * path_target :=
  let check (pt : path_target) : bool * path_target :=
    if negb (Z.eqb ts timestamp_unknown)
    then
      let '(mt, pt1) := mtime pt in
      (Z.ltb ts mt
       || (Z.eqb ts mt && negb (target_state_eqb (pt_state pt1) ts_changed)),
       pt1)
    else (false, pt) in
  if negb (target_state_eqb (pt_state pt) ts_unchanged)
  then
    let os := pt_state pt in
    let '(ns, pt1) := execute_direct a pt in
    if negb (target_state_eqb ns os) && negb (target_state_eqb ns ts_unchanged)
    then (true, pt1)
    else check pt1
  else check pt.

(** The two reasons for which [update] answers true. *)
Definition update_changed (a : action) (pt : path_target) : bool :=
  negb (target_state_eqb (pt_state pt) ts_unchanged)
  && negb (target_state_eqb (fst (execute_direct a pt)) (pt_state pt))
  && negb (target_state_eqb (fst (execute_direct a pt)) ts_unchanged).

Definition after_execute (a : action) (pt : path_target) : path_target :=
  if negb (target_state_eqb (pt_state pt) ts_unchanged)
  then snd (execute_direct a pt)
  else pt.

Definition newer_than (ts : timestamp) (pt : path_target) : bool :=
  Z.ltb ts (fst (mtime pt)).

Definition not_older_than (ts : timestamp) (pt : path_target) : bool :=
  Z.ltb ts (fst (mtime pt))
  || (Z.eqb ts (fst (mtime pt))
      && negb (target_state_eqb (pt_state (snd (mtime pt))) ts_changed)).

(** Paths and the prefix map come from libbutl: directories are ordered
    by [dir_lt] (the order of [dir_path_map]) and [sub d p] says that
    [d] is [p] or below it. *)
Variable dir_path : Type.
Variable dir_lt : dir_path -> dir_path -> bool.
Variable sub : dir_path -> dir_path -> bool.
Variable absolute : string -> bool.
Variable normalize : string -> string.
Variable realize : string -> string.
Variable directory : string -> dir_path.
Variable combine : dir_path -> string -> string.

(** [prefix_map]: the entries in the order of their keys. *)
Local Abbreviation prefix_map := (list (dir_path * dir_path)).

(** [pm.upper_bound (d)]: the position of the first key greater than
    [d], [length pm] for [pm.end ()]. *)
Fixpoint upper_bound (pm : prefix_map) (d : dir_path) : nat :=
  match pm with
  | [] => 0
  | (k, _) :: pm' => if dir_lt d k then 0 else S (upper_bound pm' d)
  end.

(** The search for a prefix in the [add] lambda: [None] is [pm.end ()]. *)
Definition find_prefix (pm : prefix_map) (d : dir_path)
  : option (dir_path * dir_path) :=
  match pm with
  | [] => None
  | _ =>
      let i := upper_bound pm d in
      match i with
      | O => None
      | S j =>
          match pm !! j with
          | Some (k, v) => if negb (sub d k) then None else Some (k, v)
          | None => None
          end
      end
  end.

(** The most qualified entry of which [d] is a sub-path: the last one
    in key order, since a longer prefix sorts after a shorter one. *)
Fixpoint most_qualified (pm : prefix_map) (d : dir_path)
  : option (dir_path * dir_path) :=
  match pm with
  | [] => None
  | (k, v) :: pm' =>
      match most_qualified pm' d with
      | Some e => Some e
      | None => if sub d k then Some (k, v) else None
      end
  end.

(** The entries of a map come in the strict order of their keys. *)
Fixpoint sorted_keys (pm : prefix_map) : Prop :=
  match pm with
  | [] => True
  | e :: pm' =>
      Forall (fun e' => dir_lt (fst e) (fst e') = true) pm' /\ sorted_keys pm'
  end.

(** The prefix map [build_prefix_map (t, lo)] computes for the target. *)
Variable build_prefix_map : prefix_map.

(** The call of [search] in [add]: the target found or created for
    the header file. *)
Variable search : string -> path_target.

Record inject_state := mk_inject {
  pm : prefix_map;
  dd : depdb;
  prerequisite_targets : list path_target;
  skip_count : nat
}.

(** The first part of the [add] lambda: map the header to a path. *)
Definition map_header (f : string) (cache : bool) (st : inject_state)
  : outcome string * inject_state :=
  if negb (absolute f)
  then
    let f := normalize f in
    let pm1 := match pm st with [] => build_prefix_map | m => m end in
    let st1 := mk_inject pm1 (dd st) (prerequisite_targets st)
                 (skip_count st) in
    match find_prefix pm1 (directory f) with
    | None =>
        (Failed "unable to map presumably auto-generated header to a project",
         st1)
    | Some (_, base) => (Done (combine base f), st1)
    end
  else (Done (if negb cache then realize f else f), st).

(** The [add] lambda. *)
Definition add (a : action) (f : string) (cache : bool) (st : inject_state)
  : outcome bool * inject_state :=
  match map_header f cache st with
  | (Done f, st1) =>
      let pt := search f in
      if negb (String.eqb (pt_path pt) "") && negb (String.eqb (pt_path pt) f)
      then (Aborted, st1)
      else
        let pt := if String.eqb (pt_path pt) "" then assign_path pt f else pt in
        let pt := match_rule a pt in
        let '(restart, pt) :=
          update a pt (if cache then dd_mtime (dd st1) else timestamp_unknown) in
        let dd1 := if negb cache then snd (expect (dd st1) (pt_path pt))
                   else dd st1 in
        (Done restart,
         mk_inject (pm st1) dd1 (prerequisite_targets st1 ++ [pt])%list
                   (skip_count st1))
  | (Failed d, st1) => (Failed d, st1)
  | (Aborted, st1) => (Aborted, st1)
  end.

(** The target [add] hands to [update]. *)
Definition header_target (a : action) (f : string) : path_target :=
  let pt := search f in
  match_rule a (if String.eqb (pt_path pt) "" then assign_path pt f else pt).

Definition with_dd (st : inject_state) (d : depdb) : inject_state :=
  mk_inject (pm st) d (prerequisite_targets st) (skip_count st).

Definition count_skip (st : inject_state) : inject_state :=
  mk_inject (pm st) (dd st) (prerequisite_targets st) (S (skip_count st)).

(** The cached branch of the extraction loop, [while (dd.more ())]:
    [n] bounds the number of lines left; the result is [restart]. *)
Fixpoint cache_loop (n : nat) (a : action) (st : inject_state)
  : outcome bool * inject_state :=
  match n with
  | O => (Done false, st)
  | S n' =>
      if more (dd st)
      then
        let '(l, dd1) := read (dd st) in
        let st1 := with_dd st dd1 in
        match l with
        | None => (Done true, st1)
        | Some f =>
            match add a f true st1 with
            | (Done restart, st2) =>
                let st3 := count_skip st2 in
                if restart
                then (Done true, with_dd st3 (touch (dd st3)))
                else cache_loop n' a st3
            | r => r
            end
        end
      else (Done false, st)
  end.

(** The lines of the database that are still to be read, and the
    cached branch run over all of them. *)
Definition lines_left (d : depdb) : nat :=
  (length (dd_lines d) - dd_pos d)%nat.

Definition cached_headers (a : action) (st : inject_state)
  : outcome bool * inject_state :=
  cache_loop (lines_left (dd st)) a st.

End Rule.

Arguments upper_bound {dir_path} dir_lt pm d.
Arguments find_prefix {dir_path} dir_lt sub pm d.
Arguments most_qualified {dir_path} sub pm d.
Arguments sorted_keys {dir_path} dir_lt pm.
Arguments mk_inject {dir_path} pm dd prerequisite_targets skip_count.
Arguments pm {dir_path} i.
Arguments dd {dir_path} i.
Arguments prerequisite_targets {dir_path} i.
Arguments skip_count {dir_path} i.
Arguments with_dd {dir_path} st d.
Arguments count_skip {dir_path} st.
Arguments map_header {dir_path} dir_lt sub absolute normalize realize
  directory combine build_prefix_map f cache st.
Arguments add timestamp_unknown file_mtime execute_direct match_rule
  {dir_path} dir_lt sub absolute normalize realize directory combine
  build_prefix_map search a f cache st.
Arguments cache_loop timestamp_unknown file_mtime execute_direct match_rule
  {dir_path} dir_lt sub absolute normalize realize directory combine
  build_prefix_map search n a st.
Arguments cached_headers timestamp_unknown file_mtime execute_direct
  match_rule {dir_path} dir_lt sub absolute normalize realize directory
  combine build_prefix_map search a st.

(** Normalized relative directories as the lists of their components,
    ordered component by component with a shorter path before its
    extensions; [components_sub d p] holds when [p] is a prefix of
    [d]. *)
Fixpoint components_lt (x y : list string) : bool :=
  match x, y with
  | _, [] => false
  | [], _ :: _ => true
  | a :: x', b :: y' =>
      match String.compare a b with
      | Lt => true
      | Eq => components_lt x' y'
      | Gt => false
      end
  end.

Fixpoint components_sub (d p : list string) : bool :=
  match p, d with
  | [], _ => true
  | _ :: _, [] => false
  | a :: p', b :: d' => String.eqb a b && components_sub d' p'
  end.

(** *** Make dependency declarations *)

(** [string (l, p)]: the part of [l] from position [p] on. *)
Fixpoint from_pos (p : nat) (l : string) : string :=
  match p, l with
  | O, _ => l
  | S p', String _ l' => from_pos p' l'
  | S _, EmptyString => EmptyString
  end.

(** [for (; p != n && l[p] == ' '; p++) ;] on the rest of the line: the
    number of spaces skipped and what follows them. *)
Fixpoint skip_blanks (s : string) : nat * string :=
  match s with
  | String c s' =>
      if Ascii.eqb c " "
      then let '(k, r) := skip_blanks s' in (S k, r)
      else (0%nat, s)
  | EmptyString => (0%nat, s)
  end.

(** The second loop of [next_make], "scan the next prerequisite while
    watching out for escape sequences", on the rest of the line: the
    prerequisite, the number of characters used and what follows.  The
    last character of the line is never the start of an escape
    ([p + 1 != n]). *)
Fixpoint make_word (s : string) : string * nat * string :=
  match s with
  | EmptyString => (EmptyString, 0%nat, s)
  | String c s' =>
      if Ascii.eqb c " " then (EmptyString, 0%nat, s)
      else
        match s' with
        | EmptyString => (String c EmptyString, 1%nat, s')
        | String d s'' =>
            if Ascii.eqb c "$"
            then
              if Ascii.eqb d "$"
              then let '(r, k, t) := make_word s'' in (String c r, S (S k), t)
              else let '(r, k, t) := make_word s' in (String c r, S k, t)
            else if Ascii.eqb c "\"
            then
              if Ascii.eqb d "\" || Ascii.eqb d " "
              then let '(r, k, t) := make_word s'' in (String d r, S (S k), t)
              else let '(r, k, t) := make_word s' in (String "\" r, S k, t)
            else let '(r, k, t) := make_word s' in (String c r, S k, t)
        end
  end.

(** [next_make (const string& l, size_t& p)] for a position inside the
    line: the prerequisite and the new position. *)
Definition next_make (l : string) (p : nat) : string * nat :=
  let '(k1, s1) := skip_blanks (from_pos p l) in
  let '(r, k2, s2) := make_word s1 in
  let '(k3, s3) := skip_blanks s2 in
  let k4 := match s3 with
            | String c EmptyString => if Ascii.eqb c "\" then 1%nat else 0%nat
            | _ => 0%nat
            end in
  (r, (p + k1 + k2 + k3 + k4)%nat).

(** The loop [while (pos != l.size ())] of the make branch of
    [inject_prerequisites], without the calls of [add]: the
    prerequisites of the line from [pos] on; [None] when [fuel] rounds
    do not reach the end of the line. *)
Fixpoint make_loop (fuel : nat) (l : string) (pos : nat)
  : option (list string) :=
  if Nat.eqb pos (String.length l) then Some []
  else
    match fuel with
    | O => None
    | S fuel' =>
        let '(f, pos') := next_make l pos in
        match make_loop fuel' l pos' with
        | Some fs => Some (f :: fs)
        | None => None
        end
    end.

Definition make_prerequisites (l : string) (pos : nat)
  : option (list string) :=
  make_loop (String.length l) l pos.

Definition starts_with_space (s : string) : bool :=
  match s with String c _ => Ascii.eqb c " " | EmptyString => false end.

Definition nonempty (w : string) : Prop := w <> EmptyString.

(** The text a prerequisite is written as in a make rule: a space, a
    dollar and a backslash are escaped. *)
Fixpoint make_quote (w : string) : string :=
  match w with
  | EmptyString => EmptyString
  | String c w' =>
      if Ascii.eqb c " " then String "\" (String " " (make_quote w'))
      else if Ascii.eqb c "$" then String "$" (String "$" (make_quote w'))
      else if Ascii.eqb c "\" then String "\" (String "\" (make_quote w'))
      else String c (make_quote w')
  end.

(** A list of prerequisites as a make rule has them: separated by one
    space. *)
Fixpoint make_rule (ws : list string) : string :=
  match ws with
  | [] => EmptyString
  | [w] => make_quote w
  | w :: ws' => make_quote w +:+ String " " (make_rule ws')
  end.

(** The end of a line of a make rule: nothing, or the continuation
    mark. *)
Definition line_end (cont : bool) : string :=
  if cont then String " " (String "\" EmptyString) else EmptyString.

(** *** The prefix map built from the include options *)

(** The test [o.size () < 2 || (o[0] != '-' && o[0] != '/') ||
    o[1] != 'I'] of [append_prefixes], negated. *)
Definition is_include_option (o : string) : bool :=
  match o with
  | String a (String b _) =>
      (Ascii.eqb a "-" || Ascii.eqb a "/") && Ascii.eqb b "I"
  | _ => false
  end.

Section Prefixes.

(** Directories are libbutl's: the order of the map, [operator==],
    [relative ()], [a.sub (b)], [a.leaf (b)], the empty directory and
    the directory made from a string. *)
Variable dir_path : Type.
Variable dir_lt : dir_path -> dir_path -> bool.
Variable dir_eqb : dir_path -> dir_path -> bool.
Variable relative : dir_path -> bool.
Variable sub : dir_path -> dir_path -> bool.
Variable leaf : dir_path -> dir_path -> dir_path.
Variable empty_dir : dir_path.
Variable to_dir : string -> dir_path.

Local Abbreviation prefix_map := (list (dir_path * dir_path)).

(** [m.find (p)]: the position of the entry whose key is neither
    before nor after [p]. *)
Fixpoint pm_find (m : prefix_map) (p : dir_path) : option nat :=
  match m with
  | [] => None
  | (k, _) :: m' =>
      if negb (dir_lt k p) && negb (dir_lt p k) then Some 0%nat
      else match pm_find m' p with
           | Some j => Some (S j)
           | None => None
           end
  end.

(** [m.emplace (p, d)] for a key that is not in the map: the entry
    goes before the first greater key. *)
Fixpoint emplace (m : prefix_map) (p d : dir_path) : prefix_map :=
  match m with
  | [] => [(p, d)]
  | (k, v) :: m' =>
      if dir_lt p k then (p, d) :: m else (k, v) :: emplace m' p d
  end.

(** The order of the keys is transitive. *)
Definition transitive_lt : Prop :=
  forall a b c, dir_lt a b = true -> dir_lt b c = true -> dir_lt a c = true.

(** The prefix an include directory stands for. *)
Definition prefix_of (out_base d : dir_path) : dir_path :=
  if sub out_base d then leaf out_base d else empty_dir.

(** The body of the loop of [append_prefixes] for the include
    directory [d]. *)
Definition add_prefix (m : prefix_map) (out_base out_root d : dir_path)
  : prefix_map :=
  if relative d || negb (sub d out_root) then m
  else
    let p := prefix_of out_base d in
    match pm_find m p with
    | Some j =>
        match m !! j with
        | Some (k, v) => if negb (dir_eqb v d) then <[j := (k, d)]> m else m
        | None => m
        end
    | None => emplace m p d
    end.

(** The loop of [append_prefixes] over the options. *)
Fixpoint append_options (m : prefix_map) (out_base out_root : dir_path)
  (v : list string) : prefix_map :=
  match v with
  | [] => m
  | o :: v' =>
      if is_include_option o
      then
        if Nat.eqb (String.length o) 2
        then match v' with
             | [] => m
             | x :: v'' =>
                 append_options (add_prefix m out_base out_root (to_dir x))
                   out_base out_root v''
             end
        else append_options
               (add_prefix m out_base out_root (to_dir (from_pos 2 o)))
               out_base out_root v'
      else append_options m out_base out_root v'
  end.

(** [append_prefixes (m, t, var)]: [out_base] is [t.dir], [root] the
    out path of the root scope of the target, if it has one, and
    [options] the value of [t[var]], if it is set. *)
Definition append_prefixes (m : prefix_map) (out_base : dir_path)
  (root : option dir_path) (options : option (list string)) : prefix_map :=
  match root with
  | None => m
  | Some out_root =>
      match options with
      | None => m
      | Some v => append_options m out_base out_root v
      end
  end.

End Prefixes.

Arguments pm_find {dir_path} dir_lt m p.
Arguments emplace {dir_path} dir_lt m p d.
Arguments transitive_lt {dir_path} dir_lt.
Arguments prefix_of {dir_path} sub leaf empty_dir out_base d.
Arguments add_prefix {dir_path} dir_lt dir_eqb relative sub leaf empty_dir
  m out_base out_root d.
Arguments append_options {dir_path} dir_lt dir_eqb relative sub leaf
  empty_dir to_dir m out_base out_root v.
Arguments append_prefixes {dir_path} dir_lt dir_eqb relative sub leaf
  empty_dir to_dir m out_base root options.

(** *** VC++ /showIncludes output *)

(** [s.find (c) != string::npos] *)
Fixpoint has_char (c : ascii) (s : string) : bool :=
  match s with
  | EmptyString => false
  | String x s' => Ascii.eqb x c || has_char c s'
  end.

Definition isnum (c : ascii) : bool :=
  let n := nat_of_ascii c in Nat.leb 48 n && Nat.leb n 57.

Definition isalpha (c : ascii) : bool :=
  let n := nat_of_ascii c in
  (Nat.leb 97 n && Nat.leb n 122) || (Nat.leb 65 n && Nat.leb n 90).

(** A test of the character [l[i]], for a position inside the line. *)
Definition char_at (l : string) (i : nat) (f : ascii -> bool) : bool :=
  match String.get i l with
  | Some c => f c
  | None => false
  end.

(** The condition of the first loop of [next_show] at a colon in
    position [p]: it ends an error code, [ CNNNN:]. *)
Definition code_at (l : string) (p : nat) : bool :=
  Nat.ltb 5 p
  && char_at l (p - 6) (Ascii.eqb " ")
  && char_at l (p - 5) (Ascii.eqb "C")
  && char_at l (p - 4) isnum
  && char_at l (p - 3) isnum
  && char_at l (p - 2) isnum
  && char_at l (p - 1) isnum.

(** The first loop of [next_show]: the colons of the line from left to
    right, [s] being the line from position [p] on; the start of the
    first error code. *)
Fixpoint find_code (l : string) (p : nat) (s : string) : option nat :=
  match s with
  | EmptyString => None
  | String c s' =>
      if Ascii.eqb c ":" && code_at l p then Some (p - 4)%nat
      else find_code l (S p) s'
  end.

(** [s.rfind (c)] *)
Fixpoint rfind (c : ascii) (s : string) : option nat :=
  match s with
  | EmptyString => None
  | String x s' =>
      match rfind c s' with
      | Some j => Some (S j)
      | None => if Ascii.eqb x c then Some 0%nat else None
      end
  end.

(** [l.rfind (c, pos)]: the search ends at [pos]. *)
Definition rfind_to (c : ascii) (pos : nat) (l : string) : option nat :=
  rfind c (substring 0 (S pos) l).

(** [l.find_first_not_of (' ', p)] *)
Definition find_first_not_of_space (p : nat) (l : string) : option nat :=
  let '(k, r) := skip_blanks (from_pos p l) in
  match r with
  | EmptyString => None
  | String _ _ => Some (p + k)%nat
  end.

Section ShowIncludes.

(** [path::traits::is_separator] is libbutl's. *)
Variable is_separator : ascii -> bool.

(** [next_show (const string& l, bool& good_error)]: the string
    returned and the new value of [good_error]. *)
Definition next_show (l : string) (good_error : bool)
  : outcome (string * bool) :=
  if good_error then Aborted
  else
    let n := String.length l in
    match find_code l 0 l with
    | None =>
        let p :=
          match rfind ":" l with
          | Some p =>
              if Nat.ltb 1 p && Nat.ltb (p + 1) n
                 && char_at l (p - 2) (Ascii.eqb " ")
                 && char_at l (p - 1) isalpha
                 && char_at l (p + 1) is_separator
              then rfind_to ":" (p - 2) l
              else Some p
          | None => None
          end in
        let p :=
          match p with
          | Some p => find_first_not_of_space (p + 1) l
          | None => None
          end in
        match p with
        | None => Failed "unable to parse /showIncludes include note line"
        | Some p => Done (from_pos p l, false)
        end
    | Some p =>
        if String.eqb (substring p 4 l) "1083"
        then
          match rfind "'" l with
          | Some p2 =>
              if negb (Nat.eqb p2 0)
              then
                match rfind_to "'" (p2 - 1) l with
                | Some p1 =>
                    Done (substring (S p1) (p2 - p1 - 1) l, true)
                | None =>
                    Failed "unable to parse /showIncludes include error line"
                end
              else Failed "unable to parse /showIncludes include error line"
          | None => Failed "unable to parse /showIncludes include error line"
          end
        else Done (EmptyString, false)
    end.

End ShowIncludes.

(** Strings of spaces only. *)
Fixpoint all_spaces (s : string) : bool :=
  match s with
  | EmptyString => true
  | String c s' => Ascii.eqb c " " && all_spaces s'
  end.

End Compile.

(** ** libbuild2/script/parser.cxx *)

Module Script.

(** *** Tokens, redirects, commands *)

Inductive token_type :=
| tk_word | tk_newline | tk_eos
| tk_pipe | tk_log_or | tk_log_and
| tk_equal | tk_not_equal | tk_clean | tk_dollar | tk_lparen
| tk_in_pass | tk_in_null | tk_in_str | tk_in_doc | tk_in_file
| tk_out_pass | tk_out_null | tk_out_trace | tk_out_merge
| tk_out_str | tk_out_doc
| tk_out_file_cmp | tk_out_file_ovr | tk_out_file_app
| tk_in_l | tk_in_ll | tk_in_lll | tk_out_g | tk_out_gg | tk_out_ggg.

Inductive quote_type := unquoted | single | double_ | mixed.

Record token := mk_token {
  t_type : token_type;
  t_value : string;
  t_separated : bool;
  t_qtype : quote_type;
  t_qcomp : bool
}.

Inductive redirect_type :=
| rt_none | rt_pass | rt_null | rt_trace | rt_merge
| rt_here_str_literal | rt_here_str_regex
| rt_here_doc_literal | rt_here_doc_regex | rt_here_doc_ref
| rt_file.

Inductive redirect_fmode := fm_compare | fm_overwrite | fm_append.

Record regex_lines := mk_regex_lines {
  rl_intro : ascii;
  rl_flags : string;
  rl_lines : list string
}.

(** The place of a redirect in a command expression: the term, the
    command in its pipe, and the file descriptor. *)
Record here_redirect := mk_here_redirect {
  hr_expr : nat;
  hr_pipe : nat;
  hr_fd : Z
}.

(** A redirect; [r_ref] is the redirect a [here_doc_ref] refers to,
    named by its place. *)
Record redirect := mk_redirect {
  r_type : redirect_type;
  r_token : option token;
  r_fd : Z;
  r_str : string;
  r_regex : regex_lines;
  r_file_path : string;
  r_file_mode : redirect_fmode;
  r_end : string;
  r_end_line : nat;
  r_end_column : nat;
  r_ref : option here_redirect
}.

Definition empty_regex : regex_lines := mk_regex_lines "000"%char "" [].

(** [redirect (redirect_type)] *)
Definition new_redirect (rt : redirect_type) : redirect :=
  mk_redirect rt None 0 "" empty_regex "" fm_compare "" 0 0 None.

(** [redirect (redirect_type::here_doc_ref, const redirect&, token)] *)
Definition ref_redirect (owner : here_redirect) (t : option token)
  : redirect :=
  mk_redirect rt_here_doc_ref t 0 "" empty_regex "" fm_compare "" 0 0
              (Some owner).

Record command := mk_command {
  program : string;
  arguments : list string;
  c_in : option redirect;
  c_out : option redirect;
  c_err : option redirect
}.

Definition new_command : command := mk_command "" [] None None None.

Inductive expr_operator := log_or | log_and.

Record expr_term := mk_term {
  op : expr_operator;
  pipe : list command
}.

Abbreviation command_expr := (list expr_term).

Record here_doc := mk_here_doc {
  redirects : list here_redirect;
  end_ : string;
  literal : bool;
  modifiers : string;
  regex : ascii;
  regex_flags : string
}.

Abbreviation here_docs := (list here_doc).

Inductive pending :=
| p_none | p_program
| p_in_string | p_in_document | p_in_file
| p_out_merge | p_out_string | p_out_str_regex
| p_out_document | p_out_doc_regex | p_out_file
| p_err_merge | p_err_string | p_err_str_regex
| p_err_document | p_err_doc_regex | p_err_file
| p_clean.

Definition redirect_type_eqb (x y : redirect_type) : bool :=
  match x, y with
  | rt_none, rt_none | rt_pass, rt_pass | rt_null, rt_null
  | rt_trace, rt_trace | rt_merge, rt_merge
  | rt_here_str_literal, rt_here_str_literal
  | rt_here_str_regex, rt_here_str_regex
  | rt_here_doc_literal, rt_here_doc_literal
  | rt_here_doc_regex, rt_here_doc_regex
  | rt_here_doc_ref, rt_here_doc_ref | rt_file, rt_file => true
  | _, _ => false
  end.

(** [s.find (c) != string::npos] *)
Fixpoint has_char (c : ascii) (s : string) : bool :=
  match s with
  | EmptyString => false
  | String x s' => Ascii.eqb x c || has_char c s'
  end.

(** *** [std::stoul] *)

Definition is_space (c : ascii) : bool :=
  let n := nat_of_ascii c in
  Nat.eqb n 32 || (Nat.leb 9 n && Nat.leb n 13).

Definition is_digit (c : ascii) : bool :=
  let n := nat_of_ascii c in Nat.leb 48 n && Nat.leb n 57.

Fixpoint skip_spaces (s : string) : string * nat :=
  match s with
  | String x s' =>
      if is_space x
      then let '(r, k) := skip_spaces s' in (r, S k)
      else (s, 0%nat)
  | EmptyString => (s, 0%nat)
  end.

Fixpoint leading_digits (s : string) (acc : N) : N * nat :=
  match s with
  | String x s' =>
      if is_digit x
      then let '(v, k) :=
             leading_digits s' (acc * 10 + N.of_nat (nat_of_ascii x - 48)) in
           (v, S k)
      else (acc, 0%nat)
  | EmptyString => (acc, 0%nat)
  end.

Definition ULONG_MAX : N := 2 ^ 64 - 1.

(** [stoul (s, &n)] in base 10, for a 64-bit [unsigned long]: leading
    white space, an optional sign, digits; the value and the number of
    characters used, [None] when it throws ([invalid_argument] without a
    digit, [out_of_range] above [ULONG_MAX]); a minus sign negates
    modulo 2^64. *)
Definition stoul (s : string) : option (N * nat) :=
  let '(s1, ws) := skip_spaces s in
  let '(neg, s2, sg) :=
    match s1 with
    | String "-"%char r => (true, r, 1%nat)
    | String "+"%char r => (false, r, 1%nat)
    | _ => (false, s1, 0%nat)
    end in
  let '(v, nd) := leading_digits s2 0 in
  if Nat.eqb nd 0 then None
  else if N.ltb ULONG_MAX v then None
  else Some (if neg then ((2 ^ 64 - v) mod 2 ^ 64)%N else v,
             (ws + sg + nd)%nat).

(** *** [parse_command_expr]: the state its lambdas capture *)

Record parse_state := mk_state {
  c : command;
  expr : command_expr;
  p : pending;
  mod_ : string;
  hd : here_docs;
  pre_parse_ : bool
}.

Definition is_type (r : option redirect) (rt : redirect_type) : bool :=
  match r with
  | Some x => redirect_type_eqb (r_type x) rt
  | None => false
  end.

(** The [check_command] lambda. *)
Definition check_command (c : command) (last : bool) : outcome unit :=
  if is_type (c_out c) rt_merge && is_type (c_err c) rt_merge
  then Failed "stdout and stderr redirected to each other"
  else if negb last && match c_out c with Some _ => true | None => false end
       then Failed "stdout is both redirected and piped"
       else Done tt.

Definition in_family (tt : token_type) : bool :=
  match tt with
  | tk_in_pass | tk_in_null | tk_in_str | tk_in_doc | tk_in_file => true
  | _ => false
  end.

Definition out_family (tt : token_type) : bool :=
  match tt with
  | tk_out_pass | tk_out_null | tk_out_trace | tk_out_merge
  | tk_out_str | tk_out_doc
  | tk_out_file_cmp | tk_out_file_ovr | tk_out_file_app => true
  | _ => false
  end.

Definition is_alias (tt : token_type) : bool :=
  match tt with
  | tk_in_l | tk_in_ll | tk_in_lll | tk_out_g | tk_out_gg | tk_out_ggg => true
  | _ => false
  end.

(** "See if we have the file descriptor": 3 when the redirect token is
    separated from what precedes it, otherwise the last argument read
    with [stoul]; the argument is removed. *)
Definition explicit_fd (t : token) (args : list string)
  : outcome (N * list string) :=
  if negb (t_separated t)
  then
    match last args with
    | None => Failed "missing redirect file descriptor"
    | Some s =>
        match stoul s with
        | Some (fd, n) =>
            if negb (Nat.eqb n (String.length s)) || N.ltb 2 fd
            then Failed "invalid redirect file descriptor"
            else Done (fd, removelast args)
        | None => Failed "invalid redirect file descriptor"
        end
    end
  else Done (3%N, args).

(** "Validate/set default file descriptor". *)
Definition validate_fd (tt : token_type) (fd : N) (e : command_expr)
  : outcome N :=
  if in_family tt
  then
    let fd := if N.eqb fd 3 then 0%N else fd in
    if negb (N.eqb fd 0) then Failed "invalid in redirect file descriptor"
    else match last e with
         | None => Aborted
         | Some back =>
             match pipe back with
             | [] => Done fd
             | _ => Failed "stdin is both piped and redirected"
             end
         end
  else if out_family tt
       then
         let fd := if N.eqb fd 3 then 1%N else fd in
         if N.eqb fd 0 then Failed "invalid out redirect file descriptor"
         else Done fd
       else Done fd.

(** The type of redirect a token stands for; [None] when an [assert]
    fails (a regex modifier on an input redirect). *)
Definition redirect_type_of (tt : token_type) (mod_ : string)
  : option redirect_type :=
  match tt with
  | tk_in_pass | tk_out_pass => Some rt_pass
  | tk_in_null | tk_out_null => Some rt_null
  | tk_out_trace => Some rt_trace
  | tk_out_merge => Some rt_merge
  | tk_in_str =>
      if has_char "~" mod_ then None else Some rt_here_str_literal
  | tk_out_str =>
      Some (if has_char "~" mod_ then rt_here_str_regex
            else rt_here_str_literal)
  | tk_in_doc =>
      if has_char "~" mod_ then None else Some rt_here_doc_literal
  | tk_out_doc =>
      Some (if has_char "~" mod_ then rt_here_doc_regex
            else rt_here_doc_literal)
  | tk_in_file | tk_out_file_cmp | tk_out_file_ovr | tk_out_file_app =>
      Some rt_file
  | _ => Some rt_none
  end.

(** The pending position a redirect of type [rt] on descriptor [fd]
    leaves; [None] when an [assert (false)] is reached. *)
Definition pending_of (rt : redirect_type) (fd : N) (old : pending)
  : option pending :=
  match rt with
  | rt_none => None
  | rt_pass | rt_null | rt_trace => Some old
  | rt_merge =>
      match fd with
      | 0%N => None | 1%N => Some p_out_merge | 2%N => Some p_err_merge
      | _ => Some old
      end
  | rt_here_str_literal =>
      match fd with
      | 0%N => Some p_in_string | 1%N => Some p_out_string
      | 2%N => Some p_err_string | _ => Some old
      end
  | rt_here_str_regex =>
      match fd with
      | 0%N => None | 1%N => Some p_out_str_regex
      | 2%N => Some p_err_str_regex | _ => Some old
      end
  | rt_here_doc_literal =>
      match fd with
      | 0%N => Some p_in_document | 1%N => Some p_out_document
      | 2%N => Some p_err_document | _ => Some old
      end
  | rt_here_doc_regex =>
      match fd with
      | 0%N => None | 1%N => Some p_out_doc_regex
      | 2%N => Some p_err_doc_regex | _ => Some old
      end
  | rt_file =>
      match fd with
      | 0%N => Some p_in_file | 1%N => Some p_out_file
      | 2%N => Some p_err_file | _ => Some old
      end
  | rt_here_doc_ref => None
  end.

Definition file_mode_of (tt : token_type) : redirect_fmode :=
  match tt with
  | tk_out_file_ovr => fm_overwrite
  | tk_out_file_app => fm_append
  | _ => fm_compare
  end.

(** [fd == 0 ? c.in : fd == 1 ? c.out : c.err] *)
Definition get_redirect (c : command) (fd : Z) : option redirect :=
  if Z.eqb fd 0 then c_in c else if Z.eqb fd 1 then c_out c else c_err c.

Definition set_redirect (c : command) (fd : Z) (r : option redirect)
  : command :=
  if Z.eqb fd 0
  then mk_command (program c) (arguments c) r (c_out c) (c_err c)
  else if Z.eqb fd 1
       then mk_command (program c) (arguments c) (c_in c) r (c_err c)
       else mk_command (program c) (arguments c) (c_in c) (c_out c) r.

Definition here_redirect_eqb (x y : here_redirect) : bool :=
  Nat.eqb (hr_expr x) (hr_expr y) && Nat.eqb (hr_pipe x) (hr_pipe y)
  && Z.eqb (hr_fd x) (hr_fd y).

(** [rs.erase (find_if (...))]: remove the first reference equal to
    [x], if there is one. *)
Fixpoint erase_first (x : here_redirect) (rs : list here_redirect)
  : option (list here_redirect) :=
  match rs with
  | [] => None
  | r :: rs' =>
      if here_redirect_eqb r x then Some rs'
      else match erase_first x rs' with
           | Some l => Some (r :: l)
           | None => None
           end
  end.

Definition with_redirects (d : here_doc) (rs : list here_redirect)
  : here_doc :=
  mk_here_doc rs (end_ d) (literal d) (modifiers d) (regex d)
              (regex_flags d).

(** The loop that drops the reference to an overridden here-document
    redirect from the first [here_doc] that has it. *)
Fixpoint drop_reference (x : here_redirect) (hd : here_docs) : here_docs :=
  match hd with
  | [] => []
  | d :: hd' =>
      match erase_first x (redirects d) with
      | Some rs => with_redirects d rs :: hd'
      | None => d :: drop_reference x hd'
      end
  end.

Definition with_token (r : redirect) (t : token) : redirect :=
  mk_redirect (r_type r) (Some t) (r_fd r) (r_str r) (r_regex r)
              (r_file_path r) (r_file_mode r) (r_end r) (r_end_line r)
              (r_end_column r) (r_ref r).

Definition with_file_mode (r : redirect) (m : redirect_fmode) : redirect :=
  mk_redirect (r_type r) (r_token r) (r_fd r) (r_str r) (r_regex r)
              (r_file_path r) m (r_end r) (r_end_line r)
              (r_end_column r) (r_ref r).

(** The [parse_redirect] lambda. *)
Definition parse_redirect (st : parse_state) (t : token) (tt : token_type)
  : outcome parse_state :=
  if is_alias tt then Aborted
  else if negb (match p st with p_none => true | _ => false end
                && String.eqb (mod_ st) "")
  then Aborted
  else
    match explicit_fd t (arguments (c st)) with
    | Failed d => Failed d
    | Aborted => Aborted
    | Done (fd, args) =>
        match validate_fd tt fd (expr st) with
        | Failed d => Failed d
        | Aborted => Aborted
        | Done fd =>
            let m := t_value t in
            match redirect_type_of tt m with
            | None => Aborted
            | Some rt =>
                let c0 := mk_command (program (c st)) args (c_in (c st))
                            (c_out (c st)) (c_err (c st)) in
                let overriden :=
                  match get_redirect c0 (Z.of_N fd) with
                  | Some r => Some (r_type r)
                  | None => None
                  end in
                let r := with_token (new_redirect rt) t in
                let r := match rt with
                         | rt_file => with_file_mode r (file_mode_of tt)
                         | _ => r
                         end in
                match pending_of rt fd (p st) with
                | None => Aborted
                | Some pn =>
                    let overrides_doc :=
                      match overriden with
                      | Some o =>
                          redirect_type_eqb o rt_here_doc_literal
                          || redirect_type_eqb o rt_here_doc_regex
                      | None => false
                      end in
                    if negb (pre_parse_ st) && overrides_doc
                    then
                      match last (expr st) with
                      | None => Aborted
                      | Some back =>
                          Done (mk_state
                                  (set_redirect c0 (Z.of_N fd) (Some r))
                                  (expr st) pn m
                                  (drop_reference
                                     (mk_here_redirect (length (expr st) - 1)
                                        (length (pipe back)) (Z.of_N fd))
                                     (hd st))
                                  (pre_parse_ st))
                      end
                    else
                      Done (mk_state
                              (set_redirect c0 (Z.of_N fd) (Some r))
                              (expr st) pn m (hd st) (pre_parse_ st))
                end
            end
        end
    end.

(** *** Here-documents *)

Definition is_word (tt : token_type) : bool :=
  match tt with tk_word => true | _ => false end.

(** [s.find (c, 0)] as the length of the part before the first [c]. *)
Fixpoint find_char (c : ascii) (s : string) : option nat :=
  match s with
  | EmptyString => None
  | String x s' =>
      if Ascii.eqb x c then Some 0%nat
      else match find_char c s' with
           | Some n => Some (S n)
           | None => None
           end
  end.

(** The longest prefix of [di] flag characters, and what follows it. *)
Fixpoint split_flags (s : string) : string * string :=
  match s with
  | String x s' =>
      if Ascii.eqb x "d" || Ascii.eqb x "i"
      then let '(f, r) := split_flags s' in (String x f, r)
      else (EmptyString, s)
  | EmptyString => (EmptyString, EmptyString)
  end.

Record regex_parts := mk_regex_parts {
  rp_value : string;
  rp_intro : ascii;
  rp_flags : string
}.

(** [regex_parts ()] *)
Definition no_regex_parts : regex_parts := mk_regex_parts "" "000"%char "".

(** [parse_regex (s, l, what)] with [end == nullptr]. *)
Definition parse_regex (s : string) : outcome regex_parts :=
  match s with
  | EmptyString => Failed "no introducer character"
  | String i rest =>
      match find_char i rest with
      | None => Failed "no closing introducer character"
      | Some rn =>
          if Nat.eqb rn 0 then Failed "regex is empty"
          else
            let '(flags, junk) :=
              split_flags (substring (S rn) (String.length rest - S rn) rest) in
            match junk with
            | String x _ =>
                if negb (Ascii.eqb x "000") then Failed "junk at the end"
                else Done (mk_regex_parts (substring 0 rn rest) i flags)
            | EmptyString =>
                Done (mk_regex_parts (substring 0 rn rest) i flags)
            end
      end
  end.

(** The [check_regex_mod] lambda. *)
Definition check_regex_mod (m re : string) : outcome unit :=
  if has_char "/" m && match re with
                       | String x _ => Ascii.eqb x "/"
                       | EmptyString => false
                       end
  then Failed "portable path modifier and '/' introducer"
  else Done tt.

(** The quoting of an end marker as the pre-parser takes it: an
    unquoted word is treated as single-quoted, a partially quoted one
    is refused. *)
Definition effective_quoting (m : token) : option quote_type :=
  match t_qtype m with
  | unquoted => Some single
  | single => if t_qcomp m then Some single else None
  | double_ => if t_qcomp m then Some double_ else None
  | mixed => None
  end.

Definition is_single (q : quote_type) : bool :=
  match q with single => true | _ => false end.

(** The first expected here-document with the end marker [e]. *)
Fixpoint find_end (e : string) (hd : here_docs) : option here_doc :=
  match hd with
  | [] => None
  | d :: hd' => if String.eqb (end_ d) e then Some d else find_end e hd'
  end.

(** The [check] calls made for a here-document that is shared. *)
Definition check_shared (d : here_doc) (m : string) (lit re : bool)
  (r : regex_parts) : outcome unit :=
  if negb (String.eqb (modifiers d) m)
  then Failed "different modifiers for shared here-document"
  else if negb (Bool.eqb (literal d) lit)
  then Failed "different quoting for shared here-document"
  else if re && negb (Ascii.eqb (regex d) (rp_intro r))
  then Failed "different introducers for shared here-document"
  else if re && negb (String.eqb (regex_flags d) (rp_flags r))
  then Failed "different global flags for shared here-document"
  else Done tt.

(** The search for an expected here-document with the same end marker
    and the registration of a new one otherwise (pre-parse). *)
Definition share_or_add (hd : here_docs) (e m : string) (lit re : bool)
  (r : regex_parts) : outcome here_docs :=
  match find_end e hd with
  | Some d =>
      match check_shared d m lit re r with
      | Done _ => Done hd
      | Failed x => Failed x
      | Aborted => Aborted
      end
  | None =>
      Done (hd ++ [mk_here_doc [] e lit m (rp_intro r) (rp_flags r)])%list
  end.

(** The [in_doc]/[out_doc] case of the pre-parse branch of
    [parse_command_expr], up to the search for a here-document to
    share: [t] is the redirect token (its value holds the modifiers),
    [m] the token after it and [pk] the one peeked after that; the
    result is the end marker ("cleared" for a regex), whether it is
    literal, and the regex parts. *)
Definition marker_parts (t m pk : token)
  : outcome (string * bool * regex_parts) :=
  let mo := t_value t in
  let re := has_char "~" mo in
  if negb (is_word (t_type m)) || String.eqb (t_value m) ""
  then Failed "expected here-document end marker"
  else if negb (t_separated pk)
          && match t_type pk with
             | tk_dollar | tk_lparen => true
             | _ => false
             end
  then Failed "here-document end marker must be literal"
  else
    match effective_quoting m with
    | None => Failed "partially-quoted here-document end marker"
    | Some qt =>
        if re
        then match check_regex_mod mo (t_value m) with
             | Done _ =>
                 match parse_regex (t_value m) with
                 | Done r => Done (rp_value r, is_single qt, r)
                 | Failed x => Failed x
                 | Aborted => Aborted
                 end
             | Failed x => Failed x
             | Aborted => Aborted
             end
        else Done (t_value m, is_single qt, no_regex_parts)
    end.

(** The [in_doc]/[out_doc] case of the pre-parse branch as a whole. *)
Definition pre_parse_here_doc (hd : here_docs) (t m pk : token)
  : outcome here_docs :=
  match marker_parts t m pk with
  | Done (e, lit, r) =>
      share_or_add hd e (t_value t) lit (has_char "~" (t_value t)) r
  | Failed x => Failed x
  | Aborted => Aborted
  end.

(** Two end markers share a here-document when these agree. *)
Definition same_here_doc (d : here_doc) (m : string) (lit re : bool)
  (r : regex_parts) : Prop :=
  modifiers d = m /\ literal d = lit
  /\ (re = true -> regex d = rp_intro r /\ regex_flags d = rp_flags r).

(** The descriptor a pending here-document position stands for. *)
Definition pending_doc_fd (p : pending) : option Z :=
  match p with
  | p_in_document => Some 0%Z
  | p_out_document | p_out_doc_regex => Some 1%Z
  | p_err_document | p_err_doc_regex => Some 2%Z
  | _ => None
  end.

Definition pending_doc_regex (p : pending) : bool :=
  match p with
  | p_out_doc_regex | p_err_doc_regex => true
  | _ => false
  end.

(** [d.redirects.emplace_back (rd)] on the first here-document with the
    end marker [e]. *)
Fixpoint add_reference (rd : here_redirect) (e : string) (hd : here_docs)
  : option here_docs :=
  match hd with
  | [] => None
  | d :: hd' =>
      if String.eqb (end_ d) e
      then Some (with_redirects d (redirects d ++ [rd])%list :: hd')
      else match add_reference rd e hd' with
           | Some l => Some (d :: l)
           | None => None
           end
  end.

(** The end marker case of the default branch of [parse_command_expr]
    (the token follows a here-document redirect); [None] when no
    here-document end marker is pending. *)
Definition parse_here_end (st : parse_state) (t : token)
  : option (outcome parse_state) :=
  match pending_doc_fd (p st) with
  | None => None
  | Some fd =>
      Some
        (if negb (is_word (t_type t)) || String.eqb (t_value t) ""
         then Failed "expected here-document end marker"
         else
           match last (expr st) with
           | None => Aborted
           | Some back =>
               let rd := mk_here_redirect (length (expr st) - 1)
                           (length (pipe back)) fd in
               let parts :=
                 if pending_doc_regex (p st)
                 then match parse_regex (t_value t) with
                      | Done r => Done (rp_value r, r)
                      | Failed x => Failed x
                      | Aborted => Aborted
                      end
                 else Done (t_value t, no_regex_parts) in
               match parts with
               | Done (e, r) =>
                   let hd1 :=
                     match add_reference rd e (hd st) with
                     | Some l => l
                     | None =>
                         (hd st ++
                          [mk_here_doc [rd] e
                             (match t_qtype t with
                              | unquoted | single => true
                              | _ => false
                              end)
                             (mod_ st) (rp_intro r) (rp_flags r)])%list
                     end in
                   Done (mk_state (c st) (expr st) p_none "" hd1
                           (pre_parse_ st))
               | Failed x => Failed x
               | Aborted => Aborted
               end
           end)
  end.

(** What [parse_here_document] returns. *)
Record parsed_doc := mk_parsed_doc {
  pd_str : string;
  pd_regex : regex_lines;
  pd_re : bool;
  pd_end_line : nat;
  pd_end_column : nat
}.

(** [p.first[i->expr].pipe[i->pipe]] *)
Definition command_at (e : command_expr) (x : here_redirect)
  : option command :=
  match e !! hr_expr x with
  | Some term => pipe term !! hr_pipe x
  | None => None
  end.

Definition redirect_at (e : command_expr) (x : here_redirect)
  : option redirect :=
  match command_at e x with
  | Some c => get_redirect c (hr_fd x)
  | None => None
  end.

Definition store_redirect (e : command_expr) (x : here_redirect)
  (r : redirect) : command_expr :=
  match e !! hr_expr x with
  | Some term =>
      match pipe term !! hr_pipe x with
      | Some c =>
          <[hr_expr x :=
              mk_term (op term)
                (<[hr_pipe x := set_redirect c (hr_fd x) (Some r)]>
                   (pipe term))]> e
      | None => e
      end
  | None => e
  end.

(** The redirect that owns the body of [h] once it is parsed. *)
Definition with_body (r : redirect) (h : here_doc) (v : parsed_doc)
  : redirect :=
  if pd_re v
  then mk_redirect (r_type r) (r_token r) (r_fd r) (r_str r)
         (mk_regex_lines (rl_intro (pd_regex v)) (regex_flags h)
            (rl_lines (pd_regex v)))
         (r_file_path r) (r_file_mode r) (end_ h) (pd_end_line v)
         (pd_end_column v) (r_ref r)
  else mk_redirect (r_type r) (r_token r) (r_fd r) (pd_str v) (r_regex r)
         (r_file_path r) (r_file_mode r) (end_ h) (pd_end_line v)
         (pd_end_column v) (r_ref r).

(** The loop that turns the further redirects of a here-document into
    references to the first one. *)
Fixpoint make_references (owner : here_redirect) (rest : list here_redirect)
  (e : command_expr) : outcome command_expr :=
  match rest with
  | [] => Done e
  | i :: rest' =>
      match redirect_at e i with
      | Some ir =>
          make_references owner rest'
            (store_redirect e i (ref_redirect owner (r_token ir)))
      | None => Aborted
      end
  end.

(** The body of the loop of [parse_here_documents] after the fragment
    [v] of [h] is parsed. *)
Definition assign_here_doc (pre : bool) (e : command_expr) (h : here_doc)
  (v : parsed_doc) : outcome command_expr :=
  if pre then Done e
  else
    match redirects h with
    | [] => Done e
    | i :: rest =>
        match redirect_at e i with
        | None => Aborted
        | Some r =>
            if negb (redirect_type_eqb (r_type r)
                       (if pd_re v then rt_here_doc_regex
                        else rt_here_doc_literal))
            then Aborted
            else make_references i rest (store_redirect e i (with_body r h v))
        end
    end.

(** All the redirects the expected here-documents refer to. *)
Definition positions (hd : here_docs) : list here_redirect :=
  concat (map redirects hd).

(** Whether the redirect of [c] on the descriptor [fd] is a
    here-document. *)
Definition is_here_doc (c : command) (fd : Z) : bool :=
  match get_redirect c fd with
  | Some r =>
      redirect_type_eqb (r_type r) rt_here_doc_literal
      || redirect_type_eqb (r_type r) rt_here_doc_regex
  | None => false
  end.

(** The places a here-document redirect can have. *)
Definition valid_fd (x : here_redirect) : Prop :=
  hr_fd x = 0%Z \/ hr_fd x = 1%Z \/ hr_fd x = 2%Z.

Section HereDocuments.

(** [parse_here_document (t, tt, end, modifiers, regex)] reads the next
    fragment from the input. *)
Variable input : Type.
Variable parse_here_document :
  string -> string -> ascii -> input -> outcome (parsed_doc * input).

(** [parser::parse_here_documents] *)
Fixpoint parse_here_documents (pre : bool) (hd : here_docs)
  (e : command_expr) (i : input) : outcome (command_expr * input) :=
  match hd with
  | [] => Done (e, i)
  | h :: hd' =>
      match parse_here_document (end_ h) (modifiers h) (regex h) i with
      | Done (v, i1) =>
          match assign_here_doc pre e h v with
          | Done e1 => parse_here_documents pre hd' e1 i1
          | Failed x => Failed x
          | Aborted => Aborted
          end
      | Failed x => Failed x
      | Aborted => Aborted
      end
  end.

End HereDocuments.

(** *** [parse_here_document] *)

Definition is_blank (x : ascii) : bool :=
  Ascii.eqb x " " || Ascii.eqb x "009".

(** [v.find_first_not_of (" \t")], [None] for [npos]. *)
Fixpoint first_not_blank (v : string) : option nat :=
  match v with
  | EmptyString => None
  | String x v' =>
      if is_blank x
      then match first_not_blank v' with
           | Some i => Some (S i)
           | None => None
           end
      else Some 0%nat
  end.

(** The test for the end marker in [parse_here_document], for the
    value [v] of an unquoted word that is followed by a newline: the
    length of the strip prefix if [v] is the end marker [em] after
    white space only. *)
Definition end_marker (v em : string) : option nat :=
  let vn := String.length v in
  let en := String.length em in
  if Nat.leb en vn && String.eqb (substring (vn - en) en v) em
  then
    let n := (vn - en)%nat in
    match first_not_blank v with
    | Some i => if Nat.leb n i then Some n else None
    | None => Some n
    end
  else None.

(** A line of a here-document as the parser sees it: [dl_word] is the
    value of the first token when the line is a single unquoted word
    followed by a newline; [dl_names] is what the names of the
    expanded line convert to, [None] for a name that
    [value_traits<string>::convert] refuses. *)
Record doc_line := mk_doc_line {
  dl_word : option string;
  dl_names : list (option string)
}.

(** The loop over the names of a line: "adding all the elements
    space-separated". *)
Fixpoint join_rest (s : string) (ns : list (option string))
  : outcome string :=
  match ns with
  | [] => Done s
  | Some n :: ns' => join_rest (s +:+ String " " n) ns'
  | None :: _ => Failed "invalid string value"
  end.

Definition join_names (ns : list (option string)) : outcome string :=
  match ns with
  | [] => Done EmptyString
  | Some n :: ns' => join_rest n ns'
  | None :: _ => Failed "invalid string value"
  end.

(** The lines of a regex here-document: a literal, a sequence of
    syntax characters, or a regex with its flags and the syntax
    characters after it (the positions are left out). *)
Inductive regex_line :=
| line_literal (value : string)
| line_special (chars : string)
| line_regex (value flags special : string).

(** The loop [for (size_t p (0); p != string::npos; )] cuts the
    expanded line at its newlines. *)
Fixpoint split_lines (s : string) : list string :=
  match s with
  | EmptyString => [EmptyString]
  | String x s' =>
      if Ascii.eqb x "010" then EmptyString :: split_lines s'
      else match split_lines s' with
           | l :: ls => String x l :: ls
           | [] => [String x EmptyString]
           end
  end.

(** [parse_regex (s, l, what, &end)]: the parts and the position after
    the flags; what follows is not looked at. *)
Definition parse_regex_end (s : string) : outcome (regex_parts * nat) :=
  match s with
  | EmptyString => Failed "no introducer character"
  | String i rest =>
      match find_char i rest with
      | None => Failed "no closing introducer character"
      | Some rn =>
          if Nat.eqb rn 0 then Failed "regex is empty"
          else
            let '(flags, _) :=
              split_flags (substring (S rn) (String.length rest - S rn) rest) in
            Done (mk_regex_parts (substring 0 rn rest) i flags,
                  (S (S rn) + String.length flags)%nat)
      end
  end.

(** The part of a here-document string from position [p] on. *)
Fixpoint string_from (p : nat) (l : string) : string :=
  match p, l with
  | O, _ => l
  | S p', String _ l' => string_from p' l'
  | S _, EmptyString => EmptyString
  end.

(** One line of a regex here-document, [re] being the introducer. *)
Definition regex_line_of (re : ascii) (ln : string) : outcome regex_line :=
  match ln with
  | EmptyString => Done (line_literal ln)
  | String x rest =>
      if negb (Ascii.eqb x re) then Done (line_literal ln)
      else
        match find_char re rest with
        | None =>
            if String.eqb rest "" then Failed "no syntax line characters"
            else Done (line_special rest)
        | Some 0%nat => Done (line_regex "" "" (string_from 2 ln))
        | Some _ =>
            match parse_regex_end ln with
            | Done (rp, p) =>
                Done (line_regex (rp_value rp) (rp_flags rp)
                        (string_from p ln))
            | Failed d => Failed d
            | Aborted => Aborted
            end
        end
  end.

Fixpoint regex_lines_of (re : ascii) (lns : list string)
  : outcome (list regex_line) :=
  match lns with
  | [] => Done []
  | ln :: lns' =>
      match regex_line_of re ln with
      | Done r =>
          match regex_lines_of re lns' with
          | Done rs => Done (r :: rs)
          | Failed d => Failed d
          | Aborted => Aborted
          end
      | Failed d => Failed d
      | Aborted => Aborted
      end
  end.

(** The here-document read: the string literal or the regex lines. *)
Inductive doc_body :=
| body_text (s : string)
| body_regex (intro : ascii) (lines : list regex_line).

(** What [parse_here_document] does after the end marker while
    executing: the final newline, and the regex made final. *)
Definition finish_document (mod_ : string) (re : ascii)
  (rs : option string) (rre : list regex_line) : outcome doc_body :=
  let colon := has_char ":" mod_ in
  if negb (Ascii.eqb re "000")
  then
    let rre := if negb colon then (rre ++ [line_literal EmptyString])%list
               else rre in
    match rre with
    | [] => Failed "empty here-document regex"
    | _ => Done (body_regex re rre)
    end
  else
    let rs := if negb colon
              then match rs with
                   | Some r => Some (r +:+ String "010" EmptyString)
                   | None => Some (String "010" EmptyString)
                   end
              else rs in
    Done (body_text (match rs with Some r => r | None => EmptyString end)).

(** [parser::parse_here_document (t, tt, em, mod, re)] while executing
    ([pre_parse_] is false): the loop over the lines up to the end
    marker, with the string [rs] and the regex lines [rre] read so
    far; the document and the lines after the end marker. *)
Fixpoint here_document_loop (ls : list doc_line) (em mod_ : string)
  (re : ascii) (rs : option string) (rre : list regex_line)
  : outcome (doc_body * list doc_line) :=
  match ls with
  | [] => Failed "missing here-document end marker"
  | l :: ls' =>
      match match dl_word l with
            | Some v => end_marker v em
            | None => None
            end with
      | Some n =>
          if negb (Nat.eqb n 0) then Aborted
          else match finish_document mod_ re rs rre with
               | Done b => Done (b, ls')
               | Failed d => Failed d
               | Aborted => Aborted
               end
      | None =>
          match join_names (dl_names l) with
          | Failed d => Failed d
          | Aborted => Aborted
          | Done s =>
              if Ascii.eqb re "000"
              then
                let rs := match rs with
                          | Some r => Some (r +:+ String "010" s)
                          | None => Some s
                          end in
                here_document_loop ls' em mod_ re rs rre
              else
                match regex_lines_of re (split_lines s) with
                | Done rl =>
                    here_document_loop ls' em mod_ re rs (rre ++ rl)%list
                | Failed d => Failed d
                | Aborted => Aborted
                end
          end
      end
  end.

Definition parse_here_document (em mod_ : string) (re : ascii)
  (ls : list doc_line) : outcome (doc_body * list doc_line) :=
  here_document_loop ls em mod_ re None [].

(** The same loop while pre-parsing: nothing is expanded, and the end
    marker gives the strip prefix. *)
Fixpoint pre_parse_here_document (ls : list doc_line) (em : string)
  : outcome (string * list doc_line) :=
  match ls with
  | [] => Failed "missing here-document end marker"
  | l :: ls' =>
      match dl_word l with
      | Some v =>
          match end_marker v em with
          | Some n => Done (substring 0 n v, ls')
          | None => pre_parse_here_document ls' em
          end
      | None => pre_parse_here_document ls' em
      end
  end.

Definition is_newline (t : token) : bool :=
  match t_type t with tk_newline => true | _ => false end.

Definition with_value (t : token) (v : string) : token :=
  mk_token (t_type t) v (t_separated t) (t_qtype t) (t_qcomp t).

(** The loop that strips the indentation from the saved tokens of a
    here-document: [start] says that the token is the first of its
    line; the inner loop skips to the next newline, which the saved
    tokens have to contain. *)
Fixpoint strip_prefix (sp : string) (ts : list token) (start : bool)
  : outcome (list token) :=
  match ts with
  | [] => if start then Done [] else Aborted
  | t :: ts' =>
      let keep (r : outcome (list token)) :=
        match r with
        | Done l => Done (t :: l)
        | Failed d => Failed d
        | Aborted => Aborted
        end in
      if is_newline t then keep (strip_prefix sp ts' true)
      else if start
      then
        if negb (is_word (t_type t)) || negb (String.prefix sp (t_value t))
        then Failed "unindented here-document line"
        else if Nat.eqb (String.length (t_value t)) (String.length sp)
        then strip_prefix sp ts' false
        else
          match strip_prefix sp ts' false with
          | Done l =>
              Done (with_value t
                      (string_from (String.length sp) (t_value t)) :: l)
          | Failed d => Failed d
          | Aborted => Aborted
          end
      else keep (strip_prefix sp ts' false)
  end.

(** "Strip the indentation prefix if there is one." *)
Definition strip_indentation (sp : string) (ts : list token)
  : outcome (list token) :=
  if negb (String.eqb sp "") then strip_prefix sp ts true else Done ts.

(** The saved tokens of the lines of a here-document: each line is
    followed by its newline token. *)
Fixpoint saved_lines (ls : list (list token * token)) : list token :=
  match ls with
  | [] => []
  | (l, nl) :: ls' => (l ++ nl :: saved_lines ls')%list
  end.

(** A line that is blank or starts with a word that starts with the
    strip prefix. *)
Definition indented (sp : string) (l : list token) : bool :=
  match l with
  | [] => true
  | t :: _ => is_word (t_type t) && String.prefix sp (t_value t)
  end.

(** A line without its indentation: the prefix is cut off the first
    word, and a first word that is only the prefix is dropped. *)
Definition strip_line (sp : string) (l : list token) : list token :=
  match l with
  | [] => []
  | t :: l' =>
      if Nat.eqb (String.length (t_value t)) (String.length sp) then l'
      else with_value t (string_from (String.length sp) (t_value t)) :: l'
  end.

(** A line of saved tokens: no newline but the one that ends it. *)
Definition saved_line (sp : string) (x : list token * token) : Prop :=
  Forall (fun t => is_newline t = false) (fst x)
  /\ is_newline (snd x) = true
  /\ indented sp (fst x) = true.

(** The lines of a here-document as texts, put together: separated by
    newlines. *)
Fixpoint join_lines (ls : list string) : string :=
  match ls with
  | [] => EmptyString
  | [l] => l
  | l :: ls' => l +:+ String "010" (join_lines ls')
  end.

(** Strings of spaces and tabs only. *)
Fixpoint all_blank (s : string) : bool :=
  match s with
  | EmptyString => true
  | String x s' => is_blank x && all_blank s'
  end.

(** The text of a line of a regex here-document, [re] being the
    introducer. *)
Definition line_text (re : ascii) (r : regex_line) : string :=
  match r with
  | line_literal v => v
  | line_special chars => String re chars
  | line_regex v f sp => String re (v +:+ String re (f +:+ sp))
  end.

(** A line of the body: not the end marker, and all its names
    convert; [s] is its text. *)
Definition body_line (em : string) (l : doc_line) (s : string) : Prop :=
  match dl_word l with
  | Some v => end_marker v em = None
  | None => True
  end
  /\ join_names (dl_names l) = Done s.

(** What a here-document ends with: a newline, unless the modifiers
    hold a colon. *)
Definition final_newline (mod_ : string) : string :=
  if has_char ":" mod_ then EmptyString else String "010" EmptyString.

(** *** [exec_lines] *)

Inductive line_type :=
| lt_var | lt_cmd
| lt_cmd_if | lt_cmd_ifn | lt_cmd_elif | lt_cmd_elifn | lt_cmd_else
| lt_cmd_end.

Definition is_if (lt : line_type) : bool :=
  match lt with lt_cmd_if | lt_cmd_ifn => true | _ => false end.

Definition is_end (lt : line_type) : bool :=
  match lt with lt_cmd_end => true | _ => false end.

Definition is_else_kind (lt : line_type) : bool :=
  match lt with
  | lt_cmd_elif | lt_cmd_elifn | lt_cmd_else => true
  | _ => false
  end.

Definition is_var (lt : line_type) : bool :=
  match lt with lt_var => true | _ => false end.

(** The lines [next] counts as commands when it skips them. *)
Definition counted (lt : line_type) : bool :=
  match lt with
  | lt_cmd | lt_cmd_if | lt_cmd_ifn | lt_cmd_elif | lt_cmd_elifn => true
  | _ => false
  end.

(** The loop of the [next] lambda over the lines after [j]: [pos] is
    the index of the first line of [rest], [n] the nesting depth; the
    line found and the new [li], [None] for a missing [end]. *)
Fixpoint next_scan (rest : list line_type) (pos n : nat) (end_ skip : bool)
  (li : nat) : option (nat * nat) :=
  match rest with
  | [] => None
  | lt :: rest' =>
      let n := if is_if lt then S n else n in
      if Nat.eqb n 0 && (is_end lt || (is_else_kind lt && negb end_))
      then Some (pos, li)
      else
        let n := if is_end lt then (n - 1)%nat else n in
        let li := if skip && counted lt then S li else li in
        next_scan rest' (S pos) n end_ skip li
  end.

(** [next (j, end, skip)] within the lines up to [e]. *)
Definition next (lines : list line_type) (e j : nat) (end_ skip : bool)
  (li : nat) : option (nat * nat) :=
  next_scan (drop (S j) (take e lines)) (S j) 0 end_ skip li.

(** What a callback does: return, or throw [exit]. *)
Inductive step (A : Type) : Type :=
| Normal (a : A)
| Exit (status : bool).

Arguments Normal {A} a.
Arguments Exit {A} status.

(** The calls made to the callbacks: the line and the [li] passed. *)
Inductive event :=
| ev_set (line : nat)
| ev_cmd (line li : nat) (single : bool)
| ev_if (line li : nat).

Inductive exec_result :=
| Returned (b : bool)
| Thrown_failed
| Assert_failed
| Out_of_fuel.

Record exec_state := mk_exec {
  li : nat;
  trace : list event
}.

Section Exec.

Variable exec_set : nat -> step unit.
Variable exec_cmd : nat -> nat -> bool -> step unit.
Variable exec_if : nat -> nat -> step bool.

(** The handler of [exit]. *)
Definition on_exit (status : bool) : exec_result :=
  if negb status then Thrown_failed else Returned false.

(** [parser::exec_lines (i, e, exec_set, exec_cmd, exec_if, li, ...)]
    over the lines of the script, addressed by position. *)
Fixpoint exec_lines (fuel : nat) (lines : list line_type) (i e : nat)
  (st : exec_state) : exec_result * exec_state :=
  match fuel with
  | O => (Out_of_fuel, st)
  | S fuel' =>
      if Nat.eqb i e then (Returned true, st)
      else
        match lines !! i with
        | None => (Assert_failed, st)
        | Some lt =>
            match lt with
            | lt_var =>
                let st1 := mk_exec (li st) (trace st ++ [ev_set i])%list in
                match exec_set i with
                | Normal _ => exec_lines fuel' lines (S i) e st1
                | Exit s => (on_exit s, st1)
                end
            | lt_cmd =>
                let single :=
                  Nat.eqb (li st) 1
                  && forallb is_var (drop (S i) (take e lines)) in
                let st1 := mk_exec (S (li st))
                             (trace st ++ [ev_cmd i (li st) single])%list in
                match exec_cmd i (li st) single with
                | Normal _ => exec_lines fuel' lines (S i) e st1
                | Exit s => (on_exit s, st1)
                end
            | lt_cmd_end => (Assert_failed, st)
            | _ =>
                let cond :=
                  match lt with
                  | lt_cmd_else => (Normal true, st)
                  | _ =>
                      (match exec_if i (li st) with
                       | Normal b =>
                           Normal (match lt with
                                   | lt_cmd_ifn | lt_cmd_elifn => negb b
                                   | _ => b
                                   end)
                       | Exit s => Exit s
                       end,
                       mk_exec (S (li st))
                         (trace st ++ [ev_if i (li st)])%list)
                  end in
                match cond with
                | (Exit s, st1) => (on_exit s, st1)
                | (Normal true, st1) =>
                    match next lines e i false false (li st1) with
                    | None => (Assert_failed, st1)
                    | Some (j, _) =>
                        match exec_lines fuel' lines (S i) j st1 with
                        | (Returned true, st2) =>
                            match lines !! j with
                            | Some lt_cmd_end =>
                                exec_lines fuel' lines (S j) e st2
                            | _ =>
                                match next lines e j true true (li st2) with
                                | None => (Assert_failed, st2)
                                | Some (k, li') =>
                                    exec_lines fuel' lines (S k) e
                                      (mk_exec li' (trace st2))
                                end
                            end
                        | r => r
                        end
                    end
                | (Normal false, st1) =>
                    match next lines e i false true (li st1) with
                    | None => (Assert_failed, st1)
                    | Some (j, li') =>
                        let st2 := mk_exec li' (trace st1) in
                        match lines !! j with
                        | Some lt_cmd_end => exec_lines fuel' lines (S j) e st2
                        | _ => exec_lines fuel' lines j e st2
                        end
                    end
                end
            end
        end
  end.

End Exec.

(** The lines that take a command index: commands and the conditions
    of [if], [if!], [elif] and [elif!]. *)
Definition count_commands (lines : list line_type) : nat :=
  length (List.filter counted lines).

(** Lines that are neither a condition nor an [end]. *)
Definition straight (lt : line_type) : bool :=
  match lt with lt_var | lt_cmd => true | _ => false end.

(** The calls a run of straight lines makes, [pos] being the position
    of the first one and [li] the index of the next command: a command
    is the single one when it has index 1 and only variable lines
    follow it. *)
Fixpoint straight_trace (ls : list line_type) (pos li : nat) : list event :=
  match ls with
  | [] => []
  | lt_var :: ls' => ev_set pos :: straight_trace ls' (S pos) li
  | lt_cmd :: ls' =>
      ev_cmd pos li (Nat.eqb li 1 && forallb is_var ls')
      :: straight_trace ls' (S pos) (S li)
  | _ :: ls' => straight_trace ls' (S pos) li
  end.

(** A condition that opens an [if]: [if] takes the branch when the
    condition holds, [if!] when it does not. *)
Definition takes (lt : line_type) (b : bool) : bool :=
  match lt with lt_cmd_ifn => negb b | _ => b end.

(** *** The [add_word] and [check_pending] lambdas *)

(** [std::stoi (w, &n)] in base 10: as [stoul], but the value is
    signed and has to fit an [int]. *)
Definition stoi (s : string) : option (Z * nat) :=
  let '(s1, ws) := skip_spaces s in
  let '(neg, s2, sg) :=
    match s1 with
    | String "-"%char r => (true, r, 1%nat)
    | String "+"%char r => (false, r, 1%nat)
    | _ => (false, s1, 0%nat)
    end in
  let '(v, nd) := leading_digits s2 0 in
  if Nat.eqb nd 0 then None
  else
    let z := if neg then (- Z.of_N v)%Z else Z.of_N v in
    if Z.ltb z (- 2 ^ 31) || Z.ltb (2 ^ 31 - 1) z then None
    else Some (z, (ws + sg + nd)%nat).

(** Modelled from the spec: [redirect::modifiers ()] is declared in the
    script header; [parse_redirect] saves the token in the redirect "to
    keep the modifiers", which are the value of the redirect token. *)
Definition r_modifiers (r : redirect) : string :=
  match r_token r with
  | Some t => t_value t
  | None => EmptyString
  end.

Definition with_fd (r : redirect) (fd : Z) : redirect :=
  mk_redirect (r_type r) (r_token r) fd (r_str r) (r_regex r)
              (r_file_path r) (r_file_mode r) (r_end r) (r_end_line r)
              (r_end_column r) (r_ref r).

Definition with_str (r : redirect) (w : string) : redirect :=
  mk_redirect (r_type r) (r_token r) (r_fd r) w (r_regex r)
              (r_file_path r) (r_file_mode r) (r_end r) (r_end_line r)
              (r_end_column r) (r_ref r).

Definition with_regex (r : redirect) (re : regex_lines) : redirect :=
  mk_redirect (r_type r) (r_token r) (r_fd r) (r_str r) re
              (r_file_path r) (r_file_mode r) (r_end r) (r_end_line r)
              (r_end_column r) (r_ref r).

Definition with_file_path (r : redirect) (f : string) : redirect :=
  mk_redirect (r_type r) (r_token r) (r_fd r) (r_str r) (r_regex r)
              f (r_file_mode r) (r_end r) (r_end_line r)
              (r_end_column r) (r_ref r).

(** The [add_merge] lambda. *)
Definition add_merge (r : option redirect) (w : string) (fd : Z)
  : outcome redirect :=
  match r with
  | None => Aborted
  | Some r =>
      match stoi w with
      | Some (v, n) =>
          if Z.eqb v fd && Nat.eqb n (String.length w)
          then Done (with_fd r fd)
          else Failed "merge redirect file descriptor must be fd"
      | None => Failed "merge redirect file descriptor must be fd"
      end
  end.

(** The [add_here_str] lambda. *)
Definition add_here_str (r : option redirect) (w : string)
  : outcome redirect :=
  match r with
  | None => Aborted
  | Some r =>
      Done (with_str r (if negb (has_char ":" (r_modifiers r))
                        then w +:+ String "010" EmptyString
                        else w))
  end.

Inductive cleanup_type := cl_always | cl_maybe | cl_never.

Section AddWord.

(** Paths are libbutl's: whether a string is a valid path, and
    [path::normalize].  A line of a regex is kept as a string; how the
    value and the flags of a regex make one is left open. *)
Variable valid_path : string -> bool.
Variable normalize : string -> string.
Variable regex_line : string -> string -> string.

(** The [parse_path] lambda. *)
Definition parse_path (w : string) : outcome string :=
  if negb (valid_path w) then Failed "invalid path"
  else if String.eqb w "" then Failed "empty path"
  else Done (normalize w).

(** The [add_here_str_regex] lambda. *)
Definition add_here_str_regex (r : option redirect) (w : string)
  : outcome redirect :=
  match r with
  | None => Aborted
  | Some r =>
      match check_regex_mod (r_modifiers r) w with
      | Failed d => Failed d
      | Aborted => Aborted
      | Done _ =>
          match parse_regex w with
          | Failed d => Failed d
          | Aborted => Aborted
          | Done rp =>
              let ls := (rl_lines (r_regex r)
                         ++ [regex_line (rp_value rp) (rp_flags rp)])%list in
              let ls := if negb (has_char ":" (r_modifiers r))
                        then (ls ++ [EmptyString])%list else ls in
              Done (with_regex r
                      (mk_regex_lines (rp_intro rp) (rl_flags (r_regex r)) ls))
          end
      end
  end.

(** The [add_file] lambda. *)
Definition add_file (r : option redirect) (w : string) : outcome redirect :=
  match r with
  | None => Aborted
  | Some r =>
      match parse_path w with
      | Done f => Done (with_file_path r f)
      | Failed d => Failed d
      | Aborted => Aborted
      end
  end.

(** What [add_word] leaves: the new command with nothing pending and
    the modifiers cleared. *)
Definition word_added (st : parse_state) (c1 : command) : parse_state :=
  mk_state c1 (expr st) p_none EmptyString (hd st) (pre_parse_ st).

Definition redirected (st : parse_state) (fd : Z) (r : outcome redirect)
  : outcome (parse_state * option (cleanup_type * string)) :=
  match r with
  | Done r1 => Done (word_added st (set_redirect (c st) fd (Some r1)), None)
  | Failed d => Failed d
  | Aborted => Aborted
  end.

(** The [add_word] lambda: the new state, and the cleanup added to
    [c.cleanups], if any. *)
Definition add_word (w : string) (st : parse_state)
  : outcome (parse_state * option (cleanup_type * string)) :=
  let c0 := c st in
  match p st with
  | p_none =>
      Done (word_added st
              (mk_command (program c0) (arguments c0 ++ [w])%list
                 (c_in c0) (c_out c0) (c_err c0)),
            None)
  | p_program =>
      match parse_path w with
      | Done f =>
          Done (word_added st
                  (mk_command f (arguments c0) (c_in c0) (c_out c0)
                     (c_err c0)),
                None)
      | Failed d => Failed d
      | Aborted => Aborted
      end
  | p_out_merge => redirected st 1 (add_merge (c_out c0) w 2)
  | p_err_merge => redirected st 2 (add_merge (c_err c0) w 1)
  | p_in_string => redirected st 0 (add_here_str (c_in c0) w)
  | p_out_string => redirected st 1 (add_here_str (c_out c0) w)
  | p_err_string => redirected st 2 (add_here_str (c_err c0) w)
  | p_out_str_regex => redirected st 1 (add_here_str_regex (c_out c0) w)
  | p_err_str_regex => redirected st 2 (add_here_str_regex (c_err c0) w)
  | p_in_document | p_out_document | p_err_document
  | p_out_doc_regex | p_err_doc_regex => Aborted
  | p_in_file => redirected st 0 (add_file (c_in c0) w)
  | p_out_file => redirected st 1 (add_file (c_out c0) w)
  | p_err_file => redirected st 2 (add_file (c_err c0) w)
  | p_clean =>
      let t := match mod_ st with
               | String x _ =>
                   if Ascii.eqb x "!" then cl_never
                   else if Ascii.eqb x "?" then cl_maybe
                   else cl_always
               | EmptyString => cl_always
               end in
      match parse_path w with
      | Done f => Done (word_added st c0, Some (t, f))
      | Failed d => Failed d
      | Aborted => Aborted
      end
  end.

End AddWord.

(** The [check_pending] lambda. *)
Definition check_pending (p : pending) : outcome unit :=
  match p with
  | p_none => Done tt
  | p_program => Failed "missing program"
  | p_in_string => Failed "missing stdin here-string"
  | p_in_document => Failed "missing stdin here-document end"
  | p_in_file => Failed "missing stdin file"
  | p_out_merge => Failed "missing stdout file descriptor"
  | p_out_string => Failed "missing stdout here-string"
  | p_out_document => Failed "missing stdout here-document end"
  | p_out_file => Failed "missing stdout file"
  | p_err_merge => Failed "missing stderr file descriptor"
  | p_err_string => Failed "missing stderr here-string"
  | p_err_document => Failed "missing stderr here-document end"
  | p_err_file => Failed "missing stderr file"
  | p_clean => Failed "missing cleanup path"
  | p_out_str_regex => Failed "missing stdout here-string regex"
  | p_err_str_regex => Failed "missing stderr here-string regex"
  | p_out_doc_regex => Failed "missing stdout here-document regex end"
  | p_err_doc_regex => Failed "missing stderr here-document regex end"
  end.

(** The redirect tokens that take no operand. *)
Definition no_operand (tt : token_type) : bool :=
  match tt with
  | tk_in_pass | tk_in_null | tk_out_pass | tk_out_null | tk_out_trace =>
      true
  | _ => false
  end.

(** *** [parse_command_exit] *)

Inductive exit_comparison := exit_eq | exit_ne.

Record command_exit := mk_command_exit {
  comparison : exit_comparison;
  status : N
}.

Section CommandExit.

(** The name class is declared in a header of its own; of the names
    that [parse_names] returns for the exit status the function looks
    at [simple ()], [empty ()] and [value]. *)
Variable name : Type.
Variable simple : name -> bool.
Variable empty : name -> bool.
Variable value : name -> string.

(** [parser::parse_command_exit (t, tt)]: [tt] is the comparison token
    and [ns] the names of the next chunk; the status is cast to
    [uint8_t]. *)
Definition parse_command_exit (pre_parse : bool) (tt : token_type)
  (ns : list name) : outcome command_exit :=
  let comp := match tt with tk_equal => exit_eq | _ => exit_ne end in
  let es : N :=
    if negb pre_parse
    then match ns with
         | [n] =>
             if simple n && negb (empty n)
             then match stoul (value n) with
                  | Some (v, _) => v
                  | None => 256%N
                  end
             else 256%N
         | _ => 256%N
         end
    else 256%N in
  if negb pre_parse && N.ltb 255 es
  then Failed "expected exit status"
  else Done (mk_command_exit comp (es mod 256)%N).

End CommandExit.

Arguments parse_command_exit {name} simple empty value pre_parse tt ns.

(** Strings of decimal digits only. *)
Fixpoint digits_only (s : string) : bool :=
  match s with
  | EmptyString => true
  | String x s' => is_digit x && digits_only s'
  end.

Definition starts_with_digit (s : string) : bool :=
  match s with String x _ => is_digit x | EmptyString => false end.

(** Strings of the flag characters [d] and [i] only. *)
Fixpoint all_flags (s : string) : bool :=
  match s with
  | EmptyString => true
  | String x s' => (Ascii.eqb x "d" || Ascii.eqb x "i") && all_flags s'
  end.

End Script.

(** ** build2/test/script/parser.cxx *)

Module TestScript.

Inductive token_type :=
| tk_word | tk_newline | tk_eos | tk_assign | tk_prepend | tk_append
| tk_other.

Record token := mk_token {
  t_type : token_type;
  t_value : string;
  t_quoted : bool
}.

Inductive line_type := variable | test.

(** Modelled from the spec: [digit] is declared in the utility header;
    the special names are [$N] with N a non-negative integer, so
    [digit] accepts the decimal digits. *)
Definition digit (c : ascii) : bool :=
  let n := nat_of_ascii c in Nat.leb 48 n && Nat.leb n 57.

Fixpoint all_digits (s : string) : bool :=
  match s with
  | EmptyString => true
  | String c s' => if negb (digit c) then false else all_digits s'
  end.

(** [digits (const string&)] *)
Definition digits (s : string) : bool :=
  all_digits s && negb (String.eqb s "").

(** The names [parse_variable_line] refuses while pre-parsing. *)
Definition special_alias (name : string) : bool :=
  String.eqb name "*" || String.eqb name "~" || digits name.

Definition is_assignment (tt : token_type) : bool :=
  match tt with
  | tk_assign | tk_prepend | tk_append => true
  | _ => false
  end.

Section Parser.

(** Values, and the parts of the parser that live elsewhere:
    [parse_variable_value] consumes the tokens of the value and leaves
    the type of the token after it; [apply_value_attributes] combines
    the old value of the variable with the new one; [parse_test_line]
    handles a test line. *)
Variable value : Type.
Variable parse_variable_value : list token -> outcome (value * token_type).
Variable apply_value_attributes :
  option value -> value -> token_type -> option value.
Variable parse_test_line : bool -> list token -> outcome unit.

(** The names of [script_->test_var], [opts_var], [args_var] and
    [cmd_var]. *)
Variable test_var opts_var args_var cmd_var : string.

(** The variables of the scope: the most recent assignment first. *)
Local Abbreviation scope := (list (string * option value)).

Fixpoint lookup (s : scope) (n : string) : option (option value) :=
  match s with
  | [] => None
  | (k, v) :: s' => if String.eqb k n then Some v else lookup s' n
  end.

Definition current (s : scope) (n : string) : option value :=
  match lookup s n with Some v => v | None => None end.

(** The variables a variable line has entered into the pool. *)
Record parser_state := mk_parser {
  pre_parse_ : bool;
  scope_ : scope;
  var_pool : list string
}.

(** [parser::parse_variable_line]: [t] is the name token and [rest]
    the tokens after it, the first of which is the assignment. *)
Definition parse_variable_line (ps : parser_state) (t : token)
  (rest : list token) : outcome parser_state :=
  let name := t_value t in
  if pre_parse_ ps && special_alias name
  then Failed "attempt to set variable directly"
  else
    match rest with
    | [] => Aborted
    | k :: toks =>
        let kind := t_type k in
        match parse_variable_value toks with
        | Failed d => Failed d
        | Aborted => Aborted
        | Done (rhs, after) =>
            match after with
            | tk_newline =>
                if negb (pre_parse_ ps)
                then
                  let lhs := current (scope_ ps) name in
                  let s1 := (name, apply_value_attributes lhs rhs kind)
                            :: scope_ ps in
                  let s2 :=
                    if String.eqb name test_var || String.eqb name opts_var
                       || String.eqb name args_var
                    then (cmd_var, None) :: s1
                    else s1 in
                  Done (mk_parser (pre_parse_ ps) s2 (name :: var_pool ps))
                else Done ps
            | _ => Failed "unexpected token"
            end
        end
    end.

(** [parser::pre_parse_script_line]: the tokens of the line, the first
    one being current. *)
Definition pre_parse_script_line (ps : parser_state) (toks : list token)
  : outcome (line_type * parser_state) :=
  match toks with
  | t :: rest =>
      if match t_type t with tk_word => true | _ => false end
         && negb (t_quoted t)
         && match rest with
            | pk :: _ => is_assignment (t_type pk)
            | [] => false
            end
      then match parse_variable_line ps t rest with
           | Done ps1 => Done (variable, ps1)
           | Failed d => Failed d
           | Aborted => Aborted
           end
      else match parse_test_line (pre_parse_ ps) toks with
           | Done _ => Done (test, ps)
           | Failed d => Failed d
           | Aborted => Aborted
           end
  | [] => Aborted
  end.

(** The loop of [parser::pre_parse_script] over the logical lines of
    the input: the lines it saves in the scope. *)
Fixpoint pre_parse_script (ps : parser_state) (input : list (list token))
  : outcome (list (line_type * list token)) :=
  match input with
  | [] => Done []
  | toks :: input' =>
      match pre_parse_script_line ps toks with
      | Done (lt, ps1) =>
          match pre_parse_script ps1 input' with
          | Done ls => Done ((lt, toks) :: ls)
          | Failed d => Failed d
          | Aborted => Aborted
          end
      | Failed d => Failed d
      | Aborted => Aborted
      end
  end.

(** [parser::parse_script_line] *)
Definition parse_script_line (ps : parser_state) (lt : line_type)
  (toks : list token) : outcome parser_state :=
  match lt with
  | variable =>
      match toks with
      | t :: rest => parse_variable_line ps t rest
      | [] => Aborted
      end
  | test =>
      match parse_test_line (pre_parse_ ps) toks with
      | Done _ => Done ps
      | Failed d => Failed d
      | Aborted => Aborted
      end
  end.

(** [parser::parse_script]: replay the saved lines. *)
Fixpoint parse_script (ps : parser_state)
  (lines : list (line_type * list token)) : outcome parser_state :=
  match lines with
  | [] => Done ps
  | (lt, toks) :: lines' =>
      match parse_script_line ps lt toks with
      | Done ps1 => parse_script ps1 lines'
      | Failed d => Failed d
      | Aborted => Aborted
      end
  end.

(** The two passes: pre-parse the input, then execute what was saved. *)
Definition run_script (s : scope) (input : list (list token))
  : outcome parser_state :=
  match pre_parse_script (mk_parser true s []) input with
  | Done lines => parse_script (mk_parser false s []) lines
  | Failed d => Failed d
  | Aborted => Aborted
  end.

End Parser.

Arguments mk_parser {value} pre_parse_ scope_ var_pool.
Arguments pre_parse_ {value} p.
Arguments scope_ {value} p.
Arguments var_pool {value} p.
Arguments lookup {value} s n.
Arguments current {value} s n.

(** *** Variable lookup *)

Section Lookup.

(** Values are of the variable module: of a value the lookup uses the
    string of a path ([cast<path> (l).string ()]), the list of a
    [strings] value, and the values made from a list of strings and
    from a string. *)
Variable value : Type.
Variable path_string : value -> string.
Variable strings_of : value -> list string.
Variable of_strings : list string -> value.
Variable of_string : string -> value.

Variable test_var opts_var args_var cmd_var : string.

Local Abbreviation scope := (list (string * option value)).

(** The recalculation of [$*]: the test, the options and the
    arguments that are defined and not null. *)
Definition command_line (s : scope) : list string :=
  (match current s test_var with
   | Some v => [path_string v]
   | None => []
   end
   ++ match current s opts_var with
      | Some v => strings_of v
      | None => []
      end
   ++ match current s args_var with
      | Some v => strings_of v
      | None => []
      end)%list.

(** [parser::lookup_variable (qual, name, loc)]: [qual] says whether
    the qualification is not empty; the result is the lookup
    ([None] for an undefined variable, [Some None] for a null value)
    and the new state.  Assigning to a variable of the scope puts the
    new binding before the old ones. *)
Definition lookup_variable (ps : parser_state value) (qual : bool)
  (name : string)
  : outcome (option (option value) * parser_state value) :=
  if pre_parse_ ps then Aborted
  else if qual then Failed "qualified variable name"
  else if negb (String.eqb name "*") && negb (digits name)
  then Done (lookup (scope_ ps) name,
             mk_parser (pre_parse_ ps) (scope_ ps) (name :: var_pool ps))
  else
    match lookup (scope_ ps) cmd_var with
    | None => Aborted
    | Some v =>
        let recalc := match v with None => true | Some _ => false end in
        let v1 := if recalc then Some (of_strings (command_line (scope_ ps)))
                  else v in
        let s1 := if recalc then (cmd_var, v1) :: scope_ ps else scope_ ps in
        if String.eqb name "*"
        then Done (Some v1, mk_parser (pre_parse_ ps) s1 (var_pool ps))
        else
          let pool := name :: var_pool ps in
          match (if negb recalc then lookup s1 name else None) with
          | Some l => Done (Some l, mk_parser (pre_parse_ ps) s1 pool)
          | None =>
              match Script.stoul name with
              | None => Failed "invalid $* index"
              | Some (i, _) =>
                  let strs := match v1 with
                              | Some x => strings_of x
                              | None => []
                              end in
                  let nv := match strs !! N.to_nat i with
                            | Some x => Some (of_string x)
                            | None => None
                            end in
                  Done (Some nv,
                        mk_parser (pre_parse_ ps) ((name, nv) :: s1) pool)
              end
          end
    end.

End Lookup.

Arguments command_line {value} path_string strings_of test_var opts_var
  args_var s.
Arguments lookup_variable {value} path_string strings_of of_strings
  of_string test_var opts_var args_var cmd_var ps qual name.

(** The lines the pre-parser takes for variable lines, and the name
    such a line assigns to. *)
Definition variable_tokens (toks : list token) : bool :=
  match toks with
  | t :: pk :: _ =>
      match t_type t with tk_word => true | _ => false end
      && negb (t_quoted t) && is_assignment (t_type pk)
  | _ => false
  end.

Definition line_name (toks : list token) : string :=
  match toks with
  | t :: _ => t_value t
  | [] => ""
  end.

End TestScript.

(** * Properties *)

(** ** Strings *)

Module StringFacts.

Lemma append_cons c a b : String c a +:+ b = String c (a +:+ b).
Proof. reflexivity. Qed.

Lemma append_nil_r s : s +:+ EmptyString = s.
Proof.
  induction s as [|c s IH]; [reflexivity|]. rewrite append_cons, IH.
  reflexivity.
Qed.

Lemma append_assoc a b c : (a +:+ b) +:+ c = a +:+ (b +:+ c).
Proof.
  induction a as [|x a IH]; [reflexivity|]. rewrite !append_cons, IH.
  reflexivity.
Qed.

Lemma length_app_string a b :
  String.length (a +:+ b) = (String.length a + String.length b)%nat.
Proof.
  induction a as [|c a IH]; [reflexivity|].
  rewrite append_cons. simpl. rewrite IH. reflexivity.
Qed.

Lemma append_nil_l s : EmptyString +:+ s = s.
Proof. reflexivity. Qed.

Lemma substring_prefix a b :
  substring 0 (String.length a) (a +:+ b) = a.
Proof.
  induction a as [|x a IH].
  - simpl. destruct (EmptyString +:+ b); reflexivity.
  - rewrite append_cons. simpl. rewrite IH. reflexivity.
Qed.

Ltac norm_app :=
  repeat (rewrite append_assoc || rewrite append_cons
          || rewrite append_nil_l).

End StringFacts.

(** ** Recipes, derived paths and the target set *)

Module TargetFacts.

Import Target.

Lemma target_state_eqb_spec x y : reflect (x = y) (target_state_eqb x y).
Proof. destruct x, y; constructor; congruence. Qed.

Section Engine.

Variable action_type : Type.
Variable action_gt : action_type -> action_type -> bool.
Variable action_eq : action_type -> action_type -> bool.
Variable type_extension : target_type -> option (target_key -> option string).
Variable action0 : action_type.
Variable type_factory : target_type -> option (factory_type action_type).

Implicit Types (t : target action_type) (m : list (target action_type)).

Local Abbreviation insert := (@Target.insert action_type type_factory).

(** C5: [target::recipe (a, r)] goes through exactly when [a] is
    stronger than the action the target is matched for or the target
    has no recipe, and, for an action equal to the current one with a
    recipe already set, only when that recipe is [noop_recipe]; every
    other reassignment stops at an [assert]. *)
Theorem recipe_reassign_guard t (a : action_type) (r : recipe_type) :
  is_done (recipe action_gt action_eq t a r) = true <->
  (action_gt a (action t) = true \/ recipe_set (recipe_ t) = false)
  /\ (action_eq a (action t) = true -> recipe_set (recipe_ t) = true ->
      is_noop (recipe_ t) = true).
Proof.
  unfold recipe.
  destruct (action_gt a (action t)) eqn:Hgt;
    destruct (recipe_set (recipe_ t)) eqn:Hset;
    destruct (action_eq a (action t)) eqn:Heq;
    destruct (is_noop (recipe_ t)) eqn:Hnoop; simpl;
    split; try (intros; discriminate); try (intros _; tauto);
    intros [H1 H2]; try reflexivity;
    try (destruct H1; discriminate);
    try (specialize (H2 eq_refl eq_refl); discriminate).
Qed.

(** What a permitted call leaves: the new action and recipe, the state
    [unchanged] for a noop recipe and [unknown] otherwise, and the
    dependents count kept only when a noop recipe is overridden. *)
Lemma recipe_effect t a r t' :
  recipe action_gt action_eq t a r = Done t' ->
  action t' = a /\ recipe_ t' = r
  /\ raw_state t' = (if is_noop r then ts_unchanged else ts_unknown)
  /\ path_ t' = path_ t /\ ext t' = ext t.
Proof.
  unfold recipe.
  destruct (negb _); [discriminate|].
  destruct (_ && negb _); [discriminate|].
  intros [= <-]; simpl; auto.
Qed.

Lemma derive_extension_path t de :
  path_ (snd (derive_extension type_extension t de)) = path_ t.
Proof.
  unfold derive_extension.
  destruct (negb _); [reflexivity|].
  destruct (ext t) eqn:He; [reflexivity|].
  destruct (type_extension (type t)) as [f|]; simpl.
  - destruct (f (key t)); simpl; [reflexivity|].
    destruct de; reflexivity.
  - rewrite He. destruct de; reflexivity.
Qed.

Lemma derive_extension_decided t de e :
  ext t = Some e ->
  is_done (fst (derive_extension type_extension t de)) = true ->
  derive_extension type_extension t de = (Done e, t).
Proof.
  unfold derive_extension. intros He.
  destruct (negb _); [discriminate|].
  rewrite He. reflexivity.
Qed.

(** C6: [derive_path] assigns the derived path only to a target without
    a path; with a path assigned, a derivation of the same path returns
    it and changes nothing, a derivation of another path fails, and in
    every case the stored path stays what it was. *)
Theorem derive_path_once t (p : string) (de : option string) :
  (path_ t <> "" ->
   path_ (snd (derive_path type_extension t p de)) = path_ t)
  /\ (forall e t1,
        derive_extension type_extension t de = (Done e, t1) ->
        (path_ t = "" ->
         derive_path type_extension t p de
         = (Done (derived p e), set_path t1 (derived p e)))
        /\ (path_ t <> "" -> derived p e = path_ t ->
            derive_path type_extension t p de = (Done (path_ t), t1)
            /\ path_ t1 = path_ t
            /\ (ext t <> None -> t1 = t))
        /\ (path_ t <> "" -> derived p e <> path_ t ->
            exists d,
              derive_path type_extension t p de = (Failed d, t1)
              /\ path_ t1 = path_ t)).
Proof.
  split.
  - intros Hne. unfold derive_path.
    pose proof (derive_extension_path t de) as Hp.
    destruct (derive_extension type_extension t de) as [[e|d|] t1];
      simpl in *; try assumption.
    destruct (String.eqb_spec (path_ t1) "") as [E|E]; [congruence|].
    destruct (negb _); simpl; assumption.
  - intros e t1 Hd.
    pose proof (derive_extension_path t de) as Hp.
    rewrite Hd in Hp; simpl in Hp.
    unfold derive_path; rewrite Hd. fold (derived p e).
    split; [|split; [intros Hne Hsame; split; [|split]|]].
    + intros E. rewrite Hp, E. reflexivity.
    + destruct (String.eqb_spec (path_ t1) "") as [E|E]; [congruence|].
      rewrite Hsame, <- Hp, String.eqb_refl. reflexivity.
    + assumption.
    + intros Hx. destruct (ext t) as [x|] eqn:He; [|congruence].
      assert (Hdone : is_done (fst (derive_extension type_extension t de))
                      = true) by (rewrite Hd; reflexivity).
      pose proof (derive_extension_decided t de x He Hdone) as Hy.
      congruence.
    + intros Hne Hdiff.
      destruct (String.eqb_spec (path_ t1) "") as [E|E]; [congruence|].
      destruct (String.eqb_spec (derived p e) (path_ t1)) as [E'|E'];
        [congruence|].
      simpl. eexists; split; [reflexivity|assumption].
Qed.

(** *** The target set *)

Lemma ext_compatible_refl x : ext_compatible x x = true.
Proof. destruct x; simpl; [apply String.eqb_refl|reflexivity]. Qed.

Lemma target_key_eq_refl k : target_key_eq k k = true.
Proof.
  unfold target_key_eq.
  rewrite Nat.eqb_refl, !String.eqb_refl, ext_compatible_refl. reflexivity.
Qed.

Lemma ext_eqb_spec x y : reflect (x = y) (ext_eqb x y).
Proof.
  destruct x as [a|], y as [b|]; simpl; try (constructor; congruence).
  destruct (String.eqb_spec a b); constructor; congruence.
Qed.

(** A key matches a target whatever extension the target has when the
    key's own extension is the target's or the target has none. *)
Lemma target_key_eq_set_ext t k :
  target_key_eq (key t) k = true ->
  target_key_eq (key (set_ext t (k_ext k))) k = true.
Proof.
  unfold target_key_eq; simpl. intros H.
  apply andb_true_iff in H as [H _]. rewrite H. apply ext_compatible_refl.
Qed.

Lemma map_find_Some m k i :
  map_find m k = Some i ->
  exists t, m !! i = Some t /\ target_key_eq (key t) k = true
            /\ forall j t', (j < i)%nat -> m !! j = Some t' ->
                            target_key_eq (key t') k = false.
Proof.
  revert i. induction m as [|x m IH]; simpl; [discriminate|].
  intros i. destruct (target_key_eq (key x) k) eqn:E.
  - intros [= <-]. exists x. repeat split; auto. intros j t' Hj; lia.
  - destruct (map_find m k) as [i'|]; [|discriminate].
    intros [= <-]. destruct (IH i' eq_refl) as (t & Ht & Hk & Hlt).
    exists t. repeat split; auto.
    intros [|j] t' Hj Hl; simpl in Hl.
    + congruence.
    + apply (Hlt j); [lia|assumption].
Qed.

Lemma map_find_None m k :
  map_find m k = None ->
  forall j t', m !! j = Some t' -> target_key_eq (key t') k = false.
Proof.
  induction m as [|x m IH]; simpl; [intros _ j t'; discriminate|].
  destruct (target_key_eq (key x) k) eqn:E; [discriminate|].
  destruct (map_find m k); [discriminate|].
  intros _ [|j] t' Hl; simpl in Hl; [congruence|eauto].
Qed.

(** [map_find] is decided by the first target that matches. *)
Lemma map_find_first m k i t :
  m !! i = Some t -> target_key_eq (key t) k = true ->
  (forall j t', (j < i)%nat -> m !! j = Some t' ->
                target_key_eq (key t') k = false) ->
  map_find m k = Some i.
Proof.
  revert i. induction m as [|x m IH]; intros i; [discriminate|].
  destruct i as [|i]; simpl.
  - intros [= ->] -> _. reflexivity.
  - intros Hl Hk Hlt.
    rewrite (Hlt 0%nat x) by (simpl; auto; lia).
    rewrite (IH i Hl Hk); [reflexivity|].
    intros j t' Hj Hl'. apply (Hlt (S j)); [lia|assumption].
Qed.

Lemma find_index m k :
  snd (find m k) = map_find m k.
Proof.
  unfold find. destruct (map_find m k) as [i|]; [|reflexivity].
  destruct (m !! i); [|reflexivity].
  destruct (negb _); [|reflexivity]. destruct (k_ext k); reflexivity.
Qed.

Lemma find_found m k i t :
  map_find m k = Some i -> m !! i = Some t ->
  find m k = (<[i := upgraded t (k_ext k)]> m, Some i).
Proof.
  intros Hf Hl. unfold find, upgraded. rewrite Hf, Hl.
  destruct (k_ext k) as [x|];
    destruct (ext_eqb_spec (ext t) (Some x)) as [E|E] ||
    destruct (ext_eqb_spec (ext t) None) as [E|E]; simpl;
    rewrite ?list_insert_id by assumption; reflexivity.
Qed.

Lemma upgraded_matches t k :
  target_key_eq (key t) k = true ->
  target_key_eq (key (upgraded t (k_ext k))) k = true
  /\ ext_eqb (ext (upgraded t (k_ext k))) (k_ext k)
     = match k_ext k with Some _ => true | None => ext_eqb (ext t) None end.
Proof.
  intros Hk. unfold upgraded.
  destruct (k_ext k) as [x|] eqn:Ek; [|auto].
  destruct (ext_eqb_spec (ext t) (Some x)) as [E|E].
  - split; [assumption|]. rewrite E. simpl. apply String.eqb_refl.
  - split.
    + rewrite <- Ek. apply target_key_eq_set_ext. assumption.
    + simpl. apply String.eqb_refl.
Qed.

Lemma upgraded_idem t e : upgraded (upgraded t e) e = upgraded t e.
Proof.
  unfold upgraded. destruct e as [x|]; [|reflexivity].
  destruct (ext_eqb_spec (ext t) (Some x)) as [E|E].
  - rewrite E. simpl. rewrite String.eqb_refl. reflexivity.
  - simpl. rewrite String.eqb_refl. reflexivity.
Qed.

(** A second [find] with the same key returns the same target and
    changes nothing. *)
Lemma find_again m k i :
  map_find m k = Some i ->
  find (fst (find m k)) k = (fst (find m k), Some i).
Proof.
  intros Hf. destruct (map_find_Some m k i Hf) as (t & Hl & Hk & Hlt).
  rewrite (find_found m k i t Hf Hl). simpl.
  assert (Hi : (i < length m)%nat) by (eapply lookup_lt_Some; eauto).
  assert (Hl' : <[i := upgraded t (k_ext k)]> m !! i
                = Some (upgraded t (k_ext k)))
    by (apply list_lookup_insert_eq; assumption).
  assert (Hf' : map_find (<[i := upgraded t (k_ext k)]> m) k = Some i).
  { apply (map_find_first _ k i _ Hl').
    - apply upgraded_matches; assumption.
    - intros j t' Hj Hlj. rewrite list_lookup_insert_ne in Hlj by lia.
      eapply Hlt; eauto. }
  rewrite (find_found _ k i _ Hf' Hl'), upgraded_idem.
  rewrite list_insert_insert_eq. reflexivity.
Qed.

Lemma map_find_fresh m k t :
  map_find m k = None -> target_key_eq (key t) k = true ->
  map_find (m ++ [t]) k = Some (length m).
Proof.
  intros Hn Hk. apply (map_find_first _ k (length m) t).
  - rewrite lookup_app_r by lia. rewrite Nat.sub_diag. reflexivity.
  - assumption.
  - intros j t' Hj Hl. rewrite lookup_app_l in Hl by assumption.
    eapply map_find_None; eauto.
Qed.

Lemma find_not_found m k m' :
  find m k = (m', None) -> m' = m /\ map_find m k = None.
Proof.
  intros Hf. pose proof (find_index m k) as Hi. rewrite Hf in Hi; simpl in Hi.
  split; [|auto]. unfold find in Hf. rewrite <- Hi in Hf. congruence.
Qed.

(** [insert] on a key that is found, and on one that is not. *)
Lemma insert_found m tt d o n e i :
  map_find m (mk_key tt d o n e) = Some i ->
  insert m tt d o n e = Done (fst (find m (mk_key tt d o n e)), i, false).
Proof.
  intros Hf. unfold insert.
  pose proof (find_index m (mk_key tt d o n e)) as Hi.
  destruct (find m (mk_key tt d o n e)) as [m' [j|]]; simpl in *; congruence.
Qed.

Lemma insert_new m tt d o n e :
  map_find m (mk_key tt d o n e) = None ->
  insert m tt d o n e
  = match type_factory tt with
    | Some f =>
        match f d o n e with
        | Done pt => Done (m ++ [pt], length m, true)
        | Failed x => Failed x
        | Aborted => Aborted
        end
    | None => Aborted
    end.
Proof.
  intros Hn. unfold insert.
  pose proof (find_index m (mk_key tt d o n e)) as Hi.
  destruct (find m (mk_key tt d o n e)) as [m' [j|]] eqn:Hf; simpl in Hi;
    [congruence|].
  apply find_not_found in Hf as [-> _]. reflexivity.
Qed.

Lemma insert_not_inserted m tt d o n e m1 i :
  insert m tt d o n e = Done (m1, i, false) ->
  map_find m (mk_key tt d o n e) = Some i.
Proof.
  destruct (map_find m (mk_key tt d o n e)) as [j|] eqn:Hf.
  - rewrite (insert_found _ _ _ _ _ _ _ Hf). congruence.
  - rewrite (insert_new _ _ _ _ _ _ Hf).
    destruct (type_factory tt) as [f|]; [|discriminate].
    destruct (f d o n e); discriminate.
Qed.

(** [insert] returns exactly when the key is found or the factory of
    the type makes a target. *)
Lemma insert_returns m tt d o n e :
  (exists m1 i r, insert m tt d o n e = Done (m1, i, r))
  <-> ((exists i, map_find m (mk_key tt d o n e) = Some i)
       \/ exists f t, type_factory tt = Some f /\ f d o n e = Done t).
Proof.
  destruct (map_find m (mk_key tt d o n e)) as [j|] eqn:Hf.
  - rewrite (insert_found _ _ _ _ _ _ _ Hf). split; eauto.
  - rewrite (insert_new _ _ _ _ _ _ Hf). split.
    + intros (m1 & i & r & H). right.
      destruct (type_factory tt) as [f|]; [|discriminate].
      destruct (f d o n e) as [t| |] eqn:E; try discriminate. eauto.
    + intros [[i Hi]|(f & t & Hf' & Ht)]; [discriminate|].
      rewrite Hf', Ht. eauto.
Qed.

(** The target a key-keeping factory makes is found under the key it
    was made for, and [find] leaves it as it is. *)
Lemma made_matches tt f d o n e t :
  factories_keep_key type_factory ->
  type_factory tt = Some f -> f d o n e = Done t ->
  target_key_eq (key t) (mk_key tt d o n e) = true
  /\ upgraded t e = t.
Proof.
  intros Hkk Hf Ht.
  destruct (Hkk tt f d o n e t Hf Ht) as (H1 & H2 & H3 & H4 & H5).
  split.
  - unfold target_key_eq, key; simpl. rewrite H1, H2, H3, H4.
    rewrite Nat.eqb_refl, !String.eqb_refl. simpl.
    destruct e as [x|]; [|destruct (ext t); reflexivity].
    rewrite (H5 x eq_refl). simpl. apply String.eqb_refl.
  - unfold upgraded. destruct e as [x|]; [|reflexivity].
    rewrite (H5 x eq_refl). simpl. rewrite String.eqb_refl. reflexivity.
Qed.

Lemma insert_twice m tt d o n e m1 i r :
  factories_keep_key type_factory ->
  insert m tt d o n e = Done (m1, i, r) ->
  insert m1 tt d o n e = Done (m1, i, false).
Proof.
  intros Hkk. set (k := mk_key tt d o n e).
  destruct (map_find m k) as [j|] eqn:Hf.
  - rewrite (insert_found _ _ _ _ _ _ _ Hf). intros [= <- <- <-].
    pose proof (find_again m k j Hf) as Ha. fold k.
    rewrite insert_found with (i := j).
    + fold k. rewrite Ha. reflexivity.
    + fold k. pose proof (find_index (fst (find m k)) k) as Hi.
      rewrite Ha in Hi. simpl in Hi. congruence.
  - rewrite (insert_new _ _ _ _ _ _ Hf).
    destruct (type_factory tt) as [f|] eqn:Ef; [|discriminate].
    destruct (f d o n e) as [t| |] eqn:Et; try discriminate.
    intros [= <- <- <-].
    destruct (made_matches tt f d o n e t Hkk Ef Et) as [Hk Hu].
    assert (Hn : map_find (m ++ [t]) k = Some (length m))
      by (apply map_find_fresh; assumption).
    assert (Hl : (m ++ [t]) !! length m = Some t).
    { rewrite lookup_app_r by lia. rewrite Nat.sub_diag. reflexivity. }
    rewrite (insert_found _ _ _ _ _ _ _ Hn). fold k.
    rewrite (find_found _ k _ _ Hn Hl). simpl.
    change (k_ext k) with e. rewrite Hu.
    rewrite list_insert_id by assumption. reflexivity.
Qed.

Lemma ext_compatible_undecided (x : option string) (y : string) :
  ext_compatible x (Some y) = true -> x <> Some y -> x = None.
Proof.
  destruct x as [a|]; simpl; [|reflexivity].
  destruct (String.eqb_spec a y); [congruence|discriminate].
Qed.

Lemma find_changes_undecided m k m' i t t' :
  find m k = (m', Some i) -> m !! i = Some t -> m' !! i = Some t' ->
  t' = upgraded t (k_ext k)
  /\ (ext t' <> ext t -> ext t = None /\ ext t' = k_ext k).
Proof.
  intros Hf Hl Hl'.
  pose proof (find_index m k) as Hi. rewrite Hf in Hi; simpl in Hi.
  symmetry in Hi.
  rewrite (find_found m k i t Hi Hl) in Hf.
  injection Hf as <-.
  rewrite list_lookup_insert_eq in Hl' by (eapply lookup_lt_Some; eauto).
  injection Hl' as <-. split; [reflexivity|].
  destruct (map_find_Some m k i Hi) as (t0 & Hl0 & Hk & _).
  assert (t0 = t) by congruence. subst t0.
  unfold upgraded. destruct (k_ext k) as [x|] eqn:Ek; [|congruence].
  destruct (ext_eqb_spec (ext t) (Some x)) as [E|E]; [congruence|].
  intros _. split; [|reflexivity].
  apply (ext_compatible_undecided _ x); [|assumption].
  unfold target_key_eq in Hk. rewrite Ek in Hk.
  apply andb_true_iff in Hk as [_ Hk]. exact Hk.
Qed.

(** A key with an extension matches no target that the same key without
    the extension does not match. *)
Lemma target_key_eq_without t tt d o n x :
  target_key_eq (key t) (mk_key tt d o n None) = false ->
  target_key_eq (key t) (mk_key tt d o n (Some x)) = false.
Proof.
  unfold target_key_eq; simpl.
  destruct (Nat.eqb (type t) tt && String.eqb (dir t) d
            && String.eqb (out t) o && String.eqb (name t) n);
    simpl; [|reflexivity].
  destruct (ext t); discriminate.
Qed.

Lemma target_key_eq_undecided t tt d o n x :
  target_key_eq (key t) (mk_key tt d o n None) = true -> ext t = None ->
  target_key_eq (key t) (mk_key tt d o n (Some x)) = true.
Proof.
  unfold target_key_eq; simpl. intros H E. rewrite E in *. exact H.
Qed.

Lemma insert_upgrades m tt d o n m1 i r t x :
  factories_keep_key type_factory ->
  insert m tt d o n None = Done (m1, i, r) ->
  m1 !! i = Some t -> ext t = None ->
  insert m1 tt d o n (Some x)
  = Done (<[i := set_ext t (Some x)]> m1, i, false).
Proof.
  intros Hkk Hins Hl He.
  pose proof (insert_twice _ _ _ _ _ _ _ _ _ Hkk Hins) as H2.
  apply insert_not_inserted in H2.
  destruct (map_find_Some _ _ _ H2) as (t0 & Hl0 & Hk & Hlt).
  assert (t0 = t) by congruence. subst t0.
  assert (Hn : map_find m1 (mk_key tt d o n (Some x)) = Some i).
  { apply (map_find_first _ _ i t Hl).
    - apply target_key_eq_undecided; assumption.
    - intros j t' Hj Hlj. apply target_key_eq_without. eapply Hlt; eauto. }
  rewrite (insert_found _ _ _ _ _ _ _ Hn).
  rewrite (find_found _ _ _ _ Hn Hl). simpl.
  unfold upgraded. rewrite He. reflexivity.
Qed.

Lemma insert_other_extension m tt d o n e i t x f t' :
  m !! i = Some t -> ext t = Some x -> e <> None -> e <> Some x ->
  type_factory tt = Some f -> f d o n e = Done t' ->
  exists m' j r, insert m tt d o n e = Done (m', j, r)
                 /\ j <> i /\ m' !! i = Some t.
Proof.
  intros Hl Hx He1 He2 Hf Ht. set (k := mk_key tt d o n e).
  assert (Hno : target_key_eq (key t) k = false).
  { unfold target_key_eq, k; simpl. rewrite Hx.
    destruct e as [y|]; [|congruence]. simpl.
    destruct (String.eqb_spec x y); [congruence|].
    apply andb_false_r. }
  destruct (map_find m k) as [j|] eqn:Hi.
  - destruct (map_find_Some m k j Hi) as (t0 & Hl0 & Hk & _).
    assert (Hji : j <> i) by (intros ->; congruence).
    rewrite (insert_found _ _ _ _ _ _ _ Hi). fold k.
    rewrite (find_found m k j t0 Hi Hl0). simpl.
    eexists _, j, false. split; [reflexivity|]. split; [assumption|].
    rewrite list_lookup_insert_ne by assumption. exact Hl.
  - rewrite (insert_new _ _ _ _ _ _ Hi), Hf, Ht.
    assert (Hlt : (i < length m)%nat) by (eapply lookup_lt_Some; eauto).
    eexists _, (length m), true. split; [reflexivity|].
    split; [lia|]. rewrite lookup_app_l by assumption. exact Hl.
Qed.

(** C1 (amended): with factories that make the target they are asked
    for, an [insert] that returns is followed by an [insert] of the same
    key that returns the same target, reports that nothing was inserted
    and changes nothing; [insert] returns exactly when the key is found
    or the factory of the type makes a target (it fails only with the
    factory); [find] changes the extension of the target it returns only
    when that extension was unspecified, and a second [insert] that
    supplies an extension does upgrade a target whose extension is
    unspecified; a key with another decided extension than a stored
    target's is no error: it does not match that target, which is left
    as it is, and [insert] returns another target. *)
Theorem insert_same_target m (tt : target_type) (d o n : string)
  (e : option string) :
  factories_keep_key type_factory ->
  (forall m1 i r,
      insert m tt d o n e = Done (m1, i, r) ->
      insert m1 tt d o n e = Done (m1, i, false))
  /\ ((exists m1 i r, insert m tt d o n e = Done (m1, i, r))
      <-> ((exists i, map_find m (mk_key tt d o n e) = Some i)
           \/ exists f t, type_factory tt = Some f /\ f d o n e = Done t))
  /\ (forall k m' i t t',
        find m k = (m', Some i) -> m !! i = Some t -> m' !! i = Some t' ->
        t' = upgraded t (k_ext k)
        /\ (ext t' <> ext t -> ext t = None /\ ext t' = k_ext k))
  /\ (forall m1 i r t x,
        insert m tt d o n None = Done (m1, i, r) ->
        m1 !! i = Some t -> ext t = None ->
        insert m1 tt d o n (Some x)
        = Done (<[i := set_ext t (Some x)]> m1, i, false))
  /\ (forall i t x f t',
        m !! i = Some t -> ext t = Some x -> e <> None -> e <> Some x ->
        type_factory tt = Some f -> f d o n e = Done t' ->
        exists m' j r, insert m tt d o n e = Done (m', j, r)
                       /\ j <> i /\ m' !! i = Some t).
Proof.
  intros Hkk. split; [|split; [|split; [|split]]].
  - intros m1 i r. apply insert_twice. assumption.
  - apply insert_returns.
  - intros k m' i t t'. apply find_changes_undecided.
  - intros m1 i r t x. apply insert_upgrades. assumption.
  - intros i t x f t'. apply insert_other_extension.
Qed.

End Engine.

(** The guard of [recipe] on integer actions: a weaker action cannot
    replace a recipe, a stronger one can.  With actions made of an
    inner and an outer operation, equal when the inner ones are and
    stronger when the action to replace has an outer one that differs,
    an equal action replaces a noop recipe and no other. *)
Lemma recipe_reassign_guard_witness :
  is_done (recipe Z.gtb Z.eqb
             (mk_target 0%nat "out/" "" "foo" None 2%Z default_recipe
                ts_unknown 1%nat "")
             1%Z noop_recipe) = false
  /\ is_done (recipe Z.gtb Z.eqb
                (mk_target 0%nat "out/" "" "foo" None 2%Z default_recipe
                   ts_unknown 1%nat "")
                3%Z noop_recipe) = true
  /\ is_done (recipe
                (fun x y : nat * nat =>
                   negb (Nat.eqb (fst x) (fst y))
                   || (negb (Nat.eqb (snd x) (snd y))
                       && negb (Nat.eqb (snd y) 0)))
                (fun x y : nat * nat => Nat.eqb (fst x) (fst y))
                (mk_target 0%nat "out/" "" "foo" None (1%nat, 2%nat)
                   noop_recipe ts_unchanged 1%nat "")
                (1%nat, 0%nat) default_recipe) = true
  /\ is_done (recipe
                (fun x y : nat * nat =>
                   negb (Nat.eqb (fst x) (fst y))
                   || (negb (Nat.eqb (snd x) (snd y))
                       && negb (Nat.eqb (snd y) 0)))
                (fun x y : nat * nat => Nat.eqb (fst x) (fst y))
                (mk_target 0%nat "out/" "" "foo" None (1%nat, 2%nat)
                   group_recipe ts_unknown 1%nat "")
                (1%nat, 0%nat) default_recipe) = false.
Proof.
  split; [|split; [|split]].
  - destruct (is_done _) eqn:E; [|reflexivity].
    apply (recipe_reassign_guard Z Z.gtb Z.eqb) in E.
    destruct E as [[E|E] _]; discriminate.
  - apply (recipe_reassign_guard Z Z.gtb Z.eqb). simpl.
    split; [left; reflexivity|discriminate].
  - apply (recipe_reassign_guard (nat * nat)). simpl.
    split; [left; reflexivity|reflexivity].
  - destruct (is_done _) eqn:E; [|reflexivity].
    apply (recipe_reassign_guard (nat * nat)) in E.
    destruct E as [_ E]. specialize (E eq_refl eq_refl). discriminate.
Defined.

(** [derive_path] on a target of a type without an extension function:
    the first derivation assigns [out/foo.o], a second one with another
    default extension fails and keeps the path. *)
Lemma derive_path_once_witness :
  derive_path (fun _ => None)
    (mk_target 0%nat "out/" "" "foo" (Some "o") 0%Z empty_recipe
       ts_unknown 0%nat "")
    "out/foo" None
  = (Done "out/foo.o",
     mk_target 0%nat "out/" "" "foo" (Some "o") 0%Z empty_recipe
       ts_unknown 0%nat "out/foo.o")
  /\ path_ (snd (derive_path (fun _ => None)
                   (mk_target 0%nat "out/" "" "foo" (Some "o") 0%Z
                      empty_recipe ts_unknown 0%nat "out/foo.o")
                   "out/bar" None))
     = "out/foo.o".
Proof.
  split.
  - exact (proj1 (proj2 (derive_path_once Z (fun _ => None)
                           (mk_target 0%nat "out/" "" "foo" (Some "o") 0%Z
                              empty_recipe ts_unknown 0%nat "")
                           "out/foo" None)
                    "o"
                    (mk_target 0%nat "out/" "" "foo" (Some "o") 0%Z
                       empty_recipe ts_unknown 0%nat "")
                    eq_refl)
             eq_refl).
  - apply (proj1 (derive_path_once Z (fun _ => None)
                    (mk_target 0%nat "out/" "" "foo" (Some "o") 0%Z
                       empty_recipe ts_unknown 0%nat "out/foo.o")
                    "out/bar" None)).
    discriminate.
Defined.

(** The plain constructor as a factory makes the target it is asked
    for. *)
Lemma new_target_keeps_key (action_type : Type) (action0 : action_type) :
  factories_keep_key
    (fun tt => Some (fun d o n e => Done (new_target action0 tt d o n e))).
Proof.
  intros tt f d o n e t Hf Ht. injection Hf as <-. injection Ht as <-.
  repeat split. intros x E. exact E.
Qed.

(** The factories of target.cxx make the target they are asked for,
    provided the factories of the other types do. *)
Lemma static_factory_keeps_key (action_type : Type) (action0 : action_type)
  other :
  factories_keep_key other ->
  factories_keep_key (static_factory action0 other).
Proof.
  intros Ho tt f d o n e t Hf Ht.
  destruct tt as [|[|[|[|[|[|[|[|[|[|[|tt]]]]]]]]]]]; simpl in Hf;
    try discriminate;
    try (apply (Ho _ f d o n e t Hf Ht));
    injection Hf as <-.
  - injection Ht as <-. repeat split. intros x ->. reflexivity.
  - injection Ht as <-. repeat split. intros x ->. reflexivity.
  - injection Ht as <-. repeat split. intros x ->. reflexivity.
  - destruct e as [x|]; [|discriminate]. injection Ht as <-.
    repeat split. intros y E. exact E.
  - injection Ht as <-. repeat split. intros x ->. reflexivity.
Qed.

(** [file{foo}] inserted twice is one target: the factory of [file]
    stores it with the empty extension and the second call finds it.
    A type of another module whose factory is the plain constructor
    (type 11, say) keeps the unspecified extension, and a second call
    with [cxx] upgrades the one target. *)
Lemma insert_same_target_witness :
  (insert (static_factory 0%Z (fun _ => None)) []
     file_type "src/" "" "foo" None
   = Done ([new_target 0%Z file_type "src/" "" "foo" (Some "")], 0%nat, true)
   /\ insert (static_factory 0%Z (fun _ => None))
        [new_target 0%Z file_type "src/" "" "foo" (Some "")]
        file_type "src/" "" "foo" None
      = Done ([new_target 0%Z file_type "src/" "" "foo" (Some "")],
              0%nat, false))
  /\ (insert
        (static_factory 0%Z
           (fun tt => Some (fun d o n e => Done (new_target 0%Z tt d o n e))))
        [] 11%nat "src/" "" "foo" None
      = Done ([new_target 0%Z 11%nat "src/" "" "foo" None], 0%nat, true)
      /\ insert
           (static_factory 0%Z
              (fun tt => Some (fun d o n e => Done (new_target 0%Z tt d o n e))))
           [new_target 0%Z 11%nat "src/" "" "foo" None]
           11%nat "src/" "" "foo" (Some "cxx")
         = Done ([new_target 0%Z 11%nat "src/" "" "foo" (Some "cxx")],
                 0%nat, false)).
Proof.
  split; (split; [reflexivity|]).
  - apply (proj1 (insert_same_target Z (static_factory 0%Z (fun _ => None))
                    [] file_type "src/" "" "foo" None
                    (static_factory_keeps_key Z 0%Z (fun _ => None)
                       (fun tt f d o n e t H => match H with end)))
             _ 0%nat true).
    reflexivity.
  - apply (proj1 (proj2 (proj2 (proj2
             (insert_same_target Z
                (static_factory 0%Z
                   (fun tt =>
                      Some (fun d o n e => Done (new_target 0%Z tt d o n e))))
                [] 11%nat "src/" "" "foo" None
                (static_factory_keeps_key Z 0%Z _
                   (new_target_keeps_key Z 0%Z))))))
             [new_target 0%Z 11%nat "src/" "" "foo" None] 0%nat true
             (new_target 0%Z 11%nat "src/" "" "foo" None) "cxx");
    reflexivity.
Defined.

(** [man{foo}] without an extension cannot be inserted: the factory of
    [man] fails; with the section given it is inserted. *)
Lemma insert_man_needs_section :
  insert (static_factory 0%Z (fun _ => None)) []
    man_type "doc/" "" "foo" None
  = Failed "man target must include extension (man section)"
  /\ insert (static_factory 0%Z (fun _ => None)) []
       man_type "doc/" "" "foo" (Some "1")
     = Done ([new_target 0%Z man_type "doc/" "" "foo" (Some "1")],
             0%nat, true).
Proof. split; reflexivity. Qed.

(** C1 as stated fails: after [file{foo.cxx}] is inserted, inserting the
    same type, directory and name with the extension [hxx] is not an
    error; a second target is created. *)
Lemma insert_other_extension_no_error :
  insert (static_factory 0%Z (fun _ => None))
    [new_target 0%Z file_type "src/" "" "foo" (Some "cxx")]
    file_type "src/" "" "foo" (Some "hxx")
  = Done ([new_target 0%Z file_type "src/" "" "foo" (Some "cxx");
           new_target 0%Z file_type "src/" "" "foo" (Some "hxx")],
          1%nat, true)
  /\ is_failed (insert (static_factory 0%Z (fun _ => None))
                  [new_target 0%Z file_type "src/" "" "foo" (Some "cxx")]
                  file_type "src/" "" "foo" (Some "hxx")) = false.
Proof. split; reflexivity. Qed.

(** *** Keys printed *)

Section Print.

Variable action_type : Type.
Variable type_name : target_type -> string.
Variable type_extension : target_type -> option (target_key -> option string).
Variable diag_relative : string -> string.

Local Abbreviation derive_extension :=
  (@derive_extension action_type type_extension).
Local Abbreviation target_print_0_ext_verb :=
  (target_print_0_ext_verb type_name type_extension diag_relative).
Local Abbreviation target_print_1_ext_verb :=
  (target_print_1_ext_verb type_name type_extension diag_relative).
Local Abbreviation dir_part := (dir_part diag_relative).
Local Abbreviation out_part := (out_part diag_relative).

Lemma derive_extension_Done (t : target action_type) de e t' :
  derive_extension t de = (Done e, t') ->
  ext t' = Some e /\ key t' = mk_key (type t) (dir t) (out t) (name t) (Some e).
Proof.
  unfold Target.derive_extension.
  destruct (negb _); [discriminate|].
  destruct (ext t) as [x|] eqn:He.
  - intros [= <- <-]. unfold key. rewrite He. auto.
  - destruct (type_extension (type t)) as [f|]; simpl.
    + destruct (f (key t)) as [x|]; simpl.
      * intros [= <- <-]. auto.
      * destruct de as [d|]; [|discriminate]. intros [= <- <-]. auto.
    + rewrite He. destruct de as [d|]; [|discriminate]. intros [= <- <-].
      auto.
Qed.

(** X30: a derived extension is printed as derived: for a target with
    a name, of a type that uses extensions, whose extension
    [derive_extension] has returned, the printer that remaps 0 to 1
    shows the extension at every verbosity unless it is empty and the
    verbosity is below 2, the printer that remaps 1 to 0 shows it from
    verbosity 2 on only, and neither trips the assertion of
    [to_stream] nor prints the question mark of an undecided
    extension. *)
Theorem derived_extension_printed (t : target action_type) de e t' verb :
  type_extension (type t) <> None -> name t <> EmptyString ->
  derive_extension t de = (Done e, t') ->
  target_print_1_ext_verb verb (key t')
  = Done (dir_part verb (key t') +:+ type_name (type t)
          +:+ String "{"
                (name t
                 +:+ (if String.eqb e "" && Nat.ltb verb 2 then EmptyString
                      else String "." e))
          +:+ String "}" (out_part verb (key t')))
  /\ target_print_0_ext_verb verb (key t')
     = Done (dir_part verb (key t') +:+ type_name (type t)
             +:+ String "{"
                   (name t
                    +:+ (if Nat.ltb verb 2 then EmptyString
                         else String "." e))
             +:+ String "}" (out_part verb (key t'))).
Proof.
  intros Hte Hn H. destruct (derive_extension_Done _ _ _ _ H) as [_ Hk].
  rewrite Hk.
  unfold Target.target_print_1_ext_verb, Target.target_print_0_ext_verb,
    to_stream. simpl.
  destruct (String.eqb_spec (name t) "") as [|_]; [contradiction|]. simpl.
  destruct (type_extension (type t)); [|congruence].
  destruct verb as [|[|verb]]; simpl;
    destruct (String.eqb e ""); split; reflexivity.
Qed.

End Print.

Lemma derived_extension_printed_witness :
  target_print_1_ext_verb (fun _ => "file")
    (fun _ => Some (fun _ => None)) (fun d => d) 0
    (mk_key 3%nat "out/" "" "foo" (Some "txt"))
  = Done "out/file{foo.txt}"
  /\ target_print_0_ext_verb (fun _ => "file")
       (fun _ => Some (fun _ => None)) (fun d => d) 0
       (mk_key 3%nat "out/" "" "foo" (Some "txt"))
     = Done "out/file{foo}".
Proof.
  apply (derived_extension_printed Z (fun _ => "file")
           (fun _ => Some (fun _ => None)) (fun d => d)
           (mk_target 3%nat "out/" "" "foo" None 0%Z empty_recipe
              ts_unknown 0%nat "")
           (Some "txt") "txt"
           (mk_target 3%nat "out/" "" "foo" (Some "txt") 0%Z empty_recipe
              ts_unknown 0%nat "")
           0%nat);
    first [discriminate | reflexivity].
Defined.

(** *** Factories *)

Section Factories.

Variable action_type : Type.
Variable action0 : action_type.
Variable type_extension : target_type -> option (target_key -> option string).

Local Abbreviation derive_extension := (@derive_extension action_type type_extension).
Local Abbreviation derive_path := (@derive_path action_type type_extension).

(** X24: the factory of buildfiles and the extension function of their
    type agree: deriving the extension of a buildfile target that was
    made without one gives the very target the factory makes, with no
    extension for the name [buildfile] and [build] for any other; the
    path derived for [buildfile] is the path given, for another name
    it ends in [.build]. *)
Theorem buildfile_extension_agrees T d o n de p :
  type_extension T = Some buildfile_target_extension ->
  derive_extension (new_target action0 T d o n None) de
  = (Done (if String.eqb n "buildfile" then "" else "build"),
     buildfile_factory action0 T d o n None)
  /\ fst (derive_path (buildfile_factory action0 T d o n None) p de)
     = Done (if String.eqb n "buildfile" then p else p +:+ "." +:+ "build").
Proof.
  intros HT. split.
  - unfold Target.derive_extension, buildfile_factory, new_target. simpl.
    rewrite HT. destruct de; simpl; reflexivity.
  - unfold Target.derive_path, Target.derive_extension, buildfile_factory,
      new_target. simpl. rewrite HT.
    destruct de; simpl; destruct (String.eqb n "buildfile"); reflexivity.
Qed.

(** X25: [file_factory] fills in the fixed extension only where none
    was given and the type is the factory's own: an extension given is
    kept, a dynamically derived type stays undecided, and for the
    empty fixed extension of [file] the path derived is the path given
    ([file{foo}] is [file{foo.}]), whatever the extension function and
    the default extension are. *)
Theorem file_factory_extension T x own d o n e de p :
  (de = None \/ type_extension T <> None) ->
  ext (file_factory action0 T (Some x) own d o n e)
  = match e with
    | Some _ => e
    | None => if own then Some x else None
    end
  /\ derive_path (file_factory action0 T (Some "") true d o n None) p de
     = (Done p,
        set_path (file_factory action0 T (Some "") true d o n None) p).
Proof.
  intros Hde. split.
  - unfold file_factory, new_target. simpl. destruct e, own; reflexivity.
  - unfold Target.derive_path, Target.derive_extension, file_factory, new_target.
    simpl. destruct Hde as [->|Hte]; simpl; [reflexivity|].
    destruct (type_extension T); [|congruence].
    destruct de; reflexivity.
Qed.

End Factories.

Lemma buildfile_extension_agrees_witness :
  derive_extension (fun _ => Some buildfile_target_extension)
    (new_target 0%Z 7%nat "out/" "" "root" None) None
  = (Done "build", buildfile_factory 0%Z 7%nat "out/" "" "root" None)
  /\ fst (derive_path (fun _ => Some buildfile_target_extension)
            (buildfile_factory 0%Z 7%nat "out/" "" "root" None)
            "out/root" None)
     = Done "out/root.build".
Proof.
  apply (buildfile_extension_agrees Z 0%Z
           (fun _ => Some buildfile_target_extension) 7%nat "out/" "" "root"
           None "out/root").
  reflexivity.
Defined.

Lemma file_factory_extension_witness :
  ext (file_factory 0%Z 3%nat (Some "1") false "out/" "" "foo" None) = None
  /\ derive_path (fun _ => None)
       (file_factory 0%Z 3%nat (Some "") true "out/" "" "foo" None)
       "out/foo" None
     = (Done "out/foo",
        set_path (file_factory 0%Z 3%nat (Some "") true "out/" "" "foo" None)
          "out/foo").
Proof.
  apply (file_factory_extension Z 0%Z (fun _ => None) 3%nat "1" false
           "out/" "" "foo" None None "out/foo").
  left. reflexivity.
Defined.

End TargetFacts.

(** ** The compile rule *)

Module CompileFacts.

Import Target Compile.

Section Rule.

Variable timestamp_unknown : timestamp.
Variable timestamp_nonexistent : timestamp.
Variable file_mtime : string -> timestamp.

Lemma set_mtime_set_mtime t a b : set_mtime (set_mtime t a) b = set_mtime t b.
Proof. reflexivity. Qed.

Lemma set_mtime_mtime t b :
  set_mtime (snd (mtime timestamp_unknown file_mtime t)) b = set_mtime t b.
Proof. unfold mtime. destruct (Z.eqb _ _); reflexivity. Qed.

(** One [expect]: the line is in place afterwards, and the database is
    in write mode when it was already or when the line did not match. *)
Lemma expect_step dd (l : string) :
  open_db dd ->
  let dd' := snd (expect dd l) in
  open_db dd'
  /\ dd_pos dd' = S (dd_pos dd)
  /\ dd_mtime dd' = dd_mtime dd
  /\ take (dd_pos dd') (dd_lines dd') = take (dd_pos dd) (dd_lines dd) ++ [Some l]
  /\ writing dd'
     = (writing dd || negb (line_matches (dd_lines dd) (dd_pos dd) l))
  /\ (writing dd' = false -> dd_lines dd' = dd_lines dd).
Proof.
  intros [Hst Hpos].
  assert (Hw : let w := write dd l in
               open_db w /\ dd_pos w = S (dd_pos dd)
               /\ dd_mtime w = dd_mtime dd
               /\ take (dd_pos w) (dd_lines w)
                  = take (dd_pos dd) (dd_lines dd) ++ [Some l]
               /\ writing w = true).
  { simpl. unfold open_db, write, writing; simpl.
    assert (Hlen : length (take (dd_pos dd) (dd_lines dd) ++ [Some l])
                   = S (dd_pos dd))
      by (rewrite length_app, length_take; simpl; lia).
    repeat split; try congruence; try lia.
    apply take_ge. lia. }
  cbv zeta in Hw. destruct Hw as (Hw1 & Hw2 & Hw3 & Hw4 & Hw5).
  unfold expect, line_matches.
  destruct (more dd) eqn:Hmore.
  - unfold more in Hmore. apply andb_true_iff in Hmore as [Hr Hlt].
    assert (Hnw : writing dd = false)
      by (unfold reading, writing in *; destruct (dd_state dd); congruence).
    apply Nat.ltb_lt in Hlt.
    destruct (dd_lines dd !! dd_pos dd) as [[s|]|] eqn:Hl; simpl.
    + destruct (String.eqb_spec s l) as [->|E]; simpl.
      * unfold open_db, advance, writing; simpl.
        repeat split; try assumption; try lia.
        -- apply take_S_r. assumption.
        -- fold (writing dd). rewrite Hnw. reflexivity.
      * rewrite Hw5, Hnw. repeat split; try tauto; try congruence.
        apply Hw1. apply Hw1.
    + rewrite Hw5, Hnw. repeat split; try tauto; try congruence.
      apply Hw1. apply Hw1.
    + rewrite Hw5, Hnw. repeat split; try tauto; try congruence.
      apply Hw1. apply Hw1.
  - simpl. rewrite Hw5.
    assert (Hor : (writing dd
                   || negb match dd_lines dd !! dd_pos dd with
                           | Some (Some s) => String.eqb s l
                           | _ => false
                           end) = true).
    { unfold more in Hmore. apply andb_false_iff in Hmore as [Hr|Hge].
      - unfold reading, writing in *.
        destruct (dd_state dd); simpl; congruence.
      - apply Nat.ltb_ge in Hge.
        rewrite (lookup_ge_None_2 _ _ Hge). apply orb_true_r. }
    rewrite Hor. repeat split; try tauto; try congruence.
    apply Hw1. apply Hw1.
Qed.

(** The four [expect] calls leave the database in write mode exactly
    when one of the four lines differs from what was stored, and in
    both cases its first four lines are the fingerprint. *)
Lemma fingerprint_expected stored mt (l0 l1 l2 l3 : string) :
  let dd :=
    snd (expect (snd (expect (snd (expect (snd (expect
      (depdb_open stored mt) l0)) l1)) l2)) l3) in
  take 4 (dd_lines dd) = [Some l0; Some l1; Some l2; Some l3]
  /\ dd_pos dd = 4%nat
  /\ dd_mtime dd = mt
  /\ writing dd
     = negb (line_matches stored 0 l0 && line_matches stored 1 l1
             && line_matches stored 2 l2 && line_matches stored 3 l3).
Proof.
  set (d0 := depdb_open stored mt).
  assert (H0 : open_db d0) by (split; simpl; [discriminate|lia]).
  destruct (expect_step d0 l0 H0) as (H1 & P1 & M1 & T1 & W1 & L1).
  change (dd_lines d0) with stored in W1, L1.
  change (dd_pos d0) with 0%nat in P1, W1, T1.
  change (writing d0) with false in W1.
  change (dd_mtime d0) with mt in M1.
  set (d1 := snd (expect d0 l0)) in *.
  destruct (expect_step d1 l1 H1) as (H2 & P2 & M2 & T2 & W2 & L2).
  set (d2 := snd (expect d1 l1)) in *.
  destruct (expect_step d2 l2 H2) as (H3 & P3 & M3 & T3 & W3 & L3).
  set (d3 := snd (expect d2 l2)) in *.
  destruct (expect_step d3 l3 H3) as (H4 & P4 & M4 & T4 & W4 & L4).
  set (d4 := snd (expect d3 l3)) in *.
  cbv zeta.
  assert (P : dd_pos d4 = 4%nat) by (rewrite P4, P3, P2, P1; reflexivity).
  split; [|split; [assumption|split; [rewrite M4, M3, M2, M1; reflexivity|]]].
  - rewrite <- P, T4, T3, T2, T1. reflexivity.
  - rewrite W4, W3, W2, W1, P3, P2, P1. simpl.
    destruct (line_matches stored 0 l0) eqn:E0; simpl; [|reflexivity].
    simpl in W1. rewrite (L1 W1).
    destruct (line_matches stored 1 l1) eqn:E1; simpl; [|reflexivity].
    rewrite (L1 W1), P1, E1, W1 in W2. simpl in W2.
    rewrite (L2 W2), (L1 W1).
    destruct (line_matches stored 2 l2) eqn:E2; simpl; [|reflexivity].
    rewrite (L2 W2), (L1 W1), P2, P1, E2, W2 in W3. simpl in W3.
    rewrite (L3 W3), (L2 W2), (L1 W1). reflexivity.
Qed.


(** *** Header injection *)

Variable execute_direct : action -> path_target -> target_state * path_target.
Variable match_rule : action -> path_target -> path_target.
Variable dir_path : Type.
Variable dir_lt : dir_path -> dir_path -> bool.
Variable sub : dir_path -> dir_path -> bool.
Variable absolute : string -> bool.
Variable normalize : string -> string.
Variable realize : string -> string.
Variable directory : string -> dir_path.
Variable combine : dir_path -> string -> string.
Variable build_prefix_map : list (dir_path * dir_path).
Variable search : string -> path_target.

Local Abbreviation update := (update timestamp_unknown file_mtime execute_direct).
Local Abbreviation update_changed := (update_changed execute_direct).
Local Abbreviation after_execute := (after_execute execute_direct).
Local Abbreviation not_older_than := (not_older_than timestamp_unknown file_mtime).
Local Abbreviation map_header :=
  (map_header dir_lt sub absolute normalize realize directory combine
     build_prefix_map).
Local Abbreviation add :=
  (add timestamp_unknown file_mtime execute_direct match_rule dir_lt sub
     absolute normalize realize directory combine build_prefix_map search).
Local Abbreviation header_target := (header_target match_rule search).
Local Abbreviation cache_loop :=
  (cache_loop timestamp_unknown file_mtime execute_direct match_rule dir_lt
     sub absolute normalize realize directory combine build_prefix_map
     search).
Local Abbreviation cached_headers :=
  (cached_headers timestamp_unknown file_mtime execute_direct match_rule
     dir_lt sub absolute normalize realize directory combine
     build_prefix_map search).

(** [find_prefix] only answers with an entry of the map of which the
    directory is a sub-path, and finds nothing when there is none. *)
Lemma find_prefix_sound (pm : list (dir_path * dir_path)) d k v :
  find_prefix dir_lt sub pm d = Some (k, v) ->
  In (k, v) pm /\ sub d k = true.
Proof.
  unfold find_prefix. destruct pm as [|e pm]; [discriminate|].
  destruct (upper_bound dir_lt (e :: pm) d) as [|j]; [discriminate|].
  destruct ((e :: pm) !! j) as [[k' v']|] eqn:Hl; [|discriminate].
  destruct (sub d k') eqn:Hs; simpl; [|discriminate].
  intros [= <- <-]. split; [|assumption].
  change (In (k', v') (e :: pm)). apply list_elem_of_In.
  eapply list_elem_of_lookup_2; eauto.
Qed.

Lemma find_prefix_unmapped (pm : list (dir_path * dir_path)) d :
  (forall k v, In (k, v) pm -> sub d k = false) ->
  find_prefix dir_lt sub pm d = None.
Proof.
  intros Hno. destruct (find_prefix dir_lt sub pm d) as [[k v]|] eqn:E;
    [|reflexivity].
  apply find_prefix_sound in E as [Hin Hs].
  rewrite (Hno k v Hin) in Hs. discriminate.
Qed.

(** When the search does answer, the entry is the most qualified one
    of which the directory is a sub-path, provided the order of the map
    is transitive and puts every directory after its ancestors. *)
Lemma find_prefix_most_qualified (pm : list (dir_path * dir_path)) d e :
  (forall x y z, dir_lt x y = true -> dir_lt y z = true -> dir_lt x z = true) ->
  (forall k, sub d k = true -> dir_lt d k = false) ->
  sorted_keys dir_lt pm ->
  find_prefix dir_lt sub pm d = Some e ->
  most_qualified sub pm d = Some e.
Proof.
  intros Htrans Hle.
  assert (Habove : forall pm', Forall (fun e' => dir_lt d (fst e') = true) pm' ->
                               most_qualified sub pm' d = None).
  { induction pm' as [|[k v] pm' IH]; [reflexivity|].
    intros H. apply Forall_cons in H as [Hk H]. simpl in *.
    rewrite (IH H).
    destruct (sub d k) eqn:Hs; [|reflexivity].
    rewrite (Hle k Hs) in Hk. discriminate. }
  assert (Hmq : forall k v pm',
             most_qualified sub ((k, v) :: pm') d
             = match most_qualified sub pm' d with
               | Some e => Some e
               | None => if sub d k then Some (k, v) else None
               end) by reflexivity.
  revert e. induction pm as [|[k v] pm IH]; intros e Hsorted; [discriminate|].
  destruct Hsorted as [Hk Hsorted].
  unfold find_prefix. simpl upper_bound.
  destruct (dir_lt d k) eqn:Hdk; [discriminate|].
  rewrite Hmq.
  destruct pm as [|[k' v'] pm'].
  - simpl. destruct (sub d k); simpl; [auto|discriminate].
  - simpl upper_bound. destruct (dir_lt d k') eqn:Hdk'.
    + rewrite (Habove ((k', v') :: pm')).
      * simpl. destruct (sub d k); simpl; [auto|discriminate].
      * apply Forall_cons. split; [assumption|].
        destruct Hsorted as [Hk' _].
        eapply Forall_impl; [exact Hk'|].
        intros [k2 v2] H2. simpl in *. eapply Htrans; eauto.
    + intros H.
      assert (Hf : find_prefix dir_lt sub ((k', v') :: pm') d = Some e).
      { unfold find_prefix. simpl upper_bound. rewrite Hdk'. exact H. }
      rewrite (IH e Hsorted Hf). reflexivity.
Qed.

(** [update] answers true when the execution changed the target, or
    when a timestamp is given and the target is newer (or as old and
    not in the state changed). *)
Lemma update_answer a pt ts :
  fst (update a pt ts)
  = update_changed a pt
    || (negb (Z.eqb ts timestamp_unknown)
        && not_older_than ts (after_execute a pt)).
Proof.
  unfold Compile.update, Compile.update_changed, Compile.after_execute,
    Compile.not_older_than.
  destruct (negb (target_state_eqb (pt_state pt) ts_unchanged)); simpl.
  - destruct (execute_direct a pt) as [ns pt1]; simpl.
    destruct (negb (target_state_eqb ns (pt_state pt))
              && negb (target_state_eqb ns ts_unchanged)); simpl;
      [reflexivity|].
    destruct (negb (Z.eqb ts timestamp_unknown)); simpl; [|reflexivity].
    destruct (mtime timestamp_unknown file_mtime pt1); reflexivity.
  - destruct (negb (Z.eqb ts timestamp_unknown)); simpl; [|reflexivity].
    destruct (mtime timestamp_unknown file_mtime pt); reflexivity.
Qed.

(** For a header from the cache, [add] returns what [update] says about
    the header's target with the modification time of the database. *)
Lemma add_cached a f st f' st1 :
  map_header f true st = (Done f', st1) ->
  pt_path (search f') = "" \/ pt_path (search f') = f' ->
  exists st2,
    add a f true st
    = (Done (fst (update a (header_target a f') (dd_mtime (dd st1)))), st2)
    /\ dd st2 = dd st1 /\ skip_count st2 = skip_count st1.
Proof.
  intros Hm Hp. unfold Compile.add. rewrite Hm.
  assert (Hok : negb (String.eqb (pt_path (search f')) "")
                && negb (String.eqb (pt_path (search f')) f') = false).
  { destruct Hp as [-> | ->]; [reflexivity|].
    rewrite String.eqb_refl. apply andb_false_r. }
  rewrite Hok. unfold Compile.header_target.
  destruct (Compile.update _ _ _ a _ _) as [r pt]; simpl.
  eexists; split; [reflexivity|]. split; reflexivity.
Qed.

Lemma map_header_dd f cache st :
  dd (snd (map_header f cache st)) = dd st
  /\ skip_count (snd (map_header f cache st)) = skip_count st.
Proof.
  unfold Compile.map_header. destruct (negb (absolute f)); [|auto].
  destruct (find_prefix _ _ _ _) as [[k v]|]; auto.
Qed.

(** One turn of the loop over the cached headers. *)
Lemma cache_loop_step (n : nat) (a : action) (st : inject_state dir_path) :
  more (dd st) = true ->
  (forall dd1,
      read (dd st) = (None, dd1) ->
      cache_loop (S n) a st = (Done true, with_dd st dd1))
  /\ (forall f dd1 f' st1,
        read (dd st) = (Some f, dd1) ->
        map_header f true (with_dd st dd1) = (Done f', st1) ->
        pt_path (search f') = "" \/ pt_path (search f') = f' ->
        let stale :=
          update_changed a (header_target a f')
          || (negb (Z.eqb (dd_mtime (dd st)) timestamp_unknown)
              && not_older_than (dd_mtime (dd st))
                   (after_execute a (header_target a f'))) in
        exists st2,
          skip_count st2 = S (skip_count st) /\ dd st2 = dd1
          /\ (stale = true ->
              cache_loop (S n) a st = (Done true, with_dd st2 (touch (dd st2))))
          /\ (stale = false -> cache_loop (S n) a st = cache_loop n a st2)).
Proof.
  intros Hmore. split.
  - intros dd1 Hr. simpl. rewrite Hmore, Hr. reflexivity.
  - intros f dd1 f' st1 Hr Hm Hp stale.
    destruct (add_cached a f (with_dd st dd1) f' st1 Hm Hp)
      as (st2 & Ha & Hdd & Hsk).
    pose proof (map_header_dd f true (with_dd st dd1)) as [Hd Hk].
    rewrite Hm in Hd, Hk; simpl in Hd, Hk.
    assert (Hmt : dd_mtime (dd st1) = dd_mtime (dd st)).
    { rewrite Hd. unfold read in Hr. rewrite Hmore in Hr.
      destruct (dd_lines (dd st) !! dd_pos (dd st)) as [[l|]|];
        injection Hr as _ <-; reflexivity. }
    rewrite update_answer, Hmt in Ha. fold stale in Ha.
    exists (count_skip st2). split; [simpl; congruence|].
    split; [simpl; congruence|].
    split; intros Hst; simpl; rewrite Hmore, Hr, Ha, Hst; reflexivity.
Qed.

Lemma read_lines_left d l d1 :
  more d = true -> read d = (l, d1) -> lines_left d = S (lines_left d1).
Proof.
  intros Hmore. unfold read. rewrite Hmore.
  unfold more in Hmore. apply andb_true_iff in Hmore as [_ Hlt].
  apply Nat.ltb_lt in Hlt. unfold lines_left.
  destruct (dd_lines d !! dd_pos d) as [[x|]|]; intros [= <- <-]; simpl; lia.
Qed.


End Rule.

(** The fingerprint of an object file whose database has an older
    options checksum: the target is forced. *)
Lemma stale_options_checksum_example :
  exists dd,
    apply_fingerprint (-1)%Z 0%Z (fun _ => 50%Z)
      perform_update_id (mk_path_target ts_unknown "out/foo.o" 100%Z)
      [Some "cxx.compile 1"; Some "c1"; Some "old"; Some "/src/foo.cxx";
       Some "/usr/include/a.h"]
      90%Z "c1" "new" "/src/foo.cxx"
    = (Some dd, mk_path_target ts_unknown "out/foo.o" 0%Z)
    /\ dd_lines dd
       = [Some "cxx.compile 1"; Some "c1"; Some "new"; Some "/src/foo.cxx"].
Proof. eexists; split; reflexivity. Qed.

(** C3: with the prefixes (empty) and [foo] in the map, the header
    directory [foz] falls after [foo], which is not its ancestor, and
    the search gives up although the empty prefix is an ancestor. *)
Theorem find_prefix_misses_ancestor :
  find_prefix components_lt components_sub
    [([], ["out"; "gen"]); (["foo"], ["out"; "x"])] ["foz"] = None
  /\ most_qualified components_sub
       [([], ["out"; "gen"]); (["foo"], ["out"; "x"])] ["foz"]
     = Some ([], ["out"; "gen"])
  /\ find_prefix components_lt components_sub
       [(["foo"], ["out"; "x"]); (["foo"; "bar"], ["out"; "y"])]
       ["foo"; "baz"] = None
  /\ most_qualified components_sub
       [(["foo"], ["out"; "x"]); (["foo"; "bar"], ["out"; "y"])]
       ["foo"; "baz"]
     = Some (["foo"], ["out"; "x"]).
Proof. repeat split. Qed.



(** *** Make dependency declarations *)

Import StringFacts.

Lemma from_pos_length p l : String.length (from_pos p l) = (String.length l - p)%nat.
Proof.
  revert l; induction p as [|p IH]; intros [|c l]; simpl; auto with lia.
Qed.

Lemma from_pos_plus p k l : from_pos (p + k) l = from_pos k (from_pos p l).
Proof.
  revert l; induction p as [|p IH]; intros l; simpl; [reflexivity|].
  destruct l as [|c l]; [destruct k; reflexivity|apply IH].
Qed.

Lemma skip_blanks_spec s k r :
  skip_blanks s = (k, r) ->
  r = from_pos k s /\ (k + String.length r = String.length s)%nat
  /\ starts_with_space r = false.
Proof.
  revert k r; induction s as [|c s IH]; intros k r; simpl.
  - intros [= <- <-]. auto.
  - destruct (Ascii.eqb c " ") eqn:Hc.
    + destruct (skip_blanks s) as [k' r'] eqn:Hs. intros [= <- <-].
      destruct (IH _ _ eq_refl) as (-> & Hl & Hsp). simpl.
      rewrite <- Hl. auto.
    + intros [= <- <-]. simpl. rewrite Hc. auto.
Qed.

Lemma make_word_spec s r k t :
  make_word s = (r, k, t) ->
  t = from_pos k s /\ (k + String.length t = String.length s)%nat
  /\ (t = EmptyString \/ starts_with_space t = true)
  /\ (s <> EmptyString -> starts_with_space s = false ->
      (0 < k)%nat /\ r <> EmptyString).
Proof.
  remember (String.length s) as n eqn:Hn.
  revert s Hn r k t.
  induction n as [n IH] using lt_wf_ind. intros s Hn r k t.
  destruct s as [|c s']; simpl.
  - intros [= <- <- <-]. repeat split; auto; try congruence.
  - destruct (Ascii.eqb c " ") eqn:Hc.
    + intros [= <- <- <-]. simpl. rewrite Hc. repeat split; auto; try congruence.
    + destruct s' as [|d s''].
      * intros [= <- <- <-]. simpl. repeat split; auto with lia; try congruence.
      * simpl in Hn.
        assert (Hrec1 : forall r k t, make_word (String d s'') = (r, k, t) ->
                  t = from_pos k (String d s'') /\
                  (k + String.length t = S (String.length s''))%nat /\
                  (t = EmptyString \/ starts_with_space t = true)).
        { intros r0 k0 t0 H0.
          destruct (IH (S (String.length s'')) ltac:(lia) (String d s'') eq_refl _ _ _ H0)
            as (? & ? & ? & _). auto. }
        assert (Hrec2 : forall r k t, make_word s'' = (r, k, t) ->
                  t = from_pos k s'' /\
                  (k + String.length t = String.length s'')%nat /\
                  (t = EmptyString \/ starts_with_space t = true)).
        { intros r0 k0 t0 H0.
          destruct (IH (String.length s'') ltac:(lia) s'' eq_refl _ _ _ H0)
            as (? & ? & ? & _). auto. }
        destruct (Ascii.eqb c "$") eqn:Hd.
        { destruct (Ascii.eqb d "$") eqn:Hdd.
          - destruct (make_word s'') as [[r0 k0] t0] eqn:H0. intros [= <- <- <-].
            destruct (Hrec2 _ _ _ eq_refl) as (-> & Hl & Ht).
            simpl. repeat split; auto with lia; try congruence.
          - destruct (make_word (String d s'')) as [[r0 k0] t0] eqn:H0.
            intros [= <- <- <-].
            destruct (Hrec1 _ _ _ eq_refl) as (-> & Hl & Ht).
            simpl. repeat split; auto with lia; try congruence. }
        destruct (Ascii.eqb c "\") eqn:Hb.
        { destruct (Ascii.eqb d "\" || Ascii.eqb d " ") eqn:Hdd.
          - destruct (make_word s'') as [[r0 k0] t0] eqn:H0. intros [= <- <- <-].
            destruct (Hrec2 _ _ _ eq_refl) as (-> & Hl & Ht).
            simpl. repeat split; auto with lia; try congruence.
          - destruct (make_word (String d s'')) as [[r0 k0] t0] eqn:H0.
            intros [= <- <- <-].
            destruct (Hrec1 _ _ _ eq_refl) as (-> & Hl & Ht).
            simpl. repeat split; auto with lia; try congruence. }
        destruct (make_word (String d s'')) as [[r0 k0] t0] eqn:H0.
        intros [= <- <- <-].
        destruct (Hrec1 _ _ _ eq_refl) as (-> & Hl & Ht).
        simpl. repeat split; auto with lia; try congruence.
Qed.

Lemma get_from_pos p l :
  String.get p l = match from_pos p l with
                   | String c _ => Some c
                   | EmptyString => None
                   end.
Proof.
  revert l; induction p as [|p IH]; intros [|c l]; simpl; auto.
Qed.

Lemma from_pos_app pre s : from_pos (String.length pre) (pre +:+ s) = s.
Proof. induction pre as [|c pre IH]; simpl; auto. Qed.

Lemma skip_blanks_space s k r :
  skip_blanks s = (k, r) -> starts_with_space s = true -> (0 < k)%nat.
Proof.
  destruct s as [|c s]; simpl; [discriminate|].
  intros H Hc. rewrite Hc in H. destruct (skip_blanks s). inversion H. lia.
Qed.

Lemma skip_blanks_none s :
  starts_with_space s = false -> skip_blanks s = (0%nat, s).
Proof. destruct s as [|c s]; simpl; [reflexivity|]. intros ->. reflexivity. Qed.

Lemma next_make_moves l p r p' :
  (p <= String.length l)%nat ->
  next_make l p = (r, p') ->
  (p <= p' <= String.length l)%nat
  /\ ((p < String.length l)%nat -> (p < p')%nat)
  /\ String.get p' l <> Some " "%char
  /\ from_pos p' l <> String "\" EmptyString.
Proof.
  intros Hp. unfold next_make.
  destruct (skip_blanks (from_pos p l)) as [k1 s1] eqn:H1.
  destruct (make_word s1) as [[r0 k2] s2] eqn:H2.
  destruct (skip_blanks s2) as [k3 s3] eqn:H3.
  intros [= <- <-].
  destruct (skip_blanks_spec _ _ _ H1) as (E1 & L1 & _).
  destruct (make_word_spec _ _ _ _ H2) as (E2 & L2 & _ & N2).
  destruct (skip_blanks_spec _ _ _ H3) as (E3 & L3 & S3).
  pose proof (from_pos_length p l) as Lp.
  assert (E : from_pos (p + k1 + k2 + k3) l = s3).
  { rewrite !from_pos_plus. congruence. }
  set (k4 := match s3 with
             | String c EmptyString => if Ascii.eqb c "\" then 1%nat else 0%nat
             | _ => 0%nat
             end).
  assert (K4 : (k4 <= String.length s3)%nat
               /\ starts_with_space (from_pos k4 s3) = false
               /\ from_pos k4 s3 <> String "\" EmptyString).
  { subst k4. destruct s3 as [|c [|d s4]]; simpl.
    - split; [lia|]. split; [reflexivity|discriminate].
    - destruct (Ascii.eqb c "\") eqn:Hc; simpl.
      + split; [lia|]. split; [reflexivity|discriminate].
      + split; [lia|]. split; [exact S3|].
        intros [= ->]. discriminate.
    - split; [lia|]. split; [exact S3|discriminate]. }
  destruct K4 as (K4 & S4 & B4).
  split; [lia|]. split.
  - intros Hlt.
    destruct (starts_with_space (from_pos p l)) eqn:Hs.
    + pose proof (skip_blanks_space _ _ _ H1 Hs). lia.
    + rewrite (skip_blanks_none _ Hs) in H1. injection H1 as Hk1 Hs1.
      destruct N2 as [N2 _]; [| |lia].
      * rewrite <- Hs1. intros Hnil. rewrite Hnil in Lp. simpl in Lp. lia.
      * rewrite <- Hs1. exact Hs.
  - rewrite get_from_pos, (from_pos_plus _ k4), E. split; [|exact B4].
    destruct (from_pos k4 s3) as [|c s4]; [discriminate|].
    simpl in S4. intros [= ->]. discriminate.
Qed.

(** X1: [next_make] keeps its contract on the position, "update
    position to point to the start of the following prerequisite or
    l.size() if there are none left": from a position inside the line
    it never moves back nor past the end, it moves forward when
    something is left, and where it stops there is neither a space nor
    a lone final backslash. *)
Theorem next_make_position l p r p' :
  (p <= String.length l)%nat ->
  next_make l p = (r, p') ->
  (p <= p' <= String.length l)%nat
  /\ ((p < String.length l)%nat -> (p < p')%nat)
  /\ String.get p' l <> Some " "%char
  /\ from_pos p' l <> String "\" EmptyString.
Proof. apply next_make_moves. Qed.

Lemma make_quote_head w :
  w <> EmptyString ->
  starts_with_space (make_quote w) = false
  /\ make_quote w <> EmptyString
  /\ make_quote w <> String "\" EmptyString.
Proof.
  destruct w as [|c w]; [congruence|]. intros _. simpl.
  destruct (Ascii.eqb c " ") eqn:H1; [repeat split; discriminate|].
  destruct (Ascii.eqb c "$") eqn:H2; [repeat split; discriminate|].
  destruct (Ascii.eqb c "\") eqn:H3; [repeat split; discriminate|].
  simpl. rewrite H1. repeat split; try discriminate.
  intros [= -> _]. discriminate.
Qed.

Lemma make_word_quote w post :
  post = EmptyString \/ starts_with_space post = true ->
  make_word (make_quote w +:+ post)
  = (w, String.length (make_quote w), post).
Proof.
  intros Hpost. induction w as [|c w IH]; simpl.
  - destruct Hpost as [->|Hs]; [reflexivity|].
    destruct post as [|d post]; [reflexivity|]. simpl in *. rewrite Hs.
    reflexivity.
  - destruct (Ascii.eqb c " ") eqn:H1.
    { apply Ascii.eqb_eq in H1 as ->. simpl. rewrite IH. reflexivity. }
    destruct (Ascii.eqb c "$") eqn:H2.
    { apply Ascii.eqb_eq in H2 as ->. simpl. rewrite IH. reflexivity. }
    destruct (Ascii.eqb c "\") eqn:H3.
    { apply Ascii.eqb_eq in H3 as ->. simpl. rewrite IH. reflexivity. }
    simpl. rewrite H1, H2, H3.
    destruct (make_quote w +:+ post) as [|d s'] eqn:Hq.
    + destruct w as [|e w].
      * change (post = EmptyString) in Hq. subst post. reflexivity.
      * exfalso. cbn [make_quote] in Hq.
        destruct (Ascii.eqb e " "); [discriminate|].
        destruct (Ascii.eqb e "$"); [discriminate|].
        destruct (Ascii.eqb e "\"); discriminate.
    + rewrite IH. reflexivity.
Qed.

(** X2: [next_make] undoes the escaping of make: a non-empty
    prerequisite written with its spaces, dollars and backslashes
    escaped, and followed by the end of the line or by a space, is
    returned as it was, whatever precedes the position. *)
Theorem next_make_unquotes pre w post :
  w <> EmptyString ->
  post = EmptyString \/ starts_with_space post = true ->
  fst (next_make (pre +:+ make_quote w +:+ post) (String.length pre)) = w.
Proof.
  intros Hw Hpost. unfold next_make.
  rewrite from_pos_app.
  destruct (make_quote_head w Hw) as (Hs & Hne & _).
  rewrite skip_blanks_none.
  - rewrite make_word_quote by exact Hpost.
    destruct (skip_blanks post). reflexivity.
  - destruct (make_quote w) as [|c q]; [congruence|]. exact Hs.
Qed.

Lemma make_rule_cons w ws :
  make_rule (w :: ws)
  = match ws with
    | [] => make_quote w
    | _ => make_quote w +:+ String " " (make_rule ws)
    end.
Proof. destruct ws; reflexivity. Qed.

Lemma make_rule_head ws :
  ws <> [] -> Forall nonempty ws ->
  starts_with_space (make_rule ws) = false
  /\ make_rule ws <> EmptyString
  /\ make_rule ws <> String "\" EmptyString.
Proof.
  destruct ws as [|w ws]; [congruence|]. intros _ Hall.
  apply Forall_cons in Hall as [Hw Hall].
  destruct (make_quote_head w Hw) as (Hs & Hne & Hb).
  rewrite make_rule_cons. destruct ws as [|w2 ws]; [auto|].
  destruct (make_quote w) as [|c q]; [congruence|].
  cbn. split; [exact Hs|]. split; [discriminate|].
  destruct q; discriminate.
Qed.

Lemma next_make_last pre w cont :
  nonempty w ->
  next_make (pre +:+ make_quote w +:+ line_end cont) (String.length pre)
  = (w, String.length (pre +:+ make_quote w +:+ line_end cont)).
Proof.
  intros Hw. unfold next_make. rewrite from_pos_app.
  destruct (make_quote_head w Hw) as (Hs & Hne & _).
  rewrite skip_blanks_none.
  2:{ destruct (make_quote w) as [|c q]; [congruence|]. exact Hs. }
  rewrite make_word_quote by (destruct cont; auto).
  rewrite !length_app_string.
  destruct cont; cbn; f_equal; lia.
Qed.

Lemma next_make_more pre w ws :
  nonempty w -> ws <> [] -> Forall nonempty ws ->
  forall tail,
  next_make (pre +:+ make_quote w +:+ String " " (make_rule ws +:+ tail))
            (String.length pre)
  = (w, String.length (pre +:+ make_quote w +:+ String " " EmptyString)).
Proof.
  intros Hw Hws Hall tail. unfold next_make. rewrite from_pos_app.
  destruct (make_quote_head w Hw) as (Hs & Hne & _).
  destruct (make_rule_head ws Hws Hall) as (Rs & Rne & Rb).
  rewrite skip_blanks_none.
  2:{ destruct (make_quote w) as [|c q]; [congruence|]. exact Hs. }
  rewrite make_word_quote by (right; reflexivity).
  cbn [skip_blanks]. rewrite Ascii.eqb_refl.
  destruct (make_rule ws) as [|c r] eqn:Hr; [congruence|].
  rewrite skip_blanks_none by exact Rs.
  rewrite !length_app_string, append_cons. cbn [String.length].
  destruct (r +:+ tail) eqn:Hrt.
  - destruct r; [|discriminate].
    destruct (Ascii.eqb c "\") eqn:Hc.
    + apply Ascii.eqb_eq in Hc. subst c. congruence.
    + f_equal. lia.
  - f_equal. lia.
Qed.

Lemma make_rule_length ws :
  Forall nonempty ws -> (length ws <= String.length (make_rule ws))%nat.
Proof.
  induction 1 as [|w ws Hw Hall IH]; [simpl; lia|].
  destruct (make_quote_head w Hw) as (_ & Hne & _).
  rewrite make_rule_cons.
  assert (0 < String.length (make_quote w))%nat.
  { destruct (make_quote w); [congruence|simpl; lia]. }
  destruct ws as [|w2 ws]; [simpl; lia|].
  rewrite length_app_string. cbn [String.length]. simpl length in *. lia.
Qed.

Lemma make_loop_rule ws : forall pre fuel cont,
  Forall nonempty ws -> (ws = [] -> cont = false) ->
  (length ws <= fuel)%nat ->
  make_loop fuel (pre +:+ make_rule ws +:+ line_end cont) (String.length pre)
  = Some ws.
Proof.
  induction ws as [|w ws IH]; intros pre fuel cont Hall Hc Hf.
  - rewrite (Hc eq_refl). cbn [make_rule line_end].
    change (EmptyString +:+ EmptyString) with EmptyString.
    rewrite append_nil_r.
    destruct fuel; simpl; rewrite Nat.eqb_refl; reflexivity.
  - apply Forall_cons in Hall as [Hw Hall].
    destruct fuel as [|fuel]; [simpl in Hf; lia|].
    destruct (make_quote_head w Hw) as (_ & Hne & _).
    assert (Hq : (0 < String.length (make_quote w))%nat).
    { destruct (make_quote w); [congruence|simpl; lia]. }
    cbn [make_loop]. rewrite make_rule_cons.
    destruct ws as [|w2 ws].
    + destruct (Nat.eqb_spec (String.length pre)
                  (String.length (pre +:+ make_quote w +:+ line_end cont)))
        as [E|_].
      { rewrite !length_app_string in E. lia. }
      rewrite next_make_last by exact Hw.
      destruct fuel; simpl; rewrite Nat.eqb_refl; reflexivity.
    + rewrite (append_assoc (make_quote w)), append_cons.
      destruct (Nat.eqb_spec (String.length pre)
                  (String.length (pre +:+ make_quote w +:+
                     String " " (make_rule (w2 :: ws) +:+ line_end cont))))
        as [E|_].
      { rewrite !length_app_string in E. lia. }
      rewrite next_make_more by (auto; discriminate).
      replace (pre +:+ make_quote w +:+
                 String " " (make_rule (w2 :: ws) +:+ line_end cont))
        with ((pre +:+ make_quote w +:+ String " " EmptyString) +:+
                 make_rule (w2 :: ws) +:+ line_end cont).
      2:{ rewrite !append_assoc. reflexivity. }
      rewrite IH; [reflexivity|exact Hall|discriminate|simpl in *; lia].
Qed.

(** X3: the loop over a line of a make rule returns the prerequisites
    that were written to it, in order, also when the line ends with
    the continuation mark. *)
Theorem make_prerequisites_rule ws cont :
  Forall nonempty ws -> (ws = [] -> cont = false) ->
  make_prerequisites (make_rule ws +:+ line_end cont) 0 = Some ws.
Proof.
  intros Hall Hc. unfold make_prerequisites.
  apply (make_loop_rule ws EmptyString); [exact Hall|exact Hc|].
  rewrite length_app_string. pose proof (make_rule_length ws Hall). lia.
Qed.

Lemma make_loop_total fuel : forall l pos,
  (pos <= String.length l)%nat -> (String.length l - pos <= fuel)%nat ->
  exists fs, make_loop fuel l pos = Some fs
             /\ (length fs <= String.length l - pos)%nat.
Proof.
  induction fuel as [|fuel IH]; intros l pos Hp Hf.
  - exists []. simpl. replace pos with (String.length l) by lia.
    rewrite Nat.eqb_refl. split; [reflexivity|simpl; lia].
  - cbn [make_loop]. destruct (Nat.eqb_spec pos (String.length l)) as [E|N].
    + exists []. split; [reflexivity|simpl; lia].
    + destruct (next_make l pos) as [f pos'] eqn:Hn.
      destruct (next_make_moves l pos f pos' Hp Hn) as (Hb & Hlt & _).
      destruct (IH l pos') as (fs & -> & Hlen); [lia|lia|].
      exists (f :: fs). split; [reflexivity|]. simpl. lia.
Qed.

(** X4: the loop over a line always ends: from a position inside the
    line it returns after at most as many calls of [next_make] as
    characters are left. *)
Theorem make_prerequisites_total l pos :
  (pos <= String.length l)%nat ->
  exists fs, make_prerequisites l pos = Some fs
             /\ (length fs <= String.length l - pos)%nat.
Proof.
  intros Hp. apply make_loop_total; [exact Hp|lia].
Qed.

Lemma next_make_position_witness :
  (3 <= 10 <= 13)%nat
  /\ ((3 < 13)%nat -> (3 < 10)%nat)
  /\ String.get 10 "^: a.cxx  b.h" <> Some " "%char
  /\ from_pos 10 "^: a.cxx  b.h" <> String "\" EmptyString.
Proof.
  apply (next_make_position "^: a.cxx  b.h" 3 "a.cxx" 10);
    [simpl; lia|reflexivity].
Defined.

Lemma next_make_unquotes_witness :
  fst (next_make "^: my\ dir/a$$b.h c.h" 3) = "my dir/a$b.h".
Proof.
  apply (next_make_unquotes "^: " "my dir/a$b.h" " c.h");
    [discriminate|right; reflexivity].
Defined.

Lemma make_prerequisites_rule_witness :
  make_prerequisites "a\ b.h c$$.h \" 0 = Some ["a b.h"; "c$.h"].
Proof.
  apply (make_prerequisites_rule ["a b.h"; "c$.h"] true).
  - repeat constructor; discriminate.
  - discriminate.
Defined.

Lemma make_prerequisites_total_witness :
  exists fs, make_prerequisites "^: a.cxx b.h \" 3 = Some fs
             /\ (length fs <= 14 - 3)%nat.
Proof.
  apply (make_prerequisites_total "^: a.cxx b.h \" 3). simpl. lia.
Defined.

(** *** VC++ /showIncludes output *)

Lemma rfind_app c a b :
  has_char c b = false -> rfind c (a +:+ String c b) = Some (String.length a).
Proof.
  intros Hb. induction a as [|x a IH].
  - change (EmptyString +:+ String c b) with (String c b). simpl.
    assert (rfind c b = None) as ->.
    { clear -Hb. induction b as [|y b IH]; [reflexivity|]. simpl in *.
      apply orb_false_iff in Hb as [Hy Hb]. rewrite (IH Hb), Hy. reflexivity. }
    rewrite Ascii.eqb_refl. reflexivity.
  - rewrite append_cons. simpl. rewrite IH. reflexivity.
Qed.

Lemma substring_middle a f b :
  substring (String.length a) (String.length f) (a +:+ f +:+ b) = f.
Proof.
  induction a as [|x a IH].
  - change (EmptyString +:+ f +:+ b) with (f +:+ b). apply substring_prefix.
  - rewrite append_cons. simpl. exact IH.
Qed.

Lemma get_app_r a b i :
  String.get (String.length a + i) (a +:+ b) = String.get i b.
Proof.
  induction a as [|x a IH]; [reflexivity|].
  rewrite append_cons. simpl. exact IH.
Qed.

Lemma skip_blanks_spaces sp f :
  all_spaces sp = true -> starts_with_space f = false ->
  skip_blanks (sp +:+ f) = (String.length sp, f).
Proof.
  intros Hsp Hf. induction sp as [|c sp IH].
  - change (EmptyString +:+ f) with f. apply skip_blanks_none, Hf.
  - simpl in Hsp. apply andb_true_iff in Hsp as [Hc Hsp].
    rewrite append_cons. simpl. rewrite Hc, (IH Hsp). reflexivity.
Qed.

Section ShowFacts.

Variable is_separator : ascii -> bool.

Local Abbreviation next_show := (next_show is_separator).

(** X5: for a line without an error code, [next_show] returns what
    follows the last colon and the indentation after it: the header of
    an include note, and [good_error] stays unset. *)
Theorem next_show_include_note pre sp f :
  is_separator " " = false ->
  find_code (pre +:+ String ":" (sp +:+ f)) 0 (pre +:+ String ":" (sp +:+ f))
  = None ->
  all_spaces sp = true -> sp <> EmptyString ->
  has_char ":" f = false -> f <> EmptyString -> starts_with_space f = false ->
  next_show (pre +:+ String ":" (sp +:+ f)) false = Done (f, false).
Proof.
  intros Hsep Hcode Hsp Hne Hf Hfne Hfs. unfold next_show. rewrite Hcode.
  assert (Hc : has_char ":" (sp +:+ f) = false).
  { clear -Hsp Hf. induction sp as [|c sp IH]; [exact Hf|].
    simpl in Hsp. apply andb_true_iff in Hsp as [Hc Hsp].
    rewrite append_cons. simpl. rewrite (IH Hsp).
    apply Ascii.eqb_eq in Hc as ->. reflexivity. }
  rewrite (rfind_app _ _ _ Hc).
  assert (Hnext : char_at (pre +:+ String ":" (sp +:+ f))
                    (String.length pre + 1) is_separator = false).
  { unfold char_at.
    replace (pre +:+ String ":" (sp +:+ f))
      with ((pre +:+ String ":" EmptyString) +:+ (sp +:+ f))
      by (rewrite append_assoc; reflexivity).
    replace (String.length pre + 1)%nat
      with (String.length (pre +:+ String ":" EmptyString) + 0)%nat
      by (rewrite length_app_string; simpl; lia).
    rewrite get_app_r.
    destruct sp as [|c sp]; [congruence|]. simpl in Hsp.
    apply andb_true_iff in Hsp as [Hc' _]. apply Ascii.eqb_eq in Hc' as ->.
    rewrite append_cons. simpl. exact Hsep. }
  rewrite Hnext, !andb_false_r.
  unfold find_first_not_of_space.
  replace (pre +:+ String ":" (sp +:+ f))
    with ((pre +:+ String ":" EmptyString) +:+ (sp +:+ f))
    by (rewrite append_assoc; reflexivity).
  replace (String.length pre + 1)%nat
    with (String.length (pre +:+ String ":" EmptyString))
    by (rewrite length_app_string; simpl; lia).
  rewrite from_pos_app, (skip_blanks_spaces _ _ Hsp Hfs).
  destruct f as [|c f]; [congruence|].
  rewrite from_pos_plus, !from_pos_app. reflexivity.
Qed.

Lemma char_at_app a c b f :
  char_at (a +:+ String c b) (String.length a) f = f c.
Proof.
  unfold char_at. rewrite <- (Nat.add_0_r (String.length a)), get_app_r.
  reflexivity.
Qed.

Lemma has_char_spaces c sp :
  all_spaces sp = true -> c <> " "%char -> has_char c sp = false.
Proof.
  intros Hsp Hc. induction sp as [|x sp IH]; [reflexivity|].
  simpl in *. apply andb_true_iff in Hsp as [Hx Hsp].
  apply Ascii.eqb_eq in Hx as ->. rewrite (IH Hsp), orb_false_r.
  apply Ascii.eqb_neq. congruence.
Qed.

Lemma has_char_app c a b :
  has_char c (a +:+ b) = has_char c a || has_char c b.
Proof.
  induction a as [|x a IH]; [reflexivity|].
  rewrite append_cons. simpl. rewrite IH, orb_assoc. reflexivity.
Qed.

(** X6: the colon of a Windows drive letter is not taken for the end
    of the note's text: for a header that starts with a letter, a
    colon and a separator, [next_show] returns the whole path, drive
    included. *)
Theorem next_show_note_drive pre sp d s rest :
  let f := String d (String ":" (String s rest)) in
  let l := pre +:+ String ":" (sp +:+ String " " f) in
  find_code l 0 l = None ->
  all_spaces sp = true ->
  isalpha d = true -> is_separator s = true ->
  has_char ":" (String s rest) = false ->
  next_show l false = Done (f, false).
Proof.
  intros f l Hcode Hsp Hd Hs Hrest. unfold next_show. rewrite Hcode.
  set (a := pre +:+ String ":" sp).
  assert (El1 : l = (a +:+ String " " (String d EmptyString))
                    +:+ String ":" (String s rest)).
  { subst l a f. norm_app. reflexivity. }
  assert (La : String.length (a +:+ String " " (String d EmptyString))
               = (String.length a + 2)%nat).
  { rewrite length_app_string. reflexivity. }
  rewrite El1 at 1. rewrite (rfind_app _ _ _ Hrest), La.
  assert (C1 : char_at l (String.length a + 2 - 2) (Ascii.eqb " ") = true).
  { replace (String.length a + 2 - 2)%nat with (String.length a) by lia.
    replace l with (a +:+ String " " f)
      by (subst l a; norm_app; reflexivity).
    apply char_at_app. }
  assert (C2 : char_at l (String.length a + 2 - 1) isalpha = true).
  { replace (String.length a + 2 - 1)%nat
      with (String.length (a +:+ String " " EmptyString))
      by (rewrite length_app_string; simpl; lia).
    replace l with ((a +:+ String " " EmptyString) +:+ f)
      by (subst l a; norm_app; reflexivity).
    subst f. rewrite char_at_app. exact Hd. }
  assert (C3 : char_at l (String.length a + 2 + 1) is_separator = true).
  { replace (String.length a + 2 + 1)%nat
      with (String.length (a +:+ String " " (String d (String ":" EmptyString))))
      by (rewrite length_app_string; simpl; lia).
    replace l
      with ((a +:+ String " " (String d (String ":" EmptyString)))
            +:+ String s rest)
      by (subst l a f; norm_app; reflexivity).
    rewrite char_at_app. exact Hs. }
  assert (Ln : String.length l = (String.length a + 4 + String.length rest)%nat).
  { rewrite El1, length_app_string, La. simpl. lia. }
  rewrite C1, C2, C3, Ln.
  replace (1 <? String.length a + 2)%nat with true
    by (symmetry; apply Nat.ltb_lt; lia).
  replace (String.length a + 2 + 1 <? String.length a + 4 + String.length rest)%nat
    with true by (symmetry; apply Nat.ltb_lt; lia).
  cbn [andb]. unfold rfind_to.
  replace (S (String.length a + 2 - 2)) with (String.length (a +:+ String " " EmptyString))
    by (rewrite length_app_string; simpl; lia).
  replace l with ((a +:+ String " " EmptyString) +:+ f)
    by (subst l a; norm_app; reflexivity).
  rewrite substring_prefix.
  replace (a +:+ String " " EmptyString)
    with (pre +:+ String ":" (sp +:+ String " " EmptyString))
    by (subst a; norm_app; reflexivity).
  rewrite rfind_app.
  2:{ apply has_char_spaces; [|discriminate].
      clear -Hsp. induction sp as [|x sp IH]; [reflexivity|].
      simpl in Hsp. apply andb_true_iff in Hsp as [Hx Hsp].
      rewrite append_cons. simpl. rewrite Hx, (IH Hsp). reflexivity. }
  unfold find_first_not_of_space.
  replace ((pre +:+ String ":" (sp +:+ String " " EmptyString)) +:+ f)
    with ((pre +:+ String ":" EmptyString) +:+ ((sp +:+ String " " EmptyString) +:+ f))
    by (norm_app; reflexivity).
  replace (String.length pre + 1)%nat
    with (String.length (pre +:+ String ":" EmptyString))
    by (rewrite length_app_string; simpl; lia).
  rewrite from_pos_app, skip_blanks_spaces.
  - subst f. cbv iota. rewrite from_pos_plus, !from_pos_app. reflexivity.
  - clear -Hsp. induction sp as [|x sp IH]; [reflexivity|].
    simpl in Hsp. apply andb_true_iff in Hsp as [Hx Hsp].
    rewrite append_cons. simpl. rewrite Hx, (IH Hsp). reflexivity.
  - subst f. simpl. destruct (Ascii.eqb d " ") eqn:E; [|reflexivity].
    apply Ascii.eqb_eq in E. subst d. discriminate.
Qed.

(** X7: on a line whose first error code is C1083, [next_show]
    returns the text between the last two quotes and sets
    [good_error]. *)
Theorem next_show_error a f b p :
  let l := a +:+ String "'" (f +:+ String "'" b) in
  find_code l 0 l = Some p ->
  substring p 4 l = "1083" ->
  has_char "'" f = false -> has_char "'" b = false ->
  next_show l false = Done (f, true).
Proof.
  intros l Hcode Hnum Hf Hb. unfold next_show. rewrite Hcode, Hnum.
  cbn [String.eqb Ascii.eqb Bool.eqb andb].
  replace (("1083" =? "1083")%string) with true by reflexivity.
  assert (El : l = (a +:+ String "'" f) +:+ String "'" b).
  { subst l. norm_app. reflexivity. }
  assert (Lp2 : String.length (a +:+ String "'" f)
                = (String.length a + S (String.length f))%nat).
  { rewrite length_app_string. reflexivity. }
  rewrite El at 1. rewrite (rfind_app _ _ _ Hb), Lp2.
  replace (String.length a + S (String.length f) =? 0)%nat with false
    by (symmetry; apply Nat.eqb_neq; lia).
  cbn [negb]. unfold rfind_to.
  replace (S (String.length a + S (String.length f) - 1))
    with (String.length (a +:+ String "'" f)) by (rewrite Lp2; lia).
  rewrite El, substring_prefix, (rfind_app _ _ _ Hf).
  replace (String.length a + S (String.length f) - String.length a - 1)%nat
    with (String.length f) by lia.
  replace (a +:+ String "'" f) with ((a +:+ String "'" EmptyString) +:+ f)
    by (norm_app; reflexivity).
  replace (S (String.length a))
    with (String.length (a +:+ String "'" EmptyString))
    by (rewrite length_app_string; simpl; lia).
  rewrite append_assoc, substring_middle. reflexivity.
Qed.

Lemma rfind_None c s : rfind c s = None -> has_char c s = false.
Proof.
  induction s as [|x s IH]; [reflexivity|]. simpl.
  destruct (rfind c s); [discriminate|].
  destruct (Ascii.eqb x c); [discriminate|]. intros _. apply IH. reflexivity.
Qed.

Lemma rfind_Some c s i :
  rfind c s = Some i ->
  exists a b, s = a +:+ String c b /\ String.length a = i
              /\ has_char c b = false.
Proof.
  revert i. induction s as [|x s IH]; intros i; [discriminate|]. simpl.
  destruct (rfind c s) as [j|] eqn:Hr.
  - intros [= <-]. destruct (IH j eq_refl) as (a & b & -> & <- & Hb).
    exists (String x a), b. repeat split; auto.
  - destruct (Ascii.eqb x c) eqn:Hx; [|discriminate]. intros [= <-].
    apply Ascii.eqb_eq in Hx as ->.
    exists EmptyString, s. repeat split. apply rfind_None, Hr.
Qed.

(** X8: [good_error] is set for nothing but an include error: when
    [next_show] sets it, the flag was unset before, the first error
    code of the line is 1083 and the string returned stands between
    the last two quotes of the line. *)
Theorem next_show_good_error l g r :
  next_show l g = Done (r, true) ->
  g = false
  /\ (exists p, find_code l 0 l = Some p /\ substring p 4 l = "1083")
  /\ exists a b, l = a +:+ String "'" (r +:+ String "'" b)
                 /\ has_char "'" r = false /\ has_char "'" b = false.
Proof.
  unfold next_show. destruct g; [discriminate|].
  destruct (find_code l 0 l) as [p|] eqn:Hcode.
  2:{ intros H.
      repeat match type of H with
             | context [match ?x with _ => _ end] => destruct x
             end; discriminate. }
  destruct (String.eqb (substring p 4 l) "1083") eqn:Hnum; [|discriminate].
  apply String.eqb_eq in Hnum.
  destruct (rfind "'" l) as [p2|] eqn:H2; [|discriminate].
  destruct (Nat.eqb_spec p2 0) as [|Hp2]; [discriminate|]. cbn [negb].
  destruct (rfind_Some _ _ _ H2) as (a2 & b & El & L2 & Hb).
  unfold rfind_to. replace (S (p2 - 1)) with (String.length a2) by lia.
  subst l. rewrite substring_prefix.
  destruct (rfind "'" a2) as [p1|] eqn:H1; [|discriminate].
  destruct (rfind_Some _ _ _ H1) as (a & f & Ea & L1 & Hf).
  intros [= <-]. split; [reflexivity|]. split; [exists p; auto|].
  exists a, b. subst a2 p1 p2.
  replace (String.length (a +:+ String "'" f) - String.length a - 1)%nat
    with (String.length f) by (rewrite length_app_string; simpl; lia).
  replace (S (String.length a))
    with (String.length (a +:+ String "'" EmptyString))
    by (rewrite length_app_string; simpl; lia).
  replace ((a +:+ String "'" f) +:+ String "'" b)
    with ((a +:+ String "'" EmptyString) +:+ f +:+ String "'" b)
    by (norm_app; reflexivity).
  rewrite substring_middle. repeat split; auto. norm_app. reflexivity.
Qed.

End ShowFacts.

Lemma next_show_include_note_witness :
  Compile.next_show (fun c => Ascii.eqb c "/")
    "Note: including file:   /usr/include/stdio.h" false
  = Done ("/usr/include/stdio.h", false).
Proof.
  apply (next_show_include_note (fun c => Ascii.eqb c "/")
           "Note: including file" "   " "/usr/include/stdio.h");
    first [reflexivity | discriminate].
Defined.

Lemma next_show_note_drive_witness :
  Compile.next_show (fun c => Ascii.eqb c "\" || Ascii.eqb c "/")
    "Note: including file:  C:\Program Files\iostream" false
  = Done ("C:\Program Files\iostream", false).
Proof.
  apply (next_show_note_drive (fun c => Ascii.eqb c "\" || Ascii.eqb c "/")
           "Note: including file" " " "C" "\" "Program Files\iostream");
    reflexivity.
Defined.

Lemma next_show_error_witness :
  Compile.next_show (fun c => Ascii.eqb c "/")
    "x.cpp(3): fatal error C1083: Cannot open include file: 'd/h.hpp': No such file or directory"
    false
  = Done ("d/h.hpp", true).
Proof.
  apply (next_show_error (fun c => Ascii.eqb c "/")
           "x.cpp(3): fatal error C1083: Cannot open include file: "
           "d/h.hpp" ": No such file or directory" 23);
    reflexivity.
Defined.

Lemma next_show_good_error_witness :
  false = false
  /\ (exists p,
        find_code "x.cpp(3): fatal error C1083: no 'd/h.hpp': gone" 0
          "x.cpp(3): fatal error C1083: no 'd/h.hpp': gone" = Some p
        /\ substring p 4 "x.cpp(3): fatal error C1083: no 'd/h.hpp': gone"
           = "1083")
  /\ exists a b,
       "x.cpp(3): fatal error C1083: no 'd/h.hpp': gone"
       = a +:+ String "'" ("d/h.hpp" +:+ String "'" b)
       /\ has_char "'" "d/h.hpp" = false /\ has_char "'" b = false.
Proof.
  apply (next_show_good_error (fun c => Ascii.eqb c "/")
           "x.cpp(3): fatal error C1083: no 'd/h.hpp': gone" false "d/h.hpp").
  reflexivity.
Defined.

(** *** The prefix map built *)

Section PrefixFacts.

Variable dir_path : Type.
Variable dir_lt : dir_path -> dir_path -> bool.
Variable dir_eqb : dir_path -> dir_path -> bool.
Variable relative : dir_path -> bool.
Variable sub : dir_path -> dir_path -> bool.
Variable leaf : dir_path -> dir_path -> dir_path.
Variable empty_dir : dir_path.
Variable to_dir : string -> dir_path.

Local Abbreviation prefix_map := (list (dir_path * dir_path)).
Local Abbreviation sorted := (@sorted_keys dir_path dir_lt).
Local Abbreviation pm_find := (@pm_find dir_path dir_lt).
Local Abbreviation emplace := (@emplace dir_path dir_lt).
Local Abbreviation add_prefix :=
  (@add_prefix dir_path dir_lt dir_eqb relative sub leaf empty_dir).
Local Abbreviation append_options :=
  (@append_options dir_path dir_lt dir_eqb relative sub leaf empty_dir to_dir).
Local Abbreviation append_prefixes :=
  (@append_prefixes dir_path dir_lt dir_eqb relative sub leaf empty_dir
     to_dir).

Local Abbreviation transitive_lt := (@transitive_lt dir_path dir_lt).

Lemma sorted_same_keys (m1 : prefix_map) : forall m2 : prefix_map,
  map fst m1 = map fst m2 -> sorted m1 -> sorted m2.
Proof.
  induction m1 as [|[k1 v1] m1 IH]; intros [|[k2 v2] m2] Hk;
    try discriminate; [auto|].
  simpl in Hk. injection Hk as -> Hk. simpl. intros [Hall Hs].
  split; [|apply IH; assumption].
  clear -Hall Hk. revert m2 Hk.
  induction Hall as [|[k v] m1 Hx Hall IH]; intros [|[k' v'] m2] Hk;
    try discriminate; constructor.
  - simpl in Hk. injection Hk as <- _. exact Hx.
  - apply IH. simpl in Hk. injection Hk as _ Hk. exact Hk.
Qed.

Lemma insert_same_keys (m : prefix_map) j k v d :
  m !! j = Some (k, v) -> map fst (<[j := (k, d)]> m) = map fst m.
Proof.
  revert j. induction m as [|[k0 v0] m IH]; intros [|j] H;
    try discriminate; simpl in *.
  - injection H as -> _. reflexivity.
  - f_equal. apply IH. exact H.
Qed.

Lemma emplace_Forall (P : dir_path * dir_path -> Prop) (m : prefix_map) p d :
  P (p, d) -> Forall P m -> Forall P (emplace m p d).
Proof.
  intros Hp. induction 1 as [|[k v] m Hx Hall IH]; simpl.
  - repeat constructor. exact Hp.
  - destruct (dir_lt p k); repeat constructor; assumption.
Qed.

Lemma emplace_sorted (m : prefix_map) p d :
  transitive_lt -> sorted m -> pm_find m p = None -> sorted (emplace m p d).
Proof.
  intros Htr. induction m as [|[k v] m IH]; simpl.
  - intros _ _. split; [constructor|exact I].
  - intros [Hall Hs].
    destruct (dir_lt k p) eqn:Hkp; destruct (dir_lt p k) eqn:Hpk; simpl;
      try discriminate.
    + destruct (pm_find m p); [discriminate|]. intros _. simpl.
      split; [constructor; [exact Hpk|]|split; assumption].
      eapply Forall_impl; [exact Hall|]. intros [k' v'] Hk'. simpl in *.
      eapply Htr; eassumption.
    + destruct (pm_find m p) eqn:Hf; [discriminate|]. intros _. simpl.
      split; [|apply IH; auto].
      apply emplace_Forall; [exact Hkp|exact Hall].
    + destruct (pm_find m p); [discriminate|]. intros _. simpl.
      split; [constructor; [exact Hpk|]|split; assumption].
      eapply Forall_impl; [exact Hall|]. intros [k' v'] Hk'. simpl in *.
      eapply Htr; eassumption.
Qed.

Lemma add_prefix_sorted (m : prefix_map) out_base out_root d :
  transitive_lt -> sorted m -> sorted (add_prefix m out_base out_root d).
Proof.
  intros Htr Hs. unfold Compile.add_prefix.
  destruct (relative d || negb (sub d out_root)); [exact Hs|].
  destruct (pm_find m _) as [j|] eqn:Hf.
  - destruct (m !! j) as [[k v]|] eqn:Hj; [|exact Hs].
    destruct (negb (dir_eqb v d)); [|exact Hs].
    eapply sorted_same_keys; [|exact Hs].
    symmetry. eapply insert_same_keys. exact Hj.
  - apply emplace_sorted; assumption.
Qed.

Lemma append_options_sorted n : forall (v : list string) (m : prefix_map)
  out_base out_root,
  (length v <= n)%nat -> transitive_lt -> sorted m ->
  sorted (append_options m out_base out_root v).
Proof.
  induction n as [|n IH]; intros v m out_base out_root Hn Htr Hs.
  - destruct v; [exact Hs|simpl in Hn; lia].
  - destruct v as [|o v]; [exact Hs|]. simpl in Hn. simpl.
    destruct (is_include_option o).
    + destruct (Nat.eqb (String.length o) 2).
      * destruct v as [|x v]; [exact Hs|]. simpl in Hn.
        apply IH; [lia|exact Htr|apply add_prefix_sorted; assumption].
      * apply IH; [lia|exact Htr|apply add_prefix_sorted; assumption].
    + apply IH; [lia|exact Htr|exact Hs].
Qed.

(** The list that stands for the map stays in the strict order of its
    keys, as a [std::map] does: [append_prefixes] only assigns in place
    and emplaces. *)
Lemma append_prefixes_sorted (m : prefix_map) out_base root options :
  transitive_lt -> sorted m ->
  sorted (append_prefixes m out_base root options).
Proof.
  intros Htr Hs. unfold Compile.append_prefixes.
  destruct root as [out_root|]; [|exact Hs].
  destruct options as [v|]; [|exact Hs].
  apply (append_options_sorted (length v)); auto.
Qed.

Lemma pm_find_emplace (m : prefix_map) p d :
  dir_lt p p = false -> pm_find m p = None ->
  exists j, pm_find (emplace m p d) p = Some j
            /\ emplace m p d !! j = Some (p, d).
Proof.
  intros Hirr. induction m as [|[k v] m IH]; simpl.
  - intros _. rewrite Hirr. simpl. exists 0%nat. split; reflexivity.
  - destruct (dir_lt k p) eqn:Hkp; destruct (dir_lt p k) eqn:Hpk; simpl;
      try discriminate.
    + intros _. rewrite Hirr. simpl. exists 0%nat. split; reflexivity.
    + destruct (pm_find m p) eqn:Hf; [discriminate|]. intros _.
      rewrite Hkp. simpl.
      destruct (IH eq_refl) as (j & -> & Hj). exists (S j).
      split; [reflexivity|exact Hj].
    + intros _. rewrite Hirr. simpl. exists 0%nat. split; reflexivity.
Qed.

Lemma pm_find_same_keys (m1 : prefix_map) : forall (m2 : prefix_map) p,
  map fst m1 = map fst m2 -> pm_find m1 p = pm_find m2 p.
Proof.
  induction m1 as [|[k1 v1] m1 IH]; intros [|[k2 v2] m2] p Hk;
    try discriminate; [reflexivity|].
  simpl in Hk. injection Hk as -> Hk. simpl. rewrite (IH m2 p Hk).
  reflexivity.
Qed.

(** X28: the include options take effect in their order: after the
    loop body has run for an absolute include directory inside the
    project, the prefix it stands for is in the map and is mapped to
    that directory (or to one that compares equal to it), whatever it
    was mapped to before. *)
Theorem add_prefix_overrides (m : prefix_map) out_base out_root d :
  (forall a, dir_lt a a = false) ->
  relative d = false -> sub d out_root = true ->
  exists j k v,
    pm_find (add_prefix m out_base out_root d)
      (prefix_of sub leaf empty_dir out_base d) = Some j
    /\ add_prefix m out_base out_root d !! j = Some (k, v)
    /\ (v = d \/ dir_eqb v d = true).
Proof.
  intros Hirr Hrel Hsub. unfold Compile.add_prefix. rewrite Hrel, Hsub. simpl.
  set (p := prefix_of sub leaf empty_dir out_base d).
  destruct (pm_find m p) as [j|] eqn:Hf.
  - assert (Hlt : (j < length m)%nat).
    { clear -Hf. revert j Hf. induction m as [|[k v] m IH]; intros j;
        simpl; [discriminate|].
      destruct (negb (dir_lt k p) && negb (dir_lt p k)).
      - intros [= <-]. lia.
      - destruct (Compile.pm_find dir_lt m p) as [i|] eqn:Hi; [|discriminate].
        intros [= <-]. specialize (IH i eq_refl). lia. }
    destruct (m !! j) as [[k v]|] eqn:Hj.
    2:{ apply lookup_ge_None in Hj. lia. }
    destruct (dir_eqb v d) eqn:He; simpl.
    + exists j, k, v. auto.
    + exists j, k, d. split; [|split; [|left; reflexivity]].
      * rewrite <- Hf. apply pm_find_same_keys.
        eapply insert_same_keys. exact Hj.
      * apply list_lookup_insert_eq. exact Hlt.
  - destruct (pm_find_emplace m p d (Hirr p) Hf) as (j & Hj1 & Hj2).
    exists j, p, d. auto.
Qed.

Lemma append_options_cons (m : prefix_map) out_base out_root o v :
  append_options m out_base out_root (o :: v)
  = if is_include_option o
    then
      if Nat.eqb (String.length o) 2
      then match v with
           | [] => m
           | x :: v' =>
               append_options (add_prefix m out_base out_root (to_dir x))
                 out_base out_root v'
           end
      else append_options
             (add_prefix m out_base out_root (to_dir (from_pos 2 o)))
             out_base out_root v
    else append_options m out_base out_root v.
Proof. reflexivity. Qed.

(** Options that are not include options are passed over. *)
Lemma append_options_skip (v rest : list string) (m : prefix_map)
  out_base out_root :
  Forall (fun o => is_include_option o = false) v ->
  append_options m out_base out_root (v ++ rest)
  = append_options m out_base out_root rest.
Proof.
  induction 1 as [|o v Ho Hv IH]; [reflexivity|].
  simpl. rewrite Ho. exact IH.
Qed.

(** X27: what [append_prefixes] makes of the options: options that do
    not start with [-I] or [/I] leave the map as it is, and so does an
    include option at the end that lacks its directory; after such
    options, an include option enters its directory, given in the next
    option or joined to it, as the loop body does; and the loop body
    leaves the map as it is for a directory that is relative or outside
    the project. *)
Theorem append_prefixes_include (m : prefix_map) out_base out_root
  (v : list string) (a : ascii) (x : string) :
  Forall (fun o => is_include_option o = false) v ->
  a = "-"%char \/ a = "/"%char ->
  append_prefixes m out_base (Some out_root) (Some v) = m
  /\ append_prefixes m out_base (Some out_root)
       (Some (v ++ [String a (String "I" EmptyString)])) = m
  /\ append_prefixes m out_base (Some out_root)
       (Some (v ++ [String a (String "I" EmptyString); x]))
     = add_prefix m out_base out_root (to_dir x)
  /\ (x <> EmptyString ->
      append_prefixes m out_base (Some out_root)
        (Some (v ++ [String a (String "I" x)]))
      = add_prefix m out_base out_root (to_dir x))
  /\ (relative (to_dir x) = true \/ sub (to_dir x) out_root = false ->
      add_prefix m out_base out_root (to_dir x) = m).
Proof.
  intros Hv Ha. unfold Compile.append_prefixes.
  assert (Hinc : forall s, is_include_option (String a (String "I" s)) = true).
  { intros s. destruct Ha as [-> | ->]; reflexivity. }
  split; [|split; [|split; [|split]]].
  - rewrite <- (app_nil_r v) at 1.
    rewrite (append_options_skip v [] m out_base out_root Hv). reflexivity.
  - rewrite (append_options_skip v _ m out_base out_root Hv).
    rewrite append_options_cons, Hinc. reflexivity.
  - rewrite (append_options_skip v _ m out_base out_root Hv).
    rewrite append_options_cons, Hinc. reflexivity.
  - intros Hx. rewrite (append_options_skip v _ m out_base out_root Hv).
    rewrite append_options_cons, Hinc.
    destruct x as [|c x]; [congruence|]. reflexivity.
  - intros H. unfold Compile.add_prefix.
    destruct H as [-> | ->]; [reflexivity|].
    rewrite orb_true_r. reflexivity.
Qed.

End PrefixFacts.

(** [-I/p/inc] among other options, the project being [/p]: the
    directory is entered under the empty prefix. *)
Lemma append_prefixes_include_witness :
  append_prefixes Nat.ltb Nat.eqb (fun d => Nat.eqb d 0) (fun d r => Nat.leb r d)
    (fun _ _ => 4%nat) 0%nat String.length
    [] 1%nat (Some 2%nat) (Some ["-O2"; "-DX"; "-I/p/inc"])
  = [(0%nat, 6%nat)]
  /\ append_prefixes Nat.ltb Nat.eqb (fun d => Nat.eqb d 0)
       (fun d r => Nat.leb r d) (fun _ _ => 4%nat) 0%nat String.length
       [] 1%nat (Some 2%nat) (Some ["-O2"; "-DX"; "/I"; "/p/inc"])
     = [(0%nat, 6%nat)]
  /\ append_prefixes Nat.ltb Nat.eqb (fun d => Nat.eqb d 0)
       (fun d r => Nat.leb r d) (fun _ _ => 4%nat) 0%nat String.length
       [] 1%nat (Some 2%nat) (Some ["-O2"; "-DX"; "-I"])
     = [].
Proof.
  destruct (append_prefixes_include nat Nat.ltb Nat.eqb (fun d => Nat.eqb d 0)
              (fun d r => Nat.leb r d) (fun _ _ => 4%nat) 0%nat String.length
              [] 1%nat 2%nat ["-O2"; "-DX"] "-"%char "/p/inc")
    as (_ & H2 & _ & H4 & _).
  { repeat constructor. }
  { left. reflexivity. }
  destruct (append_prefixes_include nat Nat.ltb Nat.eqb (fun d => Nat.eqb d 0)
              (fun d r => Nat.leb r d) (fun _ _ => 4%nat) 0%nat String.length
              [] 1%nat 2%nat ["-O2"; "-DX"] "/"%char "/p/inc")
    as (_ & _ & H3 & _).
  { repeat constructor. }
  { right. reflexivity. }
  split; [|split].
  - etransitivity; [apply H4; discriminate|reflexivity].
  - etransitivity; [apply H3|reflexivity].
  - apply H2.
Defined.

(** A second [-I] for the same prefix replaces the first. *)
Lemma add_prefix_overrides_witness :
  exists j k v,
    pm_find Nat.ltb
      (add_prefix Nat.ltb Nat.eqb (fun _ => false) (fun _ _ => true)
         (fun _ _ => 4%nat) 0%nat [(4%nat, 10%nat)] 1%nat 0%nat 20%nat)
      (prefix_of (fun _ _ => true) (fun _ _ => 4%nat) 0%nat 1%nat 20%nat)
    = Some j
    /\ add_prefix Nat.ltb Nat.eqb (fun _ => false) (fun _ _ => true)
         (fun _ _ => 4%nat) 0%nat [(4%nat, 10%nat)] 1%nat 0%nat 20%nat !! j
       = Some (k, v)
    /\ (v = 20%nat \/ Nat.eqb v 20 = true).
Proof.
  apply (add_prefix_overrides nat Nat.ltb Nat.eqb (fun _ => false)
           (fun _ _ => true) (fun _ _ => 4%nat) 0%nat
           [(4%nat, 10%nat)] 1%nat 0%nat 20%nat).
  - intros a. apply Nat.ltb_irrefl.
  - reflexivity.
  - reflexivity.
Defined.

End CompileFacts.

(** ** The script parser *)

Module ScriptFacts.

Import Script.

Lemma in_family_not_alias tt : in_family tt = true -> is_alias tt = false.
Proof. destruct tt; simpl; congruence. Qed.

Lemma out_family_not_alias tt : out_family tt = true -> is_alias tt = false.
Proof. destruct tt; simpl; congruence. Qed.

Lemma in_family_not_out tt : in_family tt = true -> out_family tt = false.
Proof. destruct tt; simpl; congruence. Qed.

(** The descriptor a redirect token without a separator takes from the
    argument before it. *)
Lemma explicit_fd_Done t args fd args' :
  t_separated t = false ->
  explicit_fd t args = Done (fd, args') ->
  exists s, last args = Some s
            /\ stoul s = Some (fd, String.length s)
            /\ (fd <= 2)%N /\ args' = removelast args.
Proof.
  intros Hs. unfold explicit_fd. rewrite Hs. simpl.
  destruct (last args) as [s|] eqn:El; [|discriminate].
  destruct (stoul s) as [[v n]|] eqn:Est; [|discriminate].
  destruct (Nat.eqb_spec n (String.length s)) as [->|E]; simpl;
    [|discriminate].
  destruct (N.ltb_spec 2 v) as [Hlt|Hle]; [discriminate|].
  intros [= <- <-]. exists s. split; [reflexivity|].
  split; [exact Est|]. split; [exact Hle|reflexivity].
Qed.

Lemma explicit_fd_separated t args :
  t_separated t = true -> explicit_fd t args = Done (3%N, args).
Proof. intros Hs. unfold explicit_fd. rewrite Hs. reflexivity. Qed.

Lemma validate_fd_Done tt fd e fd' :
  validate_fd tt fd e = Done fd' ->
  (in_family tt = true ->
   fd' = 0%N /\ (fd = 3%N \/ fd = 0%N)
   /\ exists back, last e = Some back /\ pipe back = [])
  /\ (out_family tt = true ->
      fd' <> 0%N /\ (fd = 3%N /\ fd' = 1%N \/ fd <> 3%N /\ fd' = fd)).
Proof.
  unfold validate_fd.
  destruct (in_family tt) eqn:Hi.
  - rewrite (in_family_not_out tt Hi).
    destruct (N.eqb_spec fd 3) as [->|E3]; simpl.
    + destruct (last e) as [back|]; [|discriminate].
      destruct (pipe back) eqn:Hp; [|discriminate]. intros [= <-].
      split; [|discriminate]. intros _. repeat split; eauto.
    + destruct (N.eqb_spec fd 0) as [->|E0]; simpl; [|discriminate].
      destruct (last e) as [back|]; [|discriminate].
      destruct (pipe back) eqn:Hp; [|discriminate]. intros [= <-].
      split; [|discriminate]. intros _. repeat split; eauto.
  - destruct (out_family tt) eqn:Ho.
    + destruct (N.eqb_spec fd 3) as [->|E3]; simpl.
      * intros [= <-]. split; [discriminate|]. intros _. split; [lia|auto].
      * destruct (N.eqb_spec fd 0) as [->|E0]; [discriminate|].
        intros [= <-]. split; [discriminate|]. auto.
    + intros _. split; discriminate.
Qed.

Lemma get_set_redirect c fd r :
  get_redirect (set_redirect c fd r) fd = r.
Proof.
  unfold get_redirect, set_redirect.
  destruct (Z.eqb fd 0) eqn:E0; simpl; [reflexivity|].
  destruct (Z.eqb fd 1) eqn:E1; reflexivity.
Qed.

(** What an accepted redirect went through. *)
Lemma parse_redirect_Done st t tt st' :
  parse_redirect st t tt = Done st' ->
  p st = p_none /\ mod_ st = "" /\ is_alias tt = false
  /\ exists fd0 args fd r,
       explicit_fd t (arguments (c st)) = Done (fd0, args)
       /\ validate_fd tt fd0 (expr st) = Done fd
       /\ r_token r = Some t
       /\ c st' = set_redirect
                    (mk_command (program (c st)) args (c_in (c st))
                       (c_out (c st)) (c_err (c st)))
                    (Z.of_N fd) (Some r)
       /\ mod_ st' = t_value t.
Proof.
  unfold parse_redirect.
  destruct (is_alias tt) eqn:Ha; [discriminate|].
  destruct (p st) eqn:Hp; simpl; try discriminate.
  destruct (String.eqb_spec (mod_ st) "") as [Hm|Hm]; simpl; [|discriminate].
  destruct (explicit_fd t (arguments (c st))) as [[fd0 args]|d|] eqn:He;
    try discriminate.
  destruct (validate_fd tt fd0 (expr st)) as [fd|d|] eqn:Hv; try discriminate.
  destruct (redirect_type_of tt (t_value t)) as [rt|]; [|discriminate].
  destruct (pending_of rt fd p_none) as [pn|]; [|discriminate].
  intros H. split; [reflexivity|]. split; [assumption|].
  split; [reflexivity|].
  exists fd0, args, fd.
  exists (match rt with
          | rt_file =>
              with_file_mode (with_token (new_redirect rt) t)
                (file_mode_of tt)
          | _ => with_token (new_redirect rt) t
          end).
  split; [first [reflexivity|exact He]|].
  split; [first [reflexivity|exact Hv]|].
  split; [destruct rt; reflexivity|].
  destruct (negb (pre_parse_ st) && _).
  - destruct (last (expr st)); [|discriminate].
    injection H as <-. split; reflexivity.
  - injection H as <-. split; reflexivity.
Qed.

Lemma check_command_merge c last :
  is_type (c_out c) rt_merge = true -> is_type (c_err c) rt_merge = true ->
  check_command c last = Failed "stdout and stderr redirected to each other".
Proof. intros Ho He. unfold check_command. rewrite Ho, He. reflexivity. Qed.

(** Entering [parse_redirect] with its assertions true. *)
Ltac enter_parse_redirect Hp Hm Ha :=
  unfold parse_redirect; rewrite Ha, Hp, Hm; simpl.

Lemma reject_bad_descriptor st t tt :
  p st = p_none -> mod_ st = "" -> is_alias tt = false ->
  t_separated t = false ->
  (forall s fd, last (arguments (c st)) = Some s ->
                stoul s = Some (fd, String.length s) -> (2 < fd)%N) ->
  is_failed (parse_redirect st t tt) = true.
Proof.
  intros Hp Hm Ha Hs Hbad. enter_parse_redirect Hp Hm Ha.
  unfold explicit_fd. rewrite Hs. simpl.
  destruct (last (arguments (c st))) as [s|] eqn:El; [|reflexivity].
  destruct (stoul s) as [[v n]|] eqn:Est; [|reflexivity].
  destruct (Nat.eqb_spec n (String.length s)) as [->|E]; simpl;
    [|reflexivity].
  destruct (N.ltb_spec 2 v) as [Hlt|Hle]; [reflexivity|].
  specialize (Hbad s v eq_refl Est). lia.
Qed.

Lemma reject_wrong_family st t tt s fd :
  p st = p_none -> mod_ st = "" ->
  t_separated t = false ->
  last (arguments (c st)) = Some s ->
  stoul s = Some (fd, String.length s) ->
  (in_family tt = true /\ fd <> 0%N) \/ (out_family tt = true /\ fd = 0%N) ->
  is_failed (parse_redirect st t tt) = true.
Proof.
  intros Hp Hm Hs El Est Hfam.
  assert (Ha : is_alias tt = false).
  { destruct Hfam as [[H _]|[H _]];
      [apply in_family_not_alias|apply out_family_not_alias]; assumption. }
  enter_parse_redirect Hp Hm Ha.
  unfold explicit_fd. rewrite Hs, El, Est, Nat.eqb_refl. simpl.
  destruct (N.ltb_spec 2 fd) as [Hlt|Hle]; [reflexivity|].
  unfold validate_fd. destruct Hfam as [[Hi Hne]|[Ho ->]].
  - rewrite Hi. destruct (N.eqb_spec fd 3) as [->|E3]; [lia|].
    destruct (N.eqb_spec fd 0) as [->|E0]; [congruence|]. reflexivity.
  - destruct (in_family tt) eqn:Hi;
      [rewrite (in_family_not_out tt Hi) in Ho; discriminate|].
    rewrite Ho. reflexivity.
Qed.

Lemma reject_piped_stdin st t tt back :
  p st = p_none -> mod_ st = "" ->
  in_family tt = true -> last (expr st) = Some back -> pipe back <> [] ->
  is_failed (parse_redirect st t tt) = true.
Proof.
  intros Hp Hm Hi Hl Hpipe.
  pose proof (in_family_not_alias tt Hi) as Ha.
  enter_parse_redirect Hp Hm Ha.
  destruct (explicit_fd t (arguments (c st))) as [[fd args]|d|] eqn:He;
    [|reflexivity|].
  - unfold validate_fd. rewrite Hi, Hl.
    destruct (negb _); [reflexivity|].
    destruct (pipe back); [congruence|reflexivity].
  - unfold explicit_fd in He. destruct (negb (t_separated t)); [|discriminate].
    destruct (last (arguments (c st))) as [s|]; [|discriminate].
    destruct (stoul s) as [[v n]|]; [|discriminate].
    destruct (_ || _); discriminate.
Qed.

Lemma default_in_descriptor st t tt back :
  p st = p_none -> mod_ st = "" -> t_separated t = true ->
  in_family tt = true -> last (expr st) = Some back -> pipe back = [] ->
  has_char "~" (t_value t) = false ->
  exists st' r,
    parse_redirect st t tt = Done st'
    /\ c_in (c st') = Some r /\ r_token r = Some t
    /\ c_out (c st') = c_out (c st) /\ c_err (c st') = c_err (c st).
Proof.
  intros Hp Hm Hs Hi Hl Hpipe Hre.
  pose proof (in_family_not_alias tt Hi) as Ha.
  enter_parse_redirect Hp Hm Ha.
  rewrite (explicit_fd_separated t _ Hs).
  unfold validate_fd. rewrite Hi, Hl, Hpipe. simpl.
  destruct tt; try discriminate Hi; simpl; rewrite ?Hre; simpl;
    (destruct (negb (pre_parse_ st) && _);
     rewrite ?Hl; eexists _, _; repeat split; reflexivity).
Qed.

Lemma default_out_descriptor st t tt :
  p st = p_none -> mod_ st = "" -> t_separated t = true ->
  out_family tt = true -> expr st <> [] ->
  exists st' r,
    parse_redirect st t tt = Done st'
    /\ c_out (c st') = Some r /\ r_token r = Some t
    /\ c_in (c st') = c_in (c st) /\ c_err (c st') = c_err (c st).
Proof.
  intros Hp Hm Hs Ho He.
  pose proof (out_family_not_alias tt Ho) as Ha.
  enter_parse_redirect Hp Hm Ha.
  rewrite (explicit_fd_separated t _ Hs).
  assert (Hl : exists back, last (expr st) = Some back).
  { destruct (last (expr st)) as [b|] eqn:E; [eauto|].
    apply last_None in E. congruence. }
  destruct Hl as [back Hl].
  unfold validate_fd.
  destruct tt; try discriminate Ho; simpl;
    try destruct (has_char "~" (t_value t)); simpl;
    (destruct (negb (pre_parse_ st) && _);
     rewrite ?Hl; eexists _, _; repeat split; reflexivity).
Qed.

(** C9: [check_command] refuses a command whose stdout and stderr are
    both merge redirects; [parse_redirect] refuses an input redirect on
    a command that is not the first of its pipe, a descriptor word that
    does not read as 0, 1 or 2, an input redirect with an explicit
    descriptor other than 0 and an output redirect with the explicit
    descriptor 0; a redirect token that is separated from what precedes
    it goes to stdin for the input operators and to stdout for the
    output operators. *)
Theorem redirects_validated (st : parse_state) (t : token) (tt : token_type) :
  p st = p_none -> mod_ st = "" ->
  (forall cmd last,
      is_type (c_out cmd) rt_merge = true ->
      is_type (c_err cmd) rt_merge = true ->
      is_failed (check_command cmd last) = true)
  /\ (forall back,
        in_family tt = true -> last (expr st) = Some back ->
        pipe back <> [] ->
        is_failed (parse_redirect st t tt) = true)
  /\ (is_alias tt = false -> t_separated t = false ->
      (forall s fd, last (arguments (c st)) = Some s ->
                    stoul s = Some (fd, String.length s) -> (2 < fd)%N) ->
      is_failed (parse_redirect st t tt) = true)
  /\ (forall s fd,
        t_separated t = false ->
        last (arguments (c st)) = Some s ->
        stoul s = Some (fd, String.length s) ->
        (in_family tt = true /\ fd <> 0%N)
        \/ (out_family tt = true /\ fd = 0%N) ->
        is_failed (parse_redirect st t tt) = true)
  /\ (forall back,
        t_separated t = true -> in_family tt = true ->
        last (expr st) = Some back -> pipe back = [] ->
        has_char "~" (t_value t) = false ->
        exists st' r,
          parse_redirect st t tt = Done st'
          /\ c_in (c st') = Some r /\ r_token r = Some t
          /\ c_out (c st') = c_out (c st) /\ c_err (c st') = c_err (c st))
  /\ (t_separated t = true -> out_family tt = true -> expr st <> [] ->
      exists st' r,
        parse_redirect st t tt = Done st'
        /\ c_out (c st') = Some r /\ r_token r = Some t
        /\ c_in (c st') = c_in (c st) /\ c_err (c st') = c_err (c st)).
Proof.
  intros Hp Hm. repeat apply conj.
  - intros cmd last Ho He. rewrite check_command_merge by assumption.
    reflexivity.
  - intros back. apply reject_piped_stdin; assumption.
  - apply reject_bad_descriptor; assumption.
  - intros s fd. apply reject_wrong_family; assumption.
  - intros back. apply default_in_descriptor; assumption.
  - apply default_out_descriptor; assumption.
Qed.

(** *** Here-documents *)

Lemma find_end_Some e hd d :
  find_end e hd = Some d -> In d hd /\ end_ d = e.
Proof.
  induction hd as [|x hd IH]; simpl; [discriminate|].
  destruct (String.eqb_spec (end_ x) e) as [E|E].
  - intros [= <-]. auto.
  - intros H. destruct (IH H). auto.
Qed.

Lemma find_end_None e hd :
  find_end e hd = None -> ~ In e (map end_ hd).
Proof.
  induction hd as [|x hd IH]; simpl; [tauto|].
  destruct (String.eqb_spec (end_ x) e) as [E|E]; [discriminate|].
  intros H [Hx|Hin]; [congruence|]. apply (IH H Hin).
Qed.

Lemma check_shared_spec d m lit re r :
  (same_here_doc d m lit re r -> check_shared d m lit re r = Done tt)
  /\ (~ same_here_doc d m lit re r ->
      is_failed (check_shared d m lit re r) = true).
Proof.
  unfold same_here_doc, check_shared.
  destruct (String.eqb_spec (modifiers d) m) as [Em|Em]; simpl;
    [|split; [intros [? _]; congruence|reflexivity]].
  destruct (Bool.eqb (literal d) lit) eqn:El; simpl.
  2:{ split; [|reflexivity]. intros (_ & E & _). rewrite E in El.
      rewrite Bool.eqb_reflx in El. discriminate. }
  apply Bool.eqb_prop in El.
  destruct re; simpl.
  - destruct (Ascii.eqb_spec (regex d) (rp_intro r)) as [Ei|Ei]; simpl.
    2:{ split; [|reflexivity]. intros (_ & _ & H).
        destruct (H eq_refl). congruence. }
    destruct (String.eqb_spec (regex_flags d) (rp_flags r)) as [Ef|Ef]; simpl.
    + split; [reflexivity|]. intros H. exfalso. apply H. auto.
    + split; [|reflexivity]. intros (_ & _ & H).
      destruct (H eq_refl). congruence.
  - split; [reflexivity|]. intros H. exfalso. apply H.
    split; [assumption|]. split; [assumption|discriminate].
Qed.

(** Sharing is accepted exactly when the new redirect agrees with the
    here-document that has its end marker; without one, a new
    here-document is expected. *)
Lemma share_or_add_spec hd e m lit re r :
  match find_end e hd with
  | Some d =>
      (same_here_doc d m lit re r -> share_or_add hd e m lit re r = Done hd)
      /\ (~ same_here_doc d m lit re r ->
          is_failed (share_or_add hd e m lit re r) = true)
  | None =>
      share_or_add hd e m lit re r
      = Done (hd ++ [mk_here_doc [] e lit m (rp_intro r) (rp_flags r)])
  end.
Proof.
  unfold share_or_add. destruct (find_end e hd) as [d|]; [|reflexivity].
  destruct (check_shared_spec d m lit re r) as [Hy Hn].
  split.
  - intros H. rewrite (Hy H). reflexivity.
  - intros H. specialize (Hn H).
    destruct (check_shared d m lit re r); simpl in *; congruence.
Qed.

(** One here-document per end marker. *)
Lemma share_or_add_NoDup hd e m lit re r hd' :
  share_or_add hd e m lit re r = Done hd' ->
  NoDup (map end_ hd) -> NoDup (map end_ hd').
Proof.
  unfold share_or_add. destruct (find_end e hd) as [d|] eqn:E.
  - destruct (check_shared d m lit re r); try discriminate.
    intros [= <-]. auto.
  - intros [= <-] Hnd. rewrite map_app. simpl.
    apply NoDup_app. repeat split; auto.
    + intros x Hx Hin. apply list_elem_of_In in Hx.
      apply list_elem_of_In in Hin. simpl in Hin.
      destruct Hin as [<-|[]]. apply (find_end_None _ _ E Hx).
    + apply NoDup_singleton.
Qed.

Lemma add_reference_spec rd e hd l :
  add_reference rd e hd = Some l ->
  map end_ l = map end_ hd
  /\ exists d, In d l /\ end_ d = e /\ In rd (redirects d).
Proof.
  revert l. induction hd as [|x hd IH]; simpl; [discriminate|].
  intros l. destruct (String.eqb_spec (end_ x) e) as [E|E].
  - intros [= <-]. split; [reflexivity|].
    eexists. split; [left; reflexivity|]. split; [assumption|].
    simpl. apply in_or_app. right. left. reflexivity.
  - destruct (add_reference rd e hd) as [l'|]; [|discriminate].
    intros [= <-]. destruct (IH l' eq_refl) as (Hm & d & Hin & He & Hr).
    split; [simpl; congruence|].
    exists d. split; [right; assumption|auto].
Qed.

Lemma add_reference_None rd e hd :
  add_reference rd e hd = None -> ~ In e (map end_ hd).
Proof.
  induction hd as [|x hd IH]; simpl; [tauto|].
  destruct (String.eqb_spec (end_ x) e) as [E|E]; [discriminate|].
  destruct (add_reference rd e hd); [discriminate|].
  intros _ [Hx|Hin]; [congruence|]. apply (IH eq_refl Hin).
Qed.

(** In the execute pass a here-document redirect is referenced from the
    one here-document with its end marker. *)
Lemma parse_here_end_spec st t st' :
  parse_here_end st t = Some (Done st') ->
  NoDup (map end_ (hd st)) ->
  NoDup (map end_ (hd st'))
  /\ exists fd back d,
       pending_doc_fd (p st) = Some fd /\ last (expr st) = Some back
       /\ In d (hd st')
       /\ In (mk_here_redirect (length (expr st) - 1) (length (pipe back)) fd)
            (redirects d).
Proof.
  unfold parse_here_end.
  destruct (pending_doc_fd (p st)) as [fd|]; [|discriminate].
  destruct (negb (is_word (t_type t)) || String.eqb (t_value t) "");
    [discriminate|].
  destruct (last (expr st)) as [back|]; [|discriminate].
  set (rd := mk_here_redirect _ _ fd).
  destruct (if pending_doc_regex (p st) then _ else _) as [[e r]|x|];
    try discriminate.
  intros [= <-] Hnd. simpl.
  destruct (add_reference rd e (hd st)) as [l|] eqn:Ea.
  - destruct (add_reference_spec _ _ _ _ Ea) as (Hm & d & Hin & _ & Hr).
    rewrite Hm. split; [assumption|]. exists fd, back, d. auto.
  - split.
    + rewrite map_app. simpl. apply NoDup_app. repeat split; auto.
      * intros x Hx Hin. apply list_elem_of_In in Hx.
        apply list_elem_of_In in Hin. simpl in Hin.
        destruct Hin as [<-|[]]. apply (add_reference_None _ _ _ Ea Hx).
      * apply NoDup_singleton.
    + eexists fd, back, _. repeat split.
      * apply in_or_app. right. left. reflexivity.
      * simpl. left. reflexivity.
Qed.

Lemma get_set_redirect_other c x y r :
  valid_fd x -> valid_fd y -> hr_fd x <> hr_fd y ->
  get_redirect (set_redirect c (hr_fd x) r) (hr_fd y) = get_redirect c (hr_fd y).
Proof.
  unfold valid_fd, get_redirect, set_redirect.
  intros [ -> | [ -> | -> ] ] [ -> | [ -> | -> ] ] Hne; simpl; congruence.
Qed.

Lemma redirect_at_store_same e x r :
  is_Some (command_at e x) ->
  redirect_at (store_redirect e x r) x = Some r.
Proof.
  unfold redirect_at, command_at, store_redirect. intros [cm Hc].
  destruct (e !! hr_expr x) as [term|] eqn:He; [|discriminate].
  rewrite Hc.
  rewrite list_lookup_insert_eq by (eapply lookup_lt_Some; eauto).
  simpl.
  rewrite list_lookup_insert_eq by (eapply lookup_lt_Some; eauto).
  apply get_set_redirect.
Qed.

Lemma redirect_at_store_other e x y r :
  valid_fd x -> valid_fd y -> x <> y ->
  redirect_at (store_redirect e x r) y = redirect_at e y.
Proof.
  intros Hx Hy Hne. unfold redirect_at, command_at, store_redirect.
  destruct (e !! hr_expr x) as [term|] eqn:He; [|reflexivity].
  destruct (pipe term !! hr_pipe x) as [cm|] eqn:Hc; [|reflexivity].
  destruct (Nat.eq_dec (hr_expr x) (hr_expr y)) as [Ee|Ee].
  - rewrite <- Ee.
    rewrite list_lookup_insert_eq by (eapply lookup_lt_Some; eauto).
    rewrite He. simpl.
    destruct (Nat.eq_dec (hr_pipe x) (hr_pipe y)) as [Ep|Ep].
    + rewrite <- Ep.
      rewrite list_lookup_insert_eq by (eapply lookup_lt_Some; eauto).
      rewrite Hc. apply get_set_redirect_other; try assumption.
      intros Ef. apply Hne. destruct x, y; simpl in *; congruence.
    + rewrite list_lookup_insert_ne by assumption. reflexivity.
  - rewrite list_lookup_insert_ne by assumption. reflexivity.
Qed.

Lemma command_at_store e x y r :
  is_Some (command_at (store_redirect e x r) y) <-> is_Some (command_at e y).
Proof.
  unfold command_at, store_redirect.
  destruct (e !! hr_expr x) as [term|] eqn:He; [|tauto].
  destruct (pipe term !! hr_pipe x) as [cm|] eqn:Hc; [|tauto].
  destruct (Nat.eq_dec (hr_expr x) (hr_expr y)) as [Ee|Ee].
  - rewrite <- Ee.
    rewrite list_lookup_insert_eq by (eapply lookup_lt_Some; eauto).
    rewrite He. simpl.
    destruct (Nat.eq_dec (hr_pipe x) (hr_pipe y)) as [Ep|Ep].
    + rewrite <- Ep.
      rewrite list_lookup_insert_eq by (eapply lookup_lt_Some; eauto).
      rewrite Hc. split; eauto.
    + rewrite list_lookup_insert_ne by assumption. tauto.
  - rewrite list_lookup_insert_ne by assumption. tauto.
Qed.

Lemma redirect_at_command e x r :
  redirect_at e x = Some r -> is_Some (command_at e x).
Proof.
  unfold redirect_at. destruct (command_at e x); [eauto|discriminate].
Qed.

(** The further redirects of a here-document become references to the
    owner and nothing else changes. *)
Lemma make_references_spec owner rest e :
  NoDup rest -> Forall valid_fd rest ->
  (forall x, In x rest -> is_Some (redirect_at e x)) ->
  exists e',
    make_references owner rest e = Done e'
    /\ (forall x, In x rest ->
        exists ir, redirect_at e x = Some ir
                   /\ redirect_at e' x = Some (ref_redirect owner (r_token ir)))
    /\ (forall y, valid_fd y -> ~ In y rest ->
        redirect_at e' y = redirect_at e y).
Proof.
  revert e. induction rest as [|i rest IH]; intros e Hnd Hv Hp.
  - exists e. simpl.
    split; [reflexivity|split; [intros x []|intros; reflexivity]].
  - apply NoDup_cons in Hnd as [Hni Hnd].
    apply Forall_cons in Hv as [Hvi Hv].
    destruct (Hp i (or_introl eq_refl)) as [ir Hir].
    simpl. rewrite Hir.
    set (e1 := store_redirect e i (ref_redirect owner (r_token ir))).
    assert (Hother : forall y, valid_fd y -> y <> i ->
                               redirect_at e1 y = redirect_at e y).
    { intros y Hy Hne. apply redirect_at_store_other; auto. }
    destruct (IH e1 Hnd Hv) as (e' & He' & Hrefs & Hframe).
    { intros x Hx. rewrite Hother.
      - apply Hp. right. assumption.
      - eapply Forall_forall in Hv; [eassumption|].
        apply list_elem_of_In. assumption.
      - intros ->. apply Hni. apply list_elem_of_In. assumption. }
    exists e'. split; [assumption|]. split.
    + intros x [<-|Hx].
      * exists ir. split; [assumption|].
        rewrite Hframe; [|assumption|].
        -- apply redirect_at_store_same.
           eapply redirect_at_command; eauto.
        -- intros Hin. apply Hni. apply list_elem_of_In. assumption.
      * destruct (Hrefs x Hx) as (ir' & H1 & H2).
        exists ir'. split; [|assumption].
        rewrite <- H1. symmetry. apply Hother.
        -- eapply Forall_forall in Hv; [eassumption|].
           apply list_elem_of_In. assumption.
        -- intros ->. apply Hni. apply list_elem_of_In. assumption.
    + intros y Hy Hny. rewrite Hframe; [|assumption|].
      * apply Hother; [assumption|]. intros ->. apply Hny. left. reflexivity.
      * intros Hin. apply Hny. right. assumption.
Qed.

(** One here-document: the first redirect gets the body, the others
    refer to it. *)
Lemma assign_here_doc_spec e h v o rest r :
  redirects h = o :: rest ->
  NoDup (o :: rest) -> Forall valid_fd (o :: rest) ->
  redirect_at e o = Some r ->
  r_type r = (if pd_re v then rt_here_doc_regex else rt_here_doc_literal) ->
  (forall x, In x rest -> is_Some (redirect_at e x)) ->
  exists e',
    assign_here_doc false e h v = Done e'
    /\ redirect_at e' o = Some (with_body r h v)
    /\ (forall x, In x rest ->
        exists ir, redirect_at e x = Some ir
                   /\ redirect_at e' x = Some (ref_redirect o (r_token ir)))
    /\ (forall y, valid_fd y -> ~ In y (o :: rest) ->
        redirect_at e' y = redirect_at e y).
Proof.
  intros Hr Hnd Hv Ho Ht Hp. unfold assign_here_doc. rewrite Hr, Ho, Ht.
  assert (Hrefl : forall rt, redirect_type_eqb rt rt = true)
    by (intros rt; destruct rt; reflexivity).
  rewrite Hrefl. simpl.
  apply NoDup_cons in Hnd as [Hno Hnd].
  apply Forall_cons in Hv as [Hvo Hv].
  set (e1 := store_redirect e o (with_body r h v)).
  assert (Hother : forall y, valid_fd y -> y <> o ->
                             redirect_at e1 y = redirect_at e y).
  { intros y Hy Hne. apply redirect_at_store_other; auto. }
  assert (Hin_ne : forall x, In x rest -> valid_fd x /\ x <> o).
  { intros x Hx. split.
    - eapply Forall_forall in Hv; [eassumption|].
      apply list_elem_of_In. assumption.
    - intros ->. apply Hno. apply list_elem_of_In. assumption. }
  destruct (make_references_spec o rest e1 Hnd Hv) as (e' & He' & Hrefs & Hframe).
  { intros x Hx. destruct (Hin_ne x Hx). rewrite Hother; auto. }
  exists e'. split; [assumption|]. split; [|split].
  - rewrite Hframe; [|assumption|].
    + apply redirect_at_store_same. eapply redirect_at_command; eauto.
    + intros Hin. apply Hno. apply list_elem_of_In. assumption.
  - intros x Hx. destruct (Hrefs x Hx) as (ir & H1 & H2).
    destruct (Hin_ne x Hx). exists ir. split; [|assumption].
    rewrite <- H1. symmetry. apply Hother; assumption.
  - intros y Hy Hny. rewrite Hframe; [|assumption|].
    + apply Hother; [assumption|]. intros ->. apply Hny. left. reflexivity.
    + intros Hin. apply Hny. right. assumption.
Qed.

Lemma make_references_Done owner rest e e' :
  make_references owner rest e = Done e' ->
  NoDup rest -> Forall valid_fd rest ->
  forall x, In x rest -> is_Some (redirect_at e x).
Proof.
  revert e. induction rest as [|i rest IH]; intros e Hd Hnd Hv x Hx;
    [destruct Hx|].
  apply NoDup_cons in Hnd as [Hni Hnd].
  apply Forall_cons in Hv as [Hvi Hv].
  simpl in Hd. destruct (redirect_at e i) as [ir|] eqn:Hir; [|discriminate].
  destruct Hx as [<-|Hx]; [eauto|].
  specialize (IH _ Hd Hnd Hv x Hx).
  rewrite redirect_at_store_other in IH; auto.
  - eapply Forall_forall in Hv; [eassumption|].
    apply list_elem_of_In. assumption.
  - intros ->. apply Hni. apply list_elem_of_In. assumption.
Qed.

Lemma assign_here_doc_Done e h v e' o rest :
  assign_here_doc false e h v = Done e' ->
  redirects h = o :: rest ->
  NoDup (o :: rest) -> Forall valid_fd (o :: rest) ->
  exists r,
    redirect_at e o = Some r
    /\ r_type r = (if pd_re v then rt_here_doc_regex else rt_here_doc_literal)
    /\ forall x, In x rest -> is_Some (redirect_at e x).
Proof.
  unfold assign_here_doc. intros Hd Hr Hnd Hv. rewrite Hr in Hd.
  destruct (redirect_at e o) as [r|] eqn:Ho; [|discriminate].
  destruct (redirect_type_eqb (r_type r) _) eqn:Et; simpl in Hd;
    [|discriminate].
  exists r. split; [reflexivity|]. split.
  - destruct (r_type r), (pd_re v); simpl in Et; congruence.
  - apply NoDup_cons in Hnd as [Hno Hnd].
    apply Forall_cons in Hv as [Hvo Hv].
    intros x Hx.
    pose proof (make_references_Done _ _ _ _ Hd Hnd Hv x Hx) as Hs.
    rewrite redirect_at_store_other in Hs; auto.
    + eapply Forall_forall in Hv; [eassumption|].
      apply list_elem_of_In. assumption.
    + intros ->. apply Hno. apply list_elem_of_In. assumption.
Qed.

(** What [assign_here_doc] leaves alone. *)
Lemma assign_here_doc_frame e h v e' :
  assign_here_doc false e h v = Done e' ->
  NoDup (redirects h) -> Forall valid_fd (redirects h) ->
  forall y, valid_fd y -> ~ In y (redirects h) ->
            redirect_at e' y = redirect_at e y.
Proof.
  intros Hd Hnd Hv y Hy Hny.
  destruct (redirects h) as [|o rest] eqn:Hr.
  - unfold assign_here_doc in Hd. rewrite Hr in Hd. congruence.
  - destruct (assign_here_doc_Done e h v e' o rest Hd Hr Hnd Hv)
      as (r & Ho & Ht & Hp).
    destruct (assign_here_doc_spec e h v o rest r Hr Hnd Hv Ho Ht Hp)
      as (e2 & He2 & _ & _ & Hframe).
    assert (e2 = e') by congruence. subst e2. auto.
Qed.

(** *** No redirect is referenced twice *)

Lemma here_redirect_eqb_spec x y : reflect (x = y) (here_redirect_eqb x y).
Proof.
  unfold here_redirect_eqb. destruct x as [a b c0], y as [a' b' c']; simpl.
  destruct (Nat.eqb_spec a a'); simpl; [|constructor; congruence].
  destruct (Nat.eqb_spec b b'); simpl; [|constructor; congruence].
  destruct (Z.eqb_spec c0 c'); constructor; congruence.
Qed.

Lemma erase_first_Some x rs rs' :
  erase_first x rs = Some rs' -> NoDup rs ->
  ~ In x rs' /\ NoDup rs' /\ forall y, In y rs' -> In y rs.
Proof.
  revert rs'. induction rs as [|r rs IH]; intros rs'; [discriminate|].
  simpl. intros H Hnd. apply NoDup_cons in Hnd as [Hr Hnd].
  destruct (here_redirect_eqb_spec r x) as [->|Hne].
  - injection H as <-. split; [|split; [assumption|auto]].
    intros Hin. apply Hr. apply list_elem_of_In. assumption.
  - destruct (erase_first x rs) as [l|]; [|discriminate].
    injection H as <-. destruct (IH l eq_refl Hnd) as (H1 & H2 & H3).
    split; [|split].
    + intros [E|Hin]; [congruence|auto].
    + apply NoDup_cons. split; [|assumption].
      intros Hin. apply Hr. apply list_elem_of_In. apply H3.
      apply list_elem_of_In. assumption.
    + intros y [<-|Hy]; [left; reflexivity|right; auto].
Qed.

Lemma erase_first_None x rs : erase_first x rs = None -> ~ In x rs.
Proof.
  induction rs as [|r rs IH]; simpl; [tauto|].
  destruct (here_redirect_eqb_spec r x) as [->|Hne]; [discriminate|].
  destruct (erase_first x rs); [discriminate|].
  intros _ [E|Hin]; [congruence|]. apply IH; auto.
Qed.

(** Dropping the reference to an overridden redirect leaves no
    reference to it. *)
Lemma drop_reference_spec x hd :
  NoDup (positions hd) ->
  ~ In x (positions (drop_reference x hd))
  /\ NoDup (positions (drop_reference x hd))
  /\ (forall y, In y (positions (drop_reference x hd)) -> In y (positions hd))
  /\ map end_ (drop_reference x hd) = map end_ hd.
Proof.
  unfold positions. induction hd as [|d hd IH]; intros Hnd.
  - simpl. split; [tauto|]. split; [constructor|]. split; [tauto|reflexivity].
  - simpl in Hnd. apply NoDup_app in Hnd as (H1 & H2 & H3).
    simpl. destruct (erase_first x (redirects d)) as [rs|] eqn:E.
    + destruct (erase_first_Some _ _ _ E H1) as (Ha & Hb & Hc).
      simpl. split; [|split; [|split]].
      * intros Hin. apply in_app_or in Hin as [Hin|Hin]; [auto|].
        assert (Hx : In x (redirects d)).
        { clear -E. revert rs E. induction (redirects d) as [|r l IH];
            intros rs E; [discriminate|]. simpl in E.
          destruct (here_redirect_eqb_spec r x) as [->|Hne];
            [left; reflexivity|].
          destruct (erase_first x l); [|discriminate].
          right. eapply IH. reflexivity. }
        apply (H2 x); apply list_elem_of_In; assumption.
      * apply NoDup_app. split; [assumption|]. split; [|assumption].
        intros y Hy Hin. apply (H2 y); [|assumption].
        apply list_elem_of_In. apply Hc. apply list_elem_of_In. assumption.
      * intros y Hy. apply in_app_or in Hy as [Hy|Hy];
          apply in_or_app; [left; auto|right; assumption].
      * reflexivity.
    + destruct (IH H3) as (Ha & Hb & Hc & Hd).
      simpl. split; [|split; [|split]].
      * intros Hin. apply in_app_or in Hin as [Hin|Hin]; [|auto].
        apply (erase_first_None _ _ E Hin).
      * apply NoDup_app. split; [assumption|]. split; [|assumption].
        intros y Hy Hin. apply (H2 y); [assumption|].
        apply list_elem_of_In. apply Hc. apply list_elem_of_In. assumption.
      * intros y Hy. apply in_app_or in Hy as [Hy|Hy];
          apply in_or_app; [left; assumption|right; auto].
      * congruence.
Qed.

Lemma pending_of_doc rt fd pn fd' :
  pending_of rt fd p_none = Some pn ->
  pending_doc_fd pn = Some fd' -> fd' = Z.of_N fd.
Proof.
  destruct rt; simpl; try discriminate;
    try (intros [= <-]; simpl; discriminate);
    destruct fd as [|[[q|q|]|[q|q|]|]]; simpl;
    intros H1 H2; inversion H1; subst; simpl in H2;
    inversion H2; reflexivity.
Qed.

(** In the execute pass, after a redirect is accepted on a descriptor
    of the current command no here-document refers to that place any
    more, so that the end marker that may follow adds a new place. *)
Lemma parse_redirect_unreferenced st t tt st' back :
  pre_parse_ st = false ->
  parse_redirect st t tt = Done st' ->
  last (expr st) = Some back ->
  NoDup (positions (hd st)) ->
  (forall fd, In (mk_here_redirect (length (expr st) - 1)
                    (length (pipe back)) fd) (positions (hd st)) ->
              is_here_doc (c st) fd = true) ->
  NoDup (positions (hd st'))
  /\ (forall y, In y (positions (hd st')) -> In y (positions (hd st)))
  /\ exists fd,
       is_Some (get_redirect (c st') fd)
       /\ ~ In (mk_here_redirect (length (expr st) - 1)
                  (length (pipe back)) fd) (positions (hd st'))
       /\ forall fd', pending_doc_fd (p st') = Some fd' -> fd' = fd.
Proof.
  intros Hpre H Hl Hnd Href. unfold parse_redirect in H.
  destruct (is_alias tt); [discriminate|].
  destruct (p st) eqn:Hp; simpl in H; try discriminate.
  destruct (String.eqb (mod_ st) ""); simpl in H; [|discriminate].
  destruct (explicit_fd t (arguments (c st))) as [[fd0 args]|d|];
    try discriminate.
  destruct (validate_fd tt fd0 (expr st)) as [fd|d|] eqn:Hv; try discriminate.
  destruct (redirect_type_of tt (t_value t)) as [rt|]; [|discriminate].
  destruct (pending_of rt fd p_none) as [pn|] eqn:Hpn; [|discriminate].
  rewrite Hpre, Hl in H. simpl in H.
  set (c0 := mk_command (program (c st)) args (c_in (c st)) (c_out (c st))
               (c_err (c st))) in *.
  assert (Hc0 : get_redirect c0 (Z.of_N fd) = get_redirect (c st) (Z.of_N fd))
    by reflexivity.
  set (x := mk_here_redirect (length (expr st) - 1) (length (pipe back))
              (Z.of_N fd)) in *.
  pose proof (pending_of_doc rt fd pn) as Hpend. specialize (Hpend).
  assert (Hpend' : forall fd', pending_doc_fd pn = Some fd' -> fd' = Z.of_N fd)
    by (intros fd'; apply Hpend; assumption).
  clear Hpend. rename Hpend' into Hpend.
  destruct (match get_redirect c0 (Z.of_N fd) with
            | Some r => Some (r_type r)
            | None => None
            end) as [o|] eqn:Ho.
  - destruct (redirect_type_eqb o rt_here_doc_literal
              || redirect_type_eqb o rt_here_doc_regex) eqn:Ed.
    + injection H as <-. simpl.
      destruct (drop_reference_spec x (hd st) Hnd) as (Ha & Hb & Hc & _).
      split; [assumption|]. split; [assumption|].
      exists (Z.of_N fd). split; [rewrite get_set_redirect; eauto|].
      split; assumption.
    + injection H as <-. simpl.
      split; [assumption|]. split; [auto|].
      exists (Z.of_N fd). split; [rewrite get_set_redirect; eauto|].
      split; [|assumption].
      intros Hin. specialize (Href _ Hin). unfold is_here_doc in Href.
      rewrite <- Hc0 in Href.
      destruct (get_redirect c0 (Z.of_N fd)) as [r|]; [|discriminate].
      injection Ho as <-. congruence.
  - injection H as <-. simpl.
    split; [assumption|]. split; [auto|].
    exists (Z.of_N fd). split; [rewrite get_set_redirect; eauto|].
    split; [|assumption].
    intros Hin. specialize (Href _ Hin). unfold is_here_doc in Href.
    rewrite <- Hc0 in Href.
    destruct (get_redirect c0 (Z.of_N fd)); discriminate.
Qed.

Lemma positions_app hd1 hd2 :
  positions (hd1 ++ hd2) = positions hd1 ++ positions hd2.
Proof. unfold positions. rewrite map_app, concat_app. reflexivity. Qed.

Lemma add_reference_positions rd e hd l :
  add_reference rd e hd = Some l -> positions l ≡ₚ rd :: positions hd.
Proof.
  revert l. induction hd as [|d hd IH]; intros l; [discriminate|].
  simpl. destruct (String.eqb (end_ d) e).
  - intros [= <-]. unfold positions. simpl.
    rewrite <- app_assoc. simpl. symmetry. apply Permutation_middle.
  - destruct (add_reference rd e hd) as [l'|]; [|discriminate].
    intros [= <-]. unfold positions in *. simpl.
    rewrite (IH l' eq_refl). symmetry. apply Permutation_middle.
Qed.

(** The end marker adds the place of the redirect it follows, once. *)
Lemma parse_here_end_positions st t st' :
  parse_here_end st t = Some (Done st') ->
  exists fd back,
    pending_doc_fd (p st) = Some fd /\ last (expr st) = Some back
    /\ positions (hd st')
       ≡ₚ mk_here_redirect (length (expr st) - 1) (length (pipe back)) fd
          :: positions (hd st).
Proof.
  unfold parse_here_end.
  destruct (pending_doc_fd (p st)) as [fd|]; [|discriminate].
  destruct (negb (is_word (t_type t)) || String.eqb (t_value t) "");
    [discriminate|].
  destruct (last (expr st)) as [back|]; [|discriminate].
  set (rd := mk_here_redirect _ _ fd).
  destruct (if pending_doc_regex (p st) then _ else _) as [[e r]|x|];
    try discriminate.
  intros [= <-]. exists fd, back. split; [reflexivity|].
  split; [reflexivity|]. simpl.
  destruct (add_reference rd e (hd st)) as [l|] eqn:Ea.
  - apply (add_reference_positions _ _ _ _ Ea).
  - rewrite positions_app. unfold positions at 2. simpl.
    symmetry. apply Permutation_cons_append.
Qed.

(** A redirect followed by its end marker keeps the places referenced
    by the here-documents distinct. *)
Lemma here_doc_redirect_distinct st t tt st1 m st2 back :
  pre_parse_ st = false ->
  parse_redirect st t tt = Done st1 ->
  parse_here_end st1 m = Some (Done st2) ->
  last (expr st) = Some back ->
  NoDup (positions (hd st)) ->
  (forall fd, In (mk_here_redirect (length (expr st) - 1)
                    (length (pipe back)) fd) (positions (hd st)) ->
              is_here_doc (c st) fd = true) ->
  NoDup (positions (hd st2)).
Proof.
  intros Hpre H1 H2 Hl Hnd Href.
  destruct (parse_redirect_unreferenced st t tt st1 back Hpre H1 Hl Hnd Href)
    as (Hnd1 & _ & fd & _ & Hfresh & Hpend).
  destruct (parse_here_end_positions st1 m st2 H2)
    as (fd' & back' & Hp & Hl' & Hperm).
  assert (He : expr st1 = expr st).
  { unfold parse_redirect in H1.
    destruct (is_alias tt); [discriminate|].
    destruct (negb _); [discriminate|].
    destruct (explicit_fd _ _) as [[? ?]|?|]; try discriminate.
    destruct (validate_fd _ _ _); try discriminate.
    destruct (redirect_type_of _ _); [|discriminate].
    destruct (pending_of _ _ _); [|discriminate].
    destruct (negb (pre_parse_ st) && _).
    - destruct (last (expr st)); [|discriminate].
      injection H1 as <-. reflexivity.
    - injection H1 as <-. reflexivity. }
  rewrite He, Hl in Hl'. injection Hl' as <-.
  rewrite (Hpend fd' Hp), He in Hperm.
  rewrite Hperm. apply NoDup_cons. split; [|assumption].
  intros Hin. apply Hfresh. apply list_elem_of_In. assumption.
Qed.

(** The end marker as the pre-parser reads it off the tokens: a
    non-empty word, not run into an expansion, unquoted or quoted as a
    whole; literal unless double-quoted; for a regex, the text between
    the introducers. *)
Lemma marker_parts_read t m pk e r :
  is_word (t_type m) = true -> t_value m <> "" ->
  (t_separated pk = true
   \/ (t_type pk <> tk_dollar /\ t_type pk <> tk_lparen)) ->
  (t_qtype m = unquoted
   \/ (t_qcomp m = true /\ (t_qtype m = single \/ t_qtype m = double_))) ->
  (if has_char "~" (t_value t)
   then check_regex_mod (t_value t) (t_value m) = Done tt
        /\ parse_regex (t_value m) = Done r /\ e = rp_value r
   else r = no_regex_parts /\ e = t_value m) ->
  marker_parts t m pk
  = Done (e,
          match t_qtype m with unquoted | single => true | _ => false end,
          r).
Proof.
  intros Hw Hv Hpk Hq Hre. unfold marker_parts.
  rewrite Hw. apply String.eqb_neq in Hv. rewrite Hv. simpl.
  assert (Hp : negb (t_separated pk)
               && match t_type pk with
                  | tk_dollar | tk_lparen => true
                  | _ => false
                  end = false).
  { destruct Hpk as [-> | [H1 H2]]; [reflexivity|].
    destruct (t_type pk); try apply andb_false_r; congruence. }
  rewrite Hp.
  assert (Hqt : effective_quoting m
                = Some (match t_qtype m with
                        | double_ => double_
                        | _ => single
                        end)).
  { unfold effective_quoting.
    destruct Hq as [-> | [-> [-> | ->]]]; reflexivity. }
  rewrite Hqt.
  assert (Hl : is_single (match t_qtype m with double_ => double_ | _ => single end)
               = match t_qtype m with unquoted | single => true | _ => false end).
  { destruct Hq as [-> | [_ [-> | ->]]]; reflexivity. }
  rewrite Hl.
  destruct (has_char "~" (t_value t)).
  - destruct Hre as (-> & -> & ->). reflexivity.
  - destruct Hre as (-> & ->). reflexivity.
Qed.

(** A token that cannot be an end marker fails the pre-parse. *)
Lemma marker_parts_refused t m pk :
  is_word (t_type m) = false \/ t_value m = ""
  \/ (t_separated pk = false
      /\ (t_type pk = tk_dollar \/ t_type pk = tk_lparen))
  \/ t_qtype m = mixed
  \/ (t_qcomp m = false /\ t_qtype m <> unquoted) ->
  is_failed (marker_parts t m pk) = true.
Proof.
  unfold marker_parts.
  destruct (is_word (t_type m)); simpl; [|reflexivity].
  destruct (String.eqb_spec (t_value m) ""); [reflexivity|].
  intros [H|[H|[H|H]]]; try congruence.
  - destruct H as [-> [-> | ->]]; reflexivity.
  - destruct (negb (t_separated pk) && _); [reflexivity|].
    assert (Hq : effective_quoting m = None).
    { unfold effective_quoting.
      destruct H as [-> | [-> Hn]]; [reflexivity|].
      destruct (t_qtype m); congruence. }
    rewrite Hq. reflexivity.
Qed.

(** [add_reference] extends the first here-document with the end
    marker, the one [find_end] gives. *)
Lemma add_reference_find rd e hd :
  match find_end e hd with
  | Some d =>
      exists l1 l2,
        hd = l1 ++ d :: l2 /\ ~ In e (map end_ l1) /\ end_ d = e
        /\ add_reference rd e hd
           = Some (l1 ++ with_redirects d (redirects d ++ [rd]) :: l2)
  | None => ~ In e (map end_ hd) /\ add_reference rd e hd = None
  end.
Proof.
  induction hd as [|x hd IH]; simpl; [tauto|].
  destruct (String.eqb_spec (end_ x) e) as [E|E].
  - exists [], hd. simpl. auto.
  - destruct (find_end e hd) as [d|].
    + destruct IH as (l1 & l2 & -> & Hn & He & Ha).
      exists (x :: l1), l2. rewrite Ha. simpl.
      repeat split; auto. intros [H|H]; auto.
    + destruct IH as [Hn ->]. split; [|reflexivity].
      intros [H|H]; auto.
Qed.

(** The end marker of the execute pass: the place of the redirect it
    follows is added to the here-document with that end marker, the
    first to mention an end marker makes the here-document. *)
Lemma parse_here_end_attaches st t fd back e r :
  pending_doc_fd (p st) = Some fd ->
  is_word (t_type t) = true -> t_value t <> "" ->
  last (expr st) = Some back ->
  (if pending_doc_regex (p st)
   then parse_regex (t_value t) = Done r /\ e = rp_value r
   else r = no_regex_parts /\ e = t_value t) ->
  exists hd1,
    parse_here_end st t
    = Some (Done (mk_state (c st) (expr st) p_none "" hd1 (pre_parse_ st)))
    /\ match find_end e (hd st) with
       | Some d =>
           exists l1 l2,
             hd st = l1 ++ d :: l2 /\ ~ In e (map end_ l1) /\ end_ d = e
             /\ hd1 = l1 ++ with_redirects d
                            (redirects d
                             ++ [mk_here_redirect (length (expr st) - 1)
                                   (length (pipe back)) fd]) :: l2
       | None =>
           ~ In e (map end_ (hd st))
           /\ hd1 = hd st
                    ++ [mk_here_doc
                          [mk_here_redirect (length (expr st) - 1)
                             (length (pipe back)) fd]
                          e
                          (match t_qtype t with
                           | unquoted | single => true
                           | _ => false
                           end)
                          (mod_ st) (rp_intro r) (rp_flags r)]
       end.
Proof.
  intros Hfd Hw Hv Hl Hre. unfold parse_here_end.
  rewrite Hfd, Hw, Hl. apply String.eqb_neq in Hv. rewrite Hv. simpl.
  set (rd := mk_here_redirect _ _ fd).
  assert (Hparts : (if pending_doc_regex (p st)
                    then match parse_regex (t_value t) with
                         | Done r0 => Done (rp_value r0, r0)
                         | Failed x => Failed x
                         | Aborted => Aborted
                         end
                    else Done (t_value t, no_regex_parts))
                   = Done (e, r)).
  { destruct (pending_doc_regex (p st)).
    - destruct Hre as (-> & ->). reflexivity.
    - destruct Hre as (-> & ->). reflexivity. }
  rewrite Hparts.
  pose proof (add_reference_find rd e (hd st)) as Ha.
  destruct (find_end e (hd st)) as [d|].
  - destruct Ha as (l1 & l2 & Hhd & Hn & He & Ha). rewrite Ha.
    eexists. split; [reflexivity|]. exists l1, l2. auto.
  - destruct Ha as [Hn Ha]. rewrite Ha.
    eexists. split; [reflexivity|]. auto.
Qed.

Section HereDocuments.

Variable input : Type.
Variable parse_here_document :
  string -> string -> ascii -> input -> outcome (parsed_doc * input).

Local Abbreviation parse_here_documents :=
  (parse_here_documents input parse_here_document).

Lemma parse_here_documents_cons pre h hd e i :
  parse_here_documents pre (h :: hd) e i
  = match parse_here_document (end_ h) (modifiers h) (regex h) i with
    | Done (v, i1) =>
        match assign_here_doc pre e h v with
        | Done e1 => parse_here_documents pre hd e1 i1
        | Failed x => Failed x
        | Aborted => Aborted
        end
    | Failed x => Failed x
    | Aborted => Aborted
    end.
Proof. reflexivity. Qed.

Lemma NoDup_concat_cons (h : here_doc) (hd : list here_doc) :
  NoDup (concat (map redirects (h :: hd))) ->
  NoDup (redirects h) /\ NoDup (concat (map redirects hd))
  /\ forall x, In x (redirects h) -> ~ In x (concat (map redirects hd)).
Proof.
  simpl. intros H. apply NoDup_app in H as (H1 & H2 & H3).
  split; [assumption|]. split; [assumption|].
  intros x Hx Hin. apply (H2 x); apply list_elem_of_In; assumption.
Qed.

Lemma parse_here_documents_frame hd e i e' i' :
  parse_here_documents false hd e i = Done (e', i') ->
  NoDup (concat (map redirects hd)) ->
  Forall valid_fd (concat (map redirects hd)) ->
  forall y, valid_fd y -> ~ In y (concat (map redirects hd)) ->
            redirect_at e' y = redirect_at e y.
Proof.
  revert e i. induction hd as [|h hd IH]; intros e i Hd Hnd Hv y Hy Hny.
  - simpl in Hd. congruence.
  - apply NoDup_concat_cons in Hnd as (Hn1 & Hn2 & Hdisj).
    simpl in Hv. apply Forall_app in Hv as [Hv1 Hv2].
    rewrite parse_here_documents_cons in Hd.
    destruct (parse_here_document _ _ _ i) as [[v i1]|x|]; try discriminate.
    destruct (assign_here_doc false e h v) as [e1|x|] eqn:Ha;
      try discriminate.
    rewrite (IH e1 i1 Hd Hn2 Hv2 y Hy).
    + apply (assign_here_doc_frame e h v e1 Ha Hn1 Hv1 y Hy).
      intros Hin. apply Hny. simpl. apply in_or_app. auto.
    + intros Hin. apply Hny. simpl. apply in_or_app. auto.
Qed.

(** After [parse_here_documents], the first redirect of every expected
    here-document holds the body parsed for it and each further one is
    a [here_doc_ref] to the first. *)
Lemma parse_here_documents_owner hd e i e' i' :
  parse_here_documents false hd e i = Done (e', i') ->
  NoDup (concat (map redirects hd)) ->
  Forall valid_fd (concat (map redirects hd)) ->
  forall h o rest,
    In h hd -> redirects h = o :: rest ->
    exists r v,
      redirect_at e o = Some r
      /\ redirect_at e' o = Some (with_body r h v)
      /\ forall x, In x rest ->
           exists ir, redirect_at e x = Some ir
                      /\ redirect_at e' x = Some (ref_redirect o (r_token ir)).
Proof.
  revert e i. induction hd as [|h0 hd IH];
    intros e i Hd Hnd Hv h o rest Hin Hr; [destruct Hin|].
  pose proof Hnd as Hnd0.
  apply NoDup_concat_cons in Hnd as (Hn1 & Hn2 & Hdisj).
  pose proof Hv as Hv0.
  simpl in Hv. apply Forall_app in Hv as [Hv1 Hv2].
  rewrite parse_here_documents_cons in Hd.
  destruct (parse_here_document _ _ _ i) as [[v i1]|x|]; try discriminate.
  destruct (assign_here_doc false e h0 v) as [e1|x|] eqn:Ha;
    try discriminate.
  destruct Hin as [<-|Hin].
  - rewrite Hr in Hn1, Hv1.
    destruct (assign_here_doc_Done e h0 v e1 o rest Ha Hr Hn1 Hv1)
      as (r & Ho & Ht & Hp).
    destruct (assign_here_doc_spec e h0 v o rest r Hr Hn1 Hv1 Ho Ht Hp)
      as (e2 & He2 & Hown & Hrefs & _).
    assert (e2 = e1) by congruence. subst e2.
    assert (Hkeep : forall y, In y (o :: rest) ->
                              redirect_at e' y = redirect_at e1 y).
    { intros y Hy.
      apply (parse_here_documents_frame hd e1 i1 e' i' Hd Hn2 Hv2).
      - eapply Forall_forall in Hv1; [eassumption|].
        apply list_elem_of_In. assumption.
      - apply Hdisj. rewrite Hr. assumption. }
    exists r, v. split; [assumption|]. split.
    + rewrite Hkeep by (left; reflexivity). assumption.
    + intros x Hx. destruct (Hrefs x Hx) as (ir & H1 & H2).
      exists ir. split; [assumption|].
      rewrite Hkeep by (right; assumption). assumption.
  - destruct (IH e1 i1 Hd Hn2 Hv2 h o rest Hin Hr) as (r & v' & Ho & Hown & Hrefs).
    assert (Hpos : forall y, In y (o :: rest) ->
                             valid_fd y /\ ~ In y (redirects h0)).
    { intros y Hy.
      assert (Hc : In y (concat (map redirects hd))).
      { apply in_concat. exists (redirects h). split.
        - apply in_map. assumption.
        - rewrite Hr. assumption. }
      split.
      - eapply Forall_forall in Hv2; [eassumption|].
        apply list_elem_of_In. assumption.
      - intros Hy0. apply (Hdisj y Hy0 Hc). }
    assert (Hsame : forall y, In y (o :: rest) ->
                              redirect_at e1 y = redirect_at e y).
    { intros y Hy. destruct (Hpos y Hy) as [Hvy Hny].
      apply (assign_here_doc_frame e h0 v e1 Ha Hn1 Hv1 y Hvy Hny). }
    exists r, v'. split.
    + rewrite <- Hsame by (left; reflexivity). assumption.
    + split; [assumption|].
      intros x Hx. destruct (Hrefs x Hx) as (ir & H1 & H2).
      exists ir. split; [|assumption].
      rewrite <- Hsame by (right; assumption). assumption.
Qed.


End HereDocuments.

(** A descriptor word of 3 before [>] is refused. *)
Lemma redirects_validated_witness :
  p (mk_state (mk_command "cat" ["3"] None None None) [mk_term log_or []]
       p_none "" [] false) = p_none
  /\ is_failed
       (parse_redirect
          (mk_state (mk_command "cat" ["3"] None None None)
             [mk_term log_or []] p_none "" [] false)
          (mk_token tk_out_file_cmp "" false unquoted false)
          tk_out_file_cmp) = true.
Proof.
  split; [reflexivity|].
  apply (proj1 (proj2 (proj2
           (redirects_validated
              (mk_state (mk_command "cat" ["3"] None None None)
                 [mk_term log_or []] p_none "" [] false)
              (mk_token tk_out_file_cmp "" false unquoted false)
              tk_out_file_cmp eq_refl eq_refl))));
    [reflexivity|reflexivity|].
  intros s fd [= <-] Hs. vm_compute in Hs. injection Hs as <-. reflexivity.
Defined.



(** C8: in [if; A; elif; B; end] with the first condition true, the
    branch [A] runs and the lines from [elif] on are skipped, but [li]
    ends at 4: the [elif] line that ends the branch taken is not
    counted, while the same lines with the second condition true end
    with [li] at 5, one past the four command lines. *)
Theorem exec_lines_elif_not_counted :
  exec_lines (fun _ => Normal tt) (fun _ _ _ => Normal tt)
    (fun line _ => Normal (Nat.eqb line 0)) 10
    [lt_cmd_if; lt_cmd; lt_cmd_elif; lt_cmd; lt_cmd_end] 0 5 (mk_exec 1 [])
  = (Returned true, mk_exec 4 [ev_if 0 1; ev_cmd 1 2 false])
  /\ exec_lines (fun _ => Normal tt) (fun _ _ _ => Normal tt)
       (fun line _ => Normal (Nat.eqb line 2)) 10
       [lt_cmd_if; lt_cmd; lt_cmd_elif; lt_cmd; lt_cmd_end] 0 5
       (mk_exec 1 [])
     = (Returned true, mk_exec 5 [ev_if 0 1; ev_if 2 3; ev_cmd 3 4 false])
  /\ (1 + count_commands
            [lt_cmd_if; lt_cmd; lt_cmd_elif; lt_cmd; lt_cmd_end])%nat = 5%nat.
Proof. repeat split. Qed.

(** *** Regular expressions *)

Import StringFacts.

Lemma find_char_Some c s n :
  find_char c s = Some n ->
  exists a b, s = a +:+ String c b /\ String.length a = n
              /\ has_char c a = false.
Proof.
  revert n. induction s as [|x s IH]; intros n; [discriminate|]. simpl.
  destruct (Ascii.eqb x c) eqn:Hx.
  - intros [= <-]. apply Ascii.eqb_eq in Hx as ->.
    exists EmptyString, s. repeat split.
  - destruct (find_char c s) as [m|]; [|discriminate]. intros [= <-].
    destruct (IH m eq_refl) as (a & b & -> & <- & Ha).
    exists (String x a), b. repeat split. simpl. rewrite Hx, Ha. reflexivity.
Qed.

Lemma find_char_app c a b :
  has_char c a = false ->
  find_char c (a +:+ String c b) = Some (String.length a).
Proof.
  intros Ha. induction a as [|x a IH].
  - rewrite append_nil_l. simpl. rewrite Ascii.eqb_refl. reflexivity.
  - simpl in Ha. apply orb_false_iff in Ha as [Hx Ha].
    rewrite append_cons. simpl. rewrite Hx, (IH Ha). reflexivity.
Qed.

Lemma substring_all s : substring 0 (String.length s) s = s.
Proof.
  rewrite <- (append_nil_r s) at 2. apply substring_prefix.
Qed.

Lemma substring_suffix a b :
  substring (String.length a) (String.length b) (a +:+ b) = b.
Proof.
  induction a as [|x a IH].
  - rewrite append_nil_l. apply substring_all.
  - rewrite append_cons. simpl. exact IH.
Qed.

Lemma split_flags_spec s f r :
  split_flags s = (f, r) ->
  s = f +:+ r /\ all_flags f = true
  /\ match r with
     | String x _ => Ascii.eqb x "d" || Ascii.eqb x "i" = false
     | EmptyString => True
     end.
Proof.
  revert f r. induction s as [|x s IH]; intros f r; simpl.
  - intros [= <- <-]. repeat split.
  - destruct (Ascii.eqb x "d" || Ascii.eqb x "i") eqn:Hx.
    + destruct (split_flags s) as [f0 r0]. intros [= <- <-].
      destruct (IH f0 r0 eq_refl) as (-> & Hf & Hr).
      repeat split; [|exact Hr]. simpl. rewrite Hx, Hf. reflexivity.
    + intros [= <- <-]. repeat split. exact Hx.
Qed.

Lemma split_flags_all f : all_flags f = true -> split_flags f = (f, EmptyString).
Proof.
  induction f as [|x f IH]; [reflexivity|]. simpl.
  intros H. apply andb_true_iff in H as [Hx Hf].
  rewrite Hx, (IH Hf). reflexivity.
Qed.

(** X9: what [parse_regex] accepts has the shape its comment gives:
    the introducer, a non-empty value without the introducer in it,
    the introducer again, and flags from the set {di}; the three
    parts returned put together give the input back, up to what
    follows an embedded NUL. *)
Theorem parse_regex_sound s r :
  parse_regex s = Done r ->
  rp_value r <> EmptyString
  /\ has_char (rp_intro r) (rp_value r) = false
  /\ all_flags (rp_flags r) = true
  /\ exists junk,
       s = String (rp_intro r)
             (rp_value r +:+ String (rp_intro r) (rp_flags r +:+ junk))
       /\ (junk = EmptyString \/ exists t, junk = String "000" t).
Proof.
  unfold parse_regex. destruct s as [|i rest]; [discriminate|].
  destruct (find_char i rest) as [rn|] eqn:Hf; [|discriminate].
  destruct (find_char_Some _ _ _ Hf) as (v & b & -> & <- & Hv).
  destruct (Nat.eqb_spec (String.length v) 0) as [|Hn]; [discriminate|].
  rewrite substring_prefix.
  replace (S (String.length v))
    with (String.length (v +:+ String i EmptyString))
    by (rewrite length_app_string; simpl; lia).
  replace (String.length (v +:+ String i b)
           - String.length (v +:+ String i EmptyString))%nat
    with (String.length b) by (rewrite !length_app_string; simpl; lia).
  replace (v +:+ String i b) with ((v +:+ String i EmptyString) +:+ b)
    by (norm_app; reflexivity).
  rewrite substring_suffix.
  destruct (split_flags b) as [fl junk] eqn:Hs.
  destruct (split_flags_spec _ _ _ Hs) as (-> & Hfl & _).
  assert (Hv0 : v <> EmptyString) by (destruct v; [simpl in Hn; lia|discriminate]).
  destruct junk as [|x t].
  - intros [= <-]. simpl. repeat split; auto.
    exists EmptyString. split; [norm_app; reflexivity|left; reflexivity].
  - destruct (Ascii.eqb_spec x "000") as [->|]; [|discriminate]. cbn [negb].
    intros [= <-]. simpl. repeat split; auto.
    exists (String "000" t). split; [norm_app; reflexivity|right; eauto].
Qed.

(** X10: and everything of that shape is accepted: a non-empty value
    without the introducer in it, framed by the introducer and
    followed by flags from {di}, parses into just these parts. *)
Theorem parse_regex_complete i v fl :
  v <> EmptyString -> has_char i v = false -> all_flags fl = true ->
  parse_regex (String i (v +:+ String i fl)) = Done (mk_regex_parts v i fl).
Proof.
  intros Hv Hi Hfl. unfold parse_regex.
  rewrite (find_char_app _ _ _ Hi).
  destruct (Nat.eqb_spec (String.length v) 0) as [E|_].
  { destruct v; [congruence|discriminate]. }
  rewrite substring_prefix.
  replace (S (String.length v))
    with (String.length (v +:+ String i EmptyString))
    by (rewrite length_app_string; simpl; lia).
  replace (String.length (v +:+ String i fl)
           - String.length (v +:+ String i EmptyString))%nat
    with (String.length fl) by (rewrite !length_app_string; simpl; lia).
  replace (v +:+ String i fl) with ((v +:+ String i EmptyString) +:+ fl)
    by (norm_app; reflexivity).
  rewrite substring_suffix, (split_flags_all _ Hfl). reflexivity.
Qed.

Lemma parse_regex_sound_witness :
  rp_value (mk_regex_parts "foo" "/" "id") <> EmptyString
  /\ has_char "/" "foo" = false
  /\ all_flags "id" = true
  /\ exists junk,
       "/foo/id" = String "/" ("foo" +:+ String "/" ("id" +:+ junk))
       /\ (junk = EmptyString \/ exists t, junk = String "000" t).
Proof.
  apply (parse_regex_sound "/foo/id" (mk_regex_parts "foo" "/" "id")).
  reflexivity.
Defined.

Lemma parse_regex_complete_witness :
  parse_regex "/foo/id" = Done (mk_regex_parts "foo" "/" "id").
Proof.
  apply (parse_regex_complete "/" "foo" "id");
    first [discriminate | reflexivity].
Defined.

(** *** Words after a redirect *)

(** What a successful [parse_redirect] leaves: the descriptor is 0, 1
    or 2, the redirect stored for it is a fresh one of the token's
    type that keeps the token, and the pending position is the one of
    that type and descriptor. *)
Lemma parse_redirect_pending st t tt st' :
  parse_redirect st t tt = Done st' ->
  exists fd rt r,
    (fd <= 2)%N
    /\ (in_family tt = true -> fd = 0%N)
    /\ (out_family tt = true -> fd <> 0%N)
    /\ redirect_type_of tt (t_value t) = Some rt
    /\ pending_of rt fd p_none = Some (p st')
    /\ get_redirect (c st') (Z.of_N fd) = Some r
    /\ r_type r = rt /\ r_token r = Some t
    /\ r_fd r = 0%Z /\ r_str r = EmptyString
    /\ mod_ st' = t_value t
    /\ expr st' = expr st /\ pre_parse_ st' = pre_parse_ st.
Proof.
  unfold parse_redirect.
  destruct (is_alias tt) eqn:Ha; [discriminate|].
  destruct (p st) eqn:Hp; simpl; try discriminate.
  destruct (String.eqb_spec (mod_ st) "") as [Hm|Hm]; simpl; [|discriminate].
  destruct (explicit_fd t (arguments (c st))) as [[fd0 args]|d|] eqn:He;
    try discriminate.
  destruct (validate_fd tt fd0 (expr st)) as [fd|d|] eqn:Hv; try discriminate.
  destruct (redirect_type_of tt (t_value t)) as [rt|] eqn:Hrt; [|discriminate].
  destruct (pending_of rt fd p_none) as [pn|] eqn:Hpn; [|discriminate].
  intros H.
  assert (Hfd0 : (fd0 <= 3)%N).
  { destruct (t_separated t) eqn:Hs.
    - rewrite (explicit_fd_separated _ _ Hs) in He. injection He as <- _. lia.
    - destruct (explicit_fd_Done _ _ _ _ Hs He) as (_ & _ & _ & Hle & _). lia. }
  destruct (validate_fd_Done _ _ _ _ Hv) as [Hin Hout].
  assert (Hfam : in_family tt = true \/ out_family tt = true).
  { destruct tt; simpl; auto; simpl in Hrt; injection Hrt as <-;
      discriminate. }
  exists fd, rt.
  exists (match rt with
          | rt_file =>
              with_file_mode (with_token (new_redirect rt) t)
                (file_mode_of tt)
          | _ => with_token (new_redirect rt) t
          end).
  assert (Hst : c st' = set_redirect
                          (mk_command (program (c st)) args (c_in (c st))
                             (c_out (c st)) (c_err (c st)))
                          (Z.of_N fd)
                          (Some (match rt with
                                 | rt_file =>
                                     with_file_mode
                                       (with_token (new_redirect rt) t)
                                       (file_mode_of tt)
                                 | _ => with_token (new_redirect rt) t
                                 end))
                /\ p st' = pn /\ mod_ st' = t_value t
                /\ expr st' = expr st /\ pre_parse_ st' = pre_parse_ st).
  { destruct (negb (pre_parse_ st) && _).
    - destruct (last (expr st)); [|discriminate].
      injection H as <-. repeat split.
    - injection H as <-. repeat split. }
  destruct Hst as (Hc & Hp' & Hm' & He' & Hpp').
  split.
  { destruct Hfam as [Hi|Ho].
    - destruct (Hin Hi) as (-> & _). lia.
    - destruct (Hout Ho) as (_ & [[-> ->]|[Hn ->]]); lia. }
  split; [intros Hi; apply (Hin Hi)|].
  split; [intros Ho; apply (Hout Ho)|].
  split; [reflexivity|]. split; [congruence|].
  split; [rewrite Hc; apply get_set_redirect|].
  repeat split; try assumption; destruct rt; reflexivity.
Qed.

Lemma check_pending_Done p0 : check_pending p0 = Done tt <-> p0 = p_none.
Proof. destruct p0; simpl; split; intros H; first [reflexivity|discriminate]. Qed.

Lemma pending_of_none rt fd pn :
  (fd <= 2)%N -> pending_of rt fd p_none = Some pn ->
  (pn = p_none <-> rt = rt_pass \/ rt = rt_null \/ rt = rt_trace).
Proof.
  intros Hfd H.
  assert (Hcases : fd = 0%N \/ fd = 1%N \/ fd = 2%N) by lia.
  destruct rt; simpl in H;
    try (injection H as <-; split; [auto|reflexivity]);
    try discriminate;
    destruct Hcases as [ -> | [ -> | -> ] ]; simpl in H;
    try discriminate; injection H as <-;
    (split; [discriminate|intros [E|[E|E]]; discriminate]).
Qed.

Lemma redirect_type_of_plain ty m rt :
  redirect_type_of ty m = Some rt ->
  in_family ty = true \/ out_family ty = true ->
  (rt = rt_pass \/ rt = rt_null \/ rt = rt_trace <-> no_operand ty = true).
Proof.
  intros H Hfam.
  destruct ty; simpl in H, Hfam |- *;
    try (destruct Hfam; discriminate);
    try (destruct (has_char "~" m); try discriminate);
    injection H as <-;
    (split; [intros [E|[E|E]]; first [reflexivity|discriminate]
            |intros E; first [discriminate|auto]]).
Qed.

(** X11: a redirect that takes an operand cannot end the command: after
    a successful [parse_redirect], [check_pending] passes exactly for
    the pass, null and trace redirects; for a merge, here-string,
    here-document or file redirect it fails until the word has been
    added. *)
Theorem redirect_needs_operand st t ty st' :
  parse_redirect st t ty = Done st' ->
  (check_pending (p st') = Done tt <-> no_operand ty = true).
Proof.
  intros H.
  destruct (parse_redirect_pending _ _ _ _ H)
    as (fd & rt & r & Hfd & _ & _ & Hrt & Hpn & _).
  assert (Hfam : in_family ty = true \/ out_family ty = true).
  { destruct ty; simpl; auto; simpl in Hrt; injection Hrt as <-;
      simpl in Hpn; discriminate. }
  rewrite check_pending_Done, (pending_of_none _ _ _ Hfd Hpn).
  apply (redirect_type_of_plain _ _ _ Hrt Hfam).
Qed.

Lemma redirect_needs_operand_witness :
  check_pending p_out_file = Done tt <-> no_operand tk_out_file_ovr = true.
Proof.
  apply (redirect_needs_operand
           (mk_state new_command [mk_term log_or []] p_none "" [] true)
           (mk_token tk_out_file_ovr "" true unquoted true)
           tk_out_file_ovr
           (mk_state
              (set_redirect new_command 1
                 (Some (with_file_mode
                          (with_token (new_redirect rt_file)
                             (mk_token tk_out_file_ovr "" true unquoted true))
                          fm_overwrite)))
              [mk_term log_or []] p_out_file "" [] true)).
  reflexivity.
Defined.

Section AddWord.

Variable valid_path : string -> bool.
Variable normalize : string -> string.
Variable regex_line : string -> string -> string.

Local Abbreviation add_word := (add_word valid_path normalize regex_line).

Lemma get_redirect_fd c0 :
  get_redirect c0 0 = c_in c0 /\ get_redirect c0 1 = c_out c0
  /\ get_redirect c0 2 = c_err c0.
Proof. repeat split. Qed.

(** X12: a merge redirect can only name the other stream: after
    [parse_redirect] has taken a merge token, the next word is
    accepted only if [stoi] reads all of it as 2 for stdout and as 1
    for stderr; the redirect then carries that descriptor and nothing
    is left pending. *)
Theorem merge_names_other_stream st t st1 w st2 cl :
  parse_redirect st t tk_out_merge = Done st1 ->
  add_word w st1 = Done (st2, cl) ->
  exists fd r,
    (fd = 1 \/ fd = 2)%Z
    /\ stoi w = Some ((3 - fd)%Z, String.length w)
    /\ get_redirect (c st2) fd = Some r
    /\ r_type r = rt_merge /\ r_fd r = (3 - fd)%Z
    /\ p st2 = p_none /\ mod_ st2 = EmptyString /\ cl = None.
Proof.
  intros H1 H2.
  destruct (parse_redirect_pending _ _ _ _ H1)
    as (fd & rt & r & Hfd & _ & Hout & Hrt & Hpn & Hget & Hty & _).
  simpl in Hrt. injection Hrt as <-. specialize (Hout eq_refl).
  assert (Hcases : fd = 1%N \/ fd = 2%N) by lia.
  unfold Script.add_word in H2.
  destruct Hcases as [ -> | -> ]; simpl in Hpn; injection Hpn as Hp;
    rewrite <- Hp in H2; simpl in Hget.
  - exists 1%Z, (with_fd r 2).
    change (get_redirect (c st1) 1) with (c_out (c st1)) in Hget.
    rewrite Hget in H2. unfold redirected, add_merge in H2.
    destruct (stoi w) as [[v n]|] eqn:Hs; [|discriminate].
    destruct (Z.eqb_spec v 2) as [->|]; [|discriminate].
    destruct (Nat.eqb_spec n (String.length w)) as [->|]; [|discriminate].
    simpl in H2. injection H2 as <- <-.
    repeat split; auto.
  - exists 2%Z, (with_fd r 1).
    change (get_redirect (c st1) 2) with (c_err (c st1)) in Hget.
    rewrite Hget in H2. unfold redirected, add_merge in H2.
    destruct (stoi w) as [[v n]|] eqn:Hs; [|discriminate].
    destruct (Z.eqb_spec v 1) as [->|]; [|discriminate].
    destruct (Nat.eqb_spec n (String.length w)) as [->|]; [|discriminate].
    simpl in H2. injection H2 as <- <-.
    repeat split; auto.
Qed.

(** X13: a here-string gets its newline from the redirect's own
    modifiers: after [parse_redirect] has taken a literal here-string
    token, [add_word] stores the next word in the redirect of that
    descriptor, followed by a newline unless the token's modifiers
    hold a colon, and leaves nothing pending. *)
Theorem here_string_newline st t ty st1 w :
  parse_redirect st t ty = Done st1 ->
  ty = tk_in_str \/ ty = tk_out_str ->
  has_char "~" (t_value t) = false ->
  exists fd r st2,
    add_word w st1 = Done (st2, None)
    /\ (fd = 0 \/ fd = 1 \/ fd = 2)%Z
    /\ get_redirect (c st2) fd = Some r
    /\ r_type r = rt_here_str_literal
    /\ r_str r = (if has_char ":" (t_value t) then w
                  else w +:+ String "010" EmptyString)
    /\ p st2 = p_none /\ mod_ st2 = EmptyString.
Proof.
  intros H1 Hty Hre.
  destruct (parse_redirect_pending _ _ _ _ H1)
    as (fd & rt & r & Hfd & _ & _ & Hrt & Hpn & Hget & Hrty & Htok & _).
  assert (rt = rt_here_str_literal) as ->.
  { destruct Hty as [ -> | -> ]; simpl in Hrt; rewrite Hre in Hrt;
      congruence. }
  assert (Hmod : r_modifiers r = t_value t).
  { unfold r_modifiers. rewrite Htok. reflexivity. }
  assert (Hcases : fd = 0%N \/ fd = 1%N \/ fd = 2%N) by lia.
  unfold Script.add_word.
  destruct Hcases as [ -> | [ -> | -> ] ]; simpl in Hpn; injection Hpn as Hp;
    rewrite <- Hp; simpl in Hget.
  - change (get_redirect (c st1) 0) with (c_in (c st1)) in Hget.
    rewrite Hget. simpl. rewrite Hmod.
    eexists 0%Z, _, _. split; [reflexivity|].
    split; [auto|]. split; [reflexivity|]. simpl.
    destruct (has_char ":" (t_value t)); repeat split; auto.
  - change (get_redirect (c st1) 1) with (c_out (c st1)) in Hget.
    rewrite Hget. simpl. rewrite Hmod.
    eexists 1%Z, _, _. split; [reflexivity|].
    split; [auto|]. split; [reflexivity|]. simpl.
    destruct (has_char ":" (t_value t)); repeat split; auto.
  - change (get_redirect (c st1) 2) with (c_err (c st1)) in Hget.
    rewrite Hget. simpl. rewrite Hmod.
    eexists 2%Z, _, _. split; [reflexivity|].
    split; [auto|]. split; [reflexivity|]. simpl.
    destruct (has_char ":" (t_value t)); repeat split; auto.
Qed.

End AddWord.

(** [cmd >&2]: the word after the merge token is the descriptor of
    stderr. *)
Lemma merge_names_other_stream_witness :
  exists fd, (fd = 1 \/ fd = 2)%Z
             /\ stoi "2" = Some ((3 - fd)%Z, String.length "2").
Proof.
  destruct (merge_names_other_stream (fun _ => true) (fun f => f)
              (fun v _ => v)
              (mk_state new_command [mk_term log_or []] p_none "" [] false)
              (mk_token tk_out_merge "" true unquoted true)
              _ "2" _ _ eq_refl eq_refl)
    as (fd & r & Hfd & Hs & _).
  exists fd. split; [exact Hfd|exact Hs].
Defined.

(** [cmd <:foo]: the colon suppresses the newline. *)
Lemma here_string_newline_witness :
  exists fd r st2,
    add_word (fun _ => true) (fun f => f) (fun v _ => v) "foo"
      (mk_state
         (set_redirect new_command 0
            (Some (with_token (new_redirect rt_here_str_literal)
                     (mk_token tk_in_str ":" true unquoted true))))
         [mk_term log_or []] p_in_string ":" [] false)
    = Done (st2, None)
    /\ (fd = 0 \/ fd = 1 \/ fd = 2)%Z
    /\ get_redirect (c st2) fd = Some r
    /\ r_type r = rt_here_str_literal
    /\ r_str r = "foo"
    /\ p st2 = p_none /\ mod_ st2 = EmptyString.
Proof.
  apply (here_string_newline (fun _ => true) (fun f => f) (fun v _ => v)
           (mk_state new_command [mk_term log_or []] p_none "" [] false)
           (mk_token tk_in_str ":" true unquoted true) tk_in_str);
    [reflexivity|left; reflexivity|reflexivity].
Defined.

(** *** Exit status *)

Lemma digit_not_space x : is_digit x = true -> is_space x = false.
Proof.
  unfold is_digit, is_space. intros H.
  apply andb_true_iff in H as [H1 H2].
  apply Nat.leb_le in H1. apply Nat.leb_le in H2.
  apply orb_false_iff. split.
  - apply Nat.eqb_neq. lia.
  - apply andb_false_iff. right. apply Nat.leb_gt. lia.
Qed.

Lemma digit_not_sign x :
  is_digit x = true -> x <> "-"%char /\ x <> "+"%char.
Proof.
  intros H. split; intros ->; vm_compute in H; discriminate.
Qed.

Lemma leading_digits_app ds junk : forall acc,
  digits_only ds = true -> starts_with_digit junk = false ->
  leading_digits (ds +:+ junk) acc = leading_digits ds acc.
Proof.
  induction ds as [|x ds IH]; intros acc Hd Hj.
  - rewrite append_nil_l. destruct junk as [|y junk]; [reflexivity|].
    simpl in *. rewrite Hj. reflexivity.
  - simpl in Hd. apply andb_true_iff in Hd as [Hx Hd].
    rewrite append_cons. simpl. rewrite Hx, (IH _ Hd Hj). reflexivity.
Qed.

Lemma stoul_app ds junk :
  ds <> EmptyString -> digits_only ds = true ->
  starts_with_digit junk = false ->
  stoul (ds +:+ junk) = stoul ds.
Proof.
  intros Hne Hd Hj. destruct ds as [|x ds]; [congruence|].
  simpl in Hd. apply andb_true_iff in Hd as [Hx Hd].
  pose proof (digit_not_space x Hx) as Hsp.
  destruct (digit_not_sign x Hx) as [Hm Hp].
  unfold stoul. rewrite append_cons. simpl skip_spaces. rewrite Hsp.
  assert (Hsign : forall r : string,
            match String x r with
            | String "-"%char r0 => (true, r0, 1%nat)
            | String "+"%char r0 => (false, r0, 1%nat)
            | _ => (false, String x r, 0%nat)
            end = (false, String x r, 0%nat)).
  { intros r. destruct x as [[] [] [] [] [] [] [] []]; try reflexivity;
      congruence. }
  rewrite !Hsign.
  rewrite <- append_cons, leading_digits_app;
    [reflexivity|simpl; rewrite Hx, Hd; reflexivity|exact Hj].
Qed.

Section CommandExit.

Variable name : Type.
Variable simple : name -> bool.
Variable empty : name -> bool.
Variable value : name -> string.

Local Abbreviation parse_command_exit :=
  (parse_command_exit simple empty value).

(** X14: the exit status is the number at the start of the word: what
    follows the digits is not looked at, so a word of digits followed
    by anything that does not start with a digit is taken for the
    status the digits spell, as long as that is below 256. *)
Theorem exit_status_ignores_junk ty n ds junk v k :
  simple n = true -> empty n = false ->
  value n = ds +:+ junk ->
  ds <> EmptyString -> digits_only ds = true ->
  starts_with_digit junk = false ->
  stoul ds = Some (v, k) -> (v <= 255)%N ->
  parse_command_exit false ty [n]
  = Done (mk_command_exit
            (match ty with tk_equal => exit_eq | _ => exit_ne end) v).
Proof.
  intros Hs He Hv Hne Hd Hj Hst Hle. unfold Script.parse_command_exit.
  rewrite Hs, He, Hv, (stoul_app _ _ Hne Hd Hj), Hst. simpl.
  destruct (N.ltb_spec 255 v) as [Hlt|_]; [lia|].
  rewrite N.mod_small by lia. reflexivity.
Qed.

(** X15: an exit status that is accepted fits a byte: while executing
    it is the number [stoul] read from the only name of the chunk, a
    simple and non-empty one, and it is at most 255; while pre-parsing
    nothing is checked and the status is 0. *)
Theorem exit_status_byte pp ty ns ce :
  parse_command_exit pp ty ns = Done ce ->
  (status ce < 256)%N
  /\ (pp = false ->
      exists n v k, ns = [n] /\ simple n = true /\ empty n = false
                    /\ stoul (value n) = Some (v, k) /\ status ce = v)
  /\ (pp = true -> status ce = 0%N).
Proof.
  unfold Script.parse_command_exit. destruct pp; simpl.
  - intros [= <-]. split; [reflexivity|]. split; [discriminate|reflexivity].
  - destruct ns as [|n [|n2 ns]]; simpl; try discriminate.
    destruct (simple n) eqn:Hs; simpl; [|discriminate].
    destruct (empty n) eqn:He; simpl; [discriminate|].
    destruct (stoul (value n)) as [[v k]|] eqn:Hst; simpl; [|discriminate].
    destruct (N.ltb_spec 255 v) as [|Hle]; [discriminate|].
    intros [= <-]. simpl. rewrite N.mod_small by lia.
    split; [lia|]. split; [|discriminate].
    intros _. exists n, v, k. repeat split; auto.
Qed.

End CommandExit.

Lemma exit_status_ignores_junk_witness :
  Script.parse_command_exit (fun _ : string => true)
    (fun n => String.eqb n "") (fun n => n) false tk_equal ["12x"]
  = Done (mk_command_exit exit_eq 12).
Proof.
  apply (exit_status_ignores_junk string (fun _ => true)
           (fun n => String.eqb n "") (fun n => n) tk_equal
           "12x" "12" "x" 12%N 2%nat);
    first [reflexivity | discriminate | vm_compute; discriminate].
Defined.

Lemma exit_status_byte_witness :
  (status (mk_command_exit exit_ne 7) < 256)%N
  /\ (false = false ->
      exists n v k, ["7"] = [n] /\ true = true /\ String.eqb n "" = false
                    /\ stoul n = Some (v, k)
                    /\ status (mk_command_exit exit_ne 7) = v)
  /\ (false = true -> status (mk_command_exit exit_ne 7) = 0%N).
Proof.
  apply (exit_status_byte string (fun _ => true)
           (fun n => String.eqb n "") (fun n => n) false tk_not_equal
           ["7"] (mk_command_exit exit_ne 7)).
  reflexivity.
Defined.

(** *** Here-documents read *)

Lemma substring_split n : forall v,
  (n <= String.length v)%nat ->
  v = substring 0 n v +:+ substring n (String.length v - n) v.
Proof.
  induction n as [|n IH]; intros v Hn.
  - rewrite Nat.sub_0_r, substring_all.
    destruct v; reflexivity.
  - destruct v as [|x v]; [simpl in Hn; lia|]. simpl in Hn.
    simpl. rewrite append_cons. f_equal. apply IH. lia.
Qed.

Lemma substring_length n : forall v,
  (n <= String.length v)%nat -> String.length (substring 0 n v) = n.
Proof.
  induction n as [|n IH]; intros v Hn.
  - destruct v; reflexivity.
  - destruct v as [|x v]; [simpl in Hn; lia|]. simpl in *.
    rewrite IH; [reflexivity|lia].
Qed.

Lemma first_not_blank_prefix v : forall n,
  (n <= String.length v)%nat ->
  (match first_not_blank v with
   | Some i => Nat.leb n i
   | None => true
   end = all_blank (substring 0 n v)).
Proof.
  induction v as [|x v IH]; intros n Hn.
  - destruct n; reflexivity.
  - destruct n as [|n]; [simpl; destruct (is_blank x);
                          [destruct (first_not_blank v)|]; reflexivity|].
    simpl in Hn. simpl. destruct (is_blank x) eqn:Hx; simpl.
    + rewrite <- (IH n) by lia. destruct (first_not_blank v); reflexivity.
    + reflexivity.
Qed.

Lemma end_marker_iff v em n :
  end_marker v em = Some n
  <-> exists sp, v = sp +:+ em /\ all_blank sp = true
                 /\ String.length sp = n.
Proof.
  unfold end_marker. split.
  - destruct (Nat.leb_spec (String.length em) (String.length v)) as [Hle|];
      [|discriminate]. simpl.
    destruct (String.eqb_spec
                (substring (String.length v - String.length em)
                   (String.length em) v) em) as [He|]; [|discriminate].
    pose proof (first_not_blank_prefix v
                  (String.length v - String.length em) ltac:(lia)) as Hb.
    intros H.
    assert (Hn : n = (String.length v - String.length em)%nat
                 /\ all_blank (substring 0 n v) = true).
    { destruct (first_not_blank v) as [i|].
      - destruct (Nat.leb (String.length v - String.length em) i);
          [|discriminate]. injection H as <-. auto.
      - injection H as <-. auto. }
    destruct Hn as [-> Hbl].
    exists (substring 0 (String.length v - String.length em) v).
    split; [|split; [exact Hbl|apply substring_length; lia]].
    etransitivity; [apply (substring_split
                             (String.length v - String.length em)); lia|].
    f_equal.
    replace (String.length v - (String.length v - String.length em))%nat
      with (String.length em) by lia.
    exact He.
  - intros (sp & -> & Hbl & <-).
    rewrite length_app_string.
    replace (String.length sp + String.length em - String.length em)%nat
      with (String.length sp) by lia.
    destruct (Nat.leb_spec (String.length em)
                (String.length sp + String.length em)) as [_|]; [|lia].
    rewrite substring_suffix, String.eqb_refl. simpl.
    pose proof (first_not_blank_prefix (sp +:+ em) (String.length sp)) as Hb.
    rewrite length_app_string, substring_prefix, Hbl in Hb.
    specialize (Hb ltac:(lia)).
    destruct (first_not_blank (sp +:+ em)) as [i|]; [|reflexivity].
    rewrite Hb. reflexivity.
Qed.

(** X16: a word is taken for the end marker of a here-document exactly
    when it is the end marker after spaces and tabs only; the number
    returned is the length of that indentation. *)
Theorem end_marker_spec v em n :
  end_marker v em = Some n
  <-> exists sp, v = sp +:+ em /\ all_blank sp = true
                 /\ String.length sp = n.
Proof. apply end_marker_iff. Qed.

Lemma join_lines_cons a ts :
  join_lines (a :: ts)
  = match ts with
    | [] => a
    | _ => a +:+ String "010" (join_lines ts)
    end.
Proof. destruct ts; reflexivity. Qed.

Lemma join_lines_push a t ts :
  join_lines ((a +:+ String "010" t) :: ts) = join_lines (a :: t :: ts).
Proof.
  rewrite !join_lines_cons. destruct ts as [|t2 ts]; [reflexivity|].
  rewrite join_lines_cons. norm_app. reflexivity.
Qed.

Lemma here_document_loop_text em mod_ stop rest body : forall texts r,
  Forall2 (body_line em) body texts ->
  dl_word stop = Some em ->
  here_document_loop (body ++ stop :: rest) em mod_ "000" (Some r) []
  = Done (body_text (join_lines (r :: texts) +:+ final_newline mod_), rest).
Proof.
  assert (Hem : end_marker em em = Some 0%nat).
  { apply end_marker_iff. exists EmptyString. repeat split. }
  induction body as [|l body IH]; intros texts r Hb Hs.
  - apply Forall2_nil_inv_l in Hb as ->. simpl. rewrite Hs, Hem. simpl.
    unfold finish_document, final_newline. simpl.
    destruct (has_char ":" mod_); simpl; [rewrite append_nil_r|];
      reflexivity.
  - apply Forall2_cons_inv_l in Hb as (s & texts' & [Hw Hj] & Hb & ->).
    simpl. assert (match dl_word l with
                   | Some v => end_marker v em
                   | None => None
                   end = None) as ->.
    { destruct (dl_word l); auto. }
    rewrite Hj. simpl. rewrite (IH texts' _ Hb Hs), join_lines_push.
    reflexivity.
Qed.

Lemma parse_here_document_lines em mod_ stop rest body texts :
  Forall2 (body_line em) body texts ->
  dl_word stop = Some em ->
  parse_here_document em mod_ "000" (body ++ stop :: rest)
  = Done (body_text (join_lines texts +:+ final_newline mod_), rest).
Proof.
  intros Hb Hs. unfold parse_here_document.
  assert (Hem : end_marker em em = Some 0%nat).
  { apply end_marker_iff. exists EmptyString. repeat split. }
  destruct body as [|l body].
  - apply Forall2_nil_inv_l in Hb as ->. simpl. rewrite Hs, Hem. simpl.
    unfold finish_document, final_newline. simpl.
    destruct (has_char ":" mod_); reflexivity.
  - apply Forall2_cons_inv_l in Hb as (s & texts' & [Hw Hj] & Hb & ->).
    simpl. assert (match dl_word l with
                   | Some v => end_marker v em
                   | None => None
                   end = None) as ->.
    { destruct (dl_word l); auto. }
    rewrite Hj. simpl. apply here_document_loop_text; assumption.
Qed.

(** X17: the text of a literal here-document is its lines joined by
    newlines, followed by one more newline unless the modifiers hold a
    colon; the lines after the end marker are left for the caller. *)
Theorem here_document_text em mod_ stop rest body texts :
  Forall2 (body_line em) body texts ->
  dl_word stop = Some em ->
  parse_here_document em mod_ "000" (body ++ stop :: rest)
  = Done (body_text (join_lines texts +:+ final_newline mod_), rest).
Proof. apply parse_here_document_lines. Qed.

(** X18: an empty literal here-document and one that consists of a
    single blank line are read as the same text. *)
Theorem here_document_blank_line em mod_ stop rest :
  dl_word stop = Some em ->
  parse_here_document em mod_ "000" (mk_doc_line None [] :: stop :: rest)
  = parse_here_document em mod_ "000" (stop :: rest).
Proof.
  intros Hs.
  transitivity (Done (body_text (final_newline mod_), rest)).
  - apply (parse_here_document_lines em mod_ stop rest
             [mk_doc_line None []] [EmptyString]); [|exact Hs].
    constructor; [|constructor]. split; [exact I|reflexivity].
  - symmetry.
    apply (parse_here_document_lines em mod_ stop rest [] []);
      [constructor|exact Hs].
Qed.

Lemma end_marker_spec_witness :
  end_marker "  EOF" "EOF" = Some 2%nat
  <-> exists sp, "  EOF" = sp +:+ "EOF" /\ all_blank sp = true
                 /\ String.length sp = 2%nat.
Proof. exact (end_marker_spec "  EOF" "EOF" 2). Defined.

Lemma here_document_text_witness :
  parse_here_document "EOF" "" "000"
    [mk_doc_line None [Some "foo"; Some "bar"]; mk_doc_line None [];
     mk_doc_line (Some "EOF") [Some "EOF"]; mk_doc_line None [Some "next"]]
  = Done (body_text (String.concat (String "010" "") ["foo bar"; ""]
                     +:+ String "010" ""),
          [mk_doc_line None [Some "next"]]).
Proof.
  apply (here_document_text "EOF" "" (mk_doc_line (Some "EOF") [Some "EOF"])
           [mk_doc_line None [Some "next"]]
           [mk_doc_line None [Some "foo"; Some "bar"]; mk_doc_line None []]
           ["foo bar"; ""]).
  - repeat constructor.
  - reflexivity.
Defined.

Lemma here_document_blank_line_witness :
  parse_here_document "EOF" ":" "000"
    [mk_doc_line None []; mk_doc_line (Some "EOF") []]
  = parse_here_document "EOF" ":" "000" [mk_doc_line (Some "EOF") []].
Proof.
  apply (here_document_blank_line "EOF" ":" (mk_doc_line (Some "EOF") []) []).
  reflexivity.
Defined.

Lemma string_from_app a b : string_from (String.length a) (a +:+ b) = b.
Proof. induction a as [|x a IH]; [reflexivity|]. simpl. exact IH. Qed.

Lemma string_from_plus n k s :
  string_from (n + k) s = string_from k (string_from n s).
Proof.
  revert s; induction n as [|n IH]; intros s; [reflexivity|].
  destruct s as [|x s]; [destruct k; reflexivity|apply IH].
Qed.

(** X19: a line of a regex here-document is never lost: the only line
    refused is the lone introducer ("no syntax line characters"); any
    other line is read as a literal, as syntax characters or as a
    regex with flags and syntax characters, and what is read spells
    the line again.  In particular [parse_regex] cannot fail there, as
    the comment at its call says. *)
Theorem regex_line_of_spells re ln :
  (ln = String re EmptyString
   /\ regex_line_of re ln = Failed "no syntax line characters")
  \/ (exists r, regex_line_of re ln = Done r /\ line_text re r = ln).
Proof.
  unfold regex_line_of. destruct ln as [|x rest].
  { right. eexists. split; reflexivity. }
  destruct (Ascii.eqb_spec x re) as [->|Hx]; simpl.
  2:{ right. eexists. split; reflexivity. }
  destruct (find_char re rest) as [k|] eqn:Hf.
  - right. destruct (find_char_Some _ _ _ Hf) as (a & b & -> & <- & Ha).
    destruct a as [|y a].
    + simpl. eexists. split; [reflexivity|]. reflexivity.
    + cbn [String.length Nat.eqb].
      change (S (String.length a)) with (String.length (String y a)).
      rewrite substring_prefix.
      replace (S (String.length (String y a)))
        with (String.length (String y a +:+ String re EmptyString))
        by (rewrite length_app_string; simpl; lia).
      replace (String.length (String y a +:+ String re b)
               - String.length (String y a +:+ String re EmptyString))%nat
        with (String.length b) by (rewrite !length_app_string; simpl; lia).
      replace (substring
                 (String.length (String y a +:+ String re EmptyString))
                 (String.length b) (String y a +:+ String re b))
        with b.
      2:{ replace (String y a +:+ String re b)
            with ((String y a +:+ String re EmptyString) +:+ b)
            by (norm_app; reflexivity).
          rewrite substring_suffix. reflexivity. }
      destruct (split_flags b) as [fl junk] eqn:Hs.
      destruct (split_flags_spec _ _ _ Hs) as (-> & _ & _).
      eexists. split; [reflexivity|]. unfold line_text, rp_value, rp_flags.
      match goal with
      | |- context [string_from ?n ?l] =>
          replace (string_from n l) with junk; [reflexivity|]
      end.
      rewrite <- (string_from_app
                    (String re (String y a +:+ String re fl)) junk) at 1.
      f_equal.
      * cbn [String.length]. rewrite length_app_string.
        cbn [String.length]. lia.
      * norm_app. reflexivity.
  - destruct (String.eqb_spec rest "") as [->|Hne].
    + left. split; reflexivity.
    + right. eexists. split; reflexivity.
Qed.

Lemma split_lines_nonempty s : split_lines s <> [].
Proof.
  destruct s as [|x s]; simpl; [discriminate|].
  destruct (Ascii.eqb x "010"); [discriminate|].
  destruct (split_lines s); discriminate.
Qed.

(** X20: cutting an expanded line at its newlines loses nothing: the
    pieces hold no newline, there is at least one, and joined by
    newlines they give the line back. *)
Theorem split_lines_join s :
  join_lines (split_lines s) = s
  /\ Forall (fun l => has_char "010" l = false) (split_lines s)
  /\ split_lines s <> [].
Proof.
  split; [|split; [|apply split_lines_nonempty]].
  - induction s as [|x s IH]; [reflexivity|]. simpl.
    destruct (Ascii.eqb_spec x "010") as [->|Hx].
    + rewrite join_lines_cons.
      pose proof (split_lines_nonempty s).
      destruct (split_lines s) as [|l ls]; [congruence|].
      rewrite append_nil_l, IH. reflexivity.
    + pose proof (split_lines_nonempty s).
      destruct (split_lines s) as [|l ls]; [congruence|].
      rewrite join_lines_cons in *. destruct ls as [|l2 ls].
      * rewrite IH. reflexivity.
      * rewrite append_cons, IH. reflexivity.
  - induction s as [|x s IH]; [repeat constructor|]. simpl.
    destruct (Ascii.eqb x "010") eqn:Hx.
    + constructor; [reflexivity|exact IH].
    + destruct (split_lines s) as [|l ls]; [repeat constructor; simpl;
                                            rewrite Hx; reflexivity|].
      apply Forall_cons in IH as [Hl Hls].
      constructor; [simpl; rewrite Hx, Hl; reflexivity|exact Hls].
Qed.

(** *** Lines executed *)

Lemma strip_prefix_skip sp l : forall nl rest,
  Forall (fun t => is_newline t = false) l -> is_newline nl = true ->
  strip_prefix sp (l ++ nl :: rest) false
  = match strip_prefix sp rest true with
    | Done r => Done (l ++ nl :: r)
    | Failed d => Failed d
    | Aborted => Aborted
    end.
Proof.
  induction l as [|t l IH]; intros nl rest Hl Hnl.
  - simpl. rewrite Hnl. reflexivity.
  - apply Forall_cons in Hl as [Ht Hl]. simpl. rewrite Ht.
    rewrite (IH _ _ Hl Hnl). destruct (strip_prefix sp rest true); reflexivity.
Qed.

(** X29: stripping the indentation of a here-document touches only
    the first word of each line: when every line is blank or starts
    with a word that starts with the strip prefix, the prefix is cut
    off that word, a word that is only the prefix is dropped, and
    every other token, the newlines included, stays in its place. *)
Theorem strip_prefix_lines sp ls :
  sp <> EmptyString ->
  Forall (saved_line sp) ls ->
  strip_indentation sp (saved_lines ls)
  = Done (saved_lines (map (fun x => (strip_line sp (fst x), snd x)) ls)).
Proof.
  intros Hsp. unfold strip_indentation.
  destruct (String.eqb_spec sp "") as [|_]; [contradiction|]. cbn [negb].
  induction 1 as [|[l nl] ls (Hl & Hnl & Hi) Hall IH]; [reflexivity|].
  simpl in Hl, Hnl, Hi. cbn [saved_lines map fst snd].
  destruct l as [|t l].
  - simpl. rewrite Hnl, IH. reflexivity.
  - apply Forall_cons in Hl as [Ht Hl]. simpl in Hi.
    apply andb_true_iff in Hi as [Hw Hp].
    cbn [app strip_prefix]. rewrite Ht, Hw, Hp. cbn [negb orb].
    rewrite (strip_prefix_skip sp l nl _ Hl Hnl), IH.
    unfold strip_line.
    destruct (Nat.eqb (String.length (t_value t)) (String.length sp));
      reflexivity.
Qed.

Lemma strip_prefix_lines_witness :
  strip_indentation "  "
    [mk_token tk_word "  foo" true unquoted false;
     mk_token tk_dollar "" false unquoted false;
     mk_token tk_newline "" false unquoted false;
     mk_token tk_newline "" false unquoted false;
     mk_token tk_word "  " true unquoted false;
     mk_token tk_dollar "" false unquoted false;
     mk_token tk_newline "" false unquoted false]
  = Done
      [mk_token tk_word "foo" true unquoted false;
       mk_token tk_dollar "" false unquoted false;
       mk_token tk_newline "" false unquoted false;
       mk_token tk_newline "" false unquoted false;
       mk_token tk_dollar "" false unquoted false;
       mk_token tk_newline "" false unquoted false].
Proof.
  apply (strip_prefix_lines "  "
           [([mk_token tk_word "  foo" true unquoted false;
              mk_token tk_dollar "" false unquoted false],
             mk_token tk_newline "" false unquoted false);
            ([], mk_token tk_newline "" false unquoted false);
            ([mk_token tk_word "  " true unquoted false;
              mk_token tk_dollar "" false unquoted false],
             mk_token tk_newline "" false unquoted false)]).
  - discriminate.
  - repeat constructor.
Defined.

Section ExecFacts.

Variable exec_set : nat -> step unit.
Variable exec_cmd : nat -> nat -> bool -> step unit.
Variable exec_if : nat -> nat -> step bool.

Local Abbreviation exec_lines := (exec_lines exec_set exec_cmd exec_if).

Lemma lines_from i e (lines : list line_type) lt :
  (i < e)%nat -> lines !! i = Some lt ->
  drop i (take e lines) = lt :: drop (S i) (take e lines).
Proof.
  intros Hi Hl. apply drop_S.
  rewrite lookup_take_lt by lia. exact Hl.
Qed.

Lemma lines_none i e (lines : list line_type) :
  (e <= i)%nat -> drop i (take e lines) = [].
Proof.
  intros Hi. apply drop_ge. rewrite length_take. lia.
Qed.

Lemma straight_lines_run fuel : forall lines i e st,
  (e <= length lines)%nat -> (i <= e)%nat ->
  forallb straight (drop i (take e lines)) = true ->
  (forall k, exec_set k = Normal tt) ->
  (forall k n s, exec_cmd k n s = Normal tt) ->
  (e - i < fuel)%nat ->
  exec_lines fuel lines i e st
  = (Returned true,
     mk_exec (li st + count_commands (drop i (take e lines)))
       (trace st ++ straight_trace (drop i (take e lines)) i (li st))).
Proof.
  induction fuel as [|fuel IH]; intros lines i e st He Hi Hall Hset Hcmd Hf;
    [lia|].
  cbn [Script.exec_lines].
  destruct (Nat.eqb_spec i e) as [->|Hne].
  { rewrite lines_none by lia. unfold count_commands. simpl.
    rewrite Nat.add_0_r, app_nil_r. destruct st; reflexivity. }
  destruct (lines !! i) as [lt|] eqn:Hl.
  2:{ apply lookup_ge_None in Hl. lia. }
  rewrite (lines_from i e lines lt) in Hall |- * by (lia || exact Hl).
  cbn [forallb] in Hall. apply andb_true_iff in Hall as [Hlt Hall].
  destruct lt; try discriminate.
  - rewrite Hset, IH; [|lia|lia|exact Hall|exact Hset|exact Hcmd|lia].
    unfold count_commands. simpl. rewrite <- app_assoc. reflexivity.
  - rewrite Hcmd, IH; [|lia|lia|exact Hall|exact Hset|exact Hcmd|lia].
    unfold count_commands. simpl. rewrite <- app_assoc.
    f_equal. f_equal. lia.
Qed.

(** X21: lines without conditions are executed one by one: each
    variable line and each command is handed to its callback once, in
    the order of the lines, the commands take consecutive indices from
    [li] on, and [li] ends advanced by the number of commands. *)
Theorem exec_lines_straight fuel lines i e st :
  (e <= length lines)%nat -> (i <= e)%nat ->
  forallb straight (drop i (take e lines)) = true ->
  (forall k, exec_set k = Normal tt) ->
  (forall k n s, exec_cmd k n s = Normal tt) ->
  (e - i < fuel)%nat ->
  exec_lines fuel lines i e st
  = (Returned true,
     mk_exec (li st + count_commands (drop i (take e lines)))
       (trace st ++ straight_trace (drop i (take e lines)) i (li st))).
Proof. apply straight_lines_run. Qed.

Lemma next_scan_straight b : forall pos li lt rest end_ skip,
  forallb straight b = true ->
  is_end lt || (is_else_kind lt && negb end_) = true ->
  next_scan (b ++ lt :: rest) pos 0 end_ skip li
  = Some ((pos + length b)%nat,
          if skip then (li + count_commands b)%nat else li).
Proof.
  induction b as [|x b IH]; intros pos li lt rest end_ skip Hb Hlt.
  - simpl. assert (is_if lt = false) as ->.
    { destruct lt; simpl in *; try reflexivity; discriminate. }
    simpl. rewrite Hlt. unfold count_commands. simpl.
    rewrite !Nat.add_0_r. destruct skip; reflexivity.
  - simpl in Hb. apply andb_true_iff in Hb as [Hx Hb].
    destruct x; try discriminate; simpl; rewrite (IH _ _ _ _ _ _ Hb Hlt);
      unfold count_commands; simpl; destruct skip; cbn [andb];
      f_equal; f_equal; lia.
Qed.

(** X22: an [if]/[else] block with straight branches: the condition
    is evaluated once, exactly the lines of the branch chosen are
    executed, and the command index after the block does not depend
    on the branch: it is advanced by the condition and by the
    commands of both branches, those skipped counted as those
    executed. *)
Theorem exec_lines_if_else fuel pre c b1 b2 post st cond :
  let lines :=
    pre ++ c :: b1 ++ lt_cmd_else :: b2 ++ lt_cmd_end :: post in
  let i := length pre in
  c = lt_cmd_if \/ c = lt_cmd_ifn ->
  forallb straight b1 = true -> forallb straight b2 = true ->
  (forall k, exec_set k = Normal tt) ->
  (forall k n s, exec_cmd k n s = Normal tt) ->
  exec_if i (li st) = Normal cond ->
  (length b1 + length b2 + 3 < fuel)%nat ->
  exec_lines fuel lines i (i + length b1 + length b2 + 3) st
  = (Returned true,
     mk_exec (S (li st) + count_commands b1 + count_commands b2)
       (trace st ++ ev_if i (li st)
        :: (if takes c cond
            then straight_trace b1 (S i) (S (li st))
            else straight_trace b2 (i + length b1 + 2)
                   (S (li st) + count_commands b1)))).
Proof.
  intros lines i Hc Hb1 Hb2 Hset Hcmd Hif Hfuel.
  set (j := (i + length b1 + 1)%nat).
  set (k := (j + length b2 + 1)%nat).
  set (e := (i + length b1 + length b2 + 3)%nat).
  assert (Hlen : length lines = (e + length post)%nat).
  { subst lines e i. rewrite !length_app; simpl; rewrite !length_app; simpl.
    rewrite !length_app. simpl. lia. }
  assert (Htake : take e lines
                  = pre ++ c :: b1 ++ lt_cmd_else :: b2 ++ [lt_cmd_end]).
  { subst lines.
    replace (pre ++ c :: b1 ++ lt_cmd_else :: b2 ++ lt_cmd_end :: post)
      with ((pre ++ c :: b1 ++ lt_cmd_else :: b2 ++ [lt_cmd_end]) ++ post).
    - apply take_app_length'. subst e i.
      rewrite !length_app; simpl; rewrite !length_app; simpl.
      rewrite !length_app. simpl. lia.
    - rewrite <- !app_assoc. simpl. rewrite <- !app_assoc. simpl.
      rewrite <- !app_assoc. reflexivity. }
  assert (Hi : lines !! i = Some c).
  { subst lines i. apply list_lookup_middle. reflexivity. }
  assert (Hj : lines !! j = Some lt_cmd_else).
  { subst lines.
    replace (pre ++ c :: b1 ++ lt_cmd_else :: b2 ++ lt_cmd_end :: post)
      with ((pre ++ c :: b1) ++ lt_cmd_else :: b2 ++ lt_cmd_end :: post)
      by (rewrite <- app_assoc; reflexivity).
    apply list_lookup_middle. subst j i. rewrite length_app. simpl. lia. }
  assert (Hk : lines !! k = Some lt_cmd_end).
  { subst lines.
    replace (pre ++ c :: b1 ++ lt_cmd_else :: b2 ++ lt_cmd_end :: post)
      with ((pre ++ c :: b1 ++ lt_cmd_else :: b2) ++ lt_cmd_end :: post).
    - apply list_lookup_middle. subst k j i.
      rewrite !length_app; simpl; rewrite !length_app; simpl. lia.
    - rewrite <- !app_assoc. simpl. rewrite <- !app_assoc. reflexivity. }
  assert (Hd1 : drop (S i) (take e lines)
                = b1 ++ lt_cmd_else :: b2 ++ [lt_cmd_end]).
  { rewrite Htake.
    replace (pre ++ c :: b1 ++ lt_cmd_else :: b2 ++ [lt_cmd_end])
      with ((pre ++ [c]) ++ b1 ++ lt_cmd_else :: b2 ++ [lt_cmd_end])
      by (rewrite <- app_assoc; reflexivity).
    apply drop_app_length'. rewrite length_app. simpl. lia. }
  assert (Hd2 : drop (S j) (take e lines) = b2 ++ [lt_cmd_end]).
  { rewrite Htake.
    replace (pre ++ c :: b1 ++ lt_cmd_else :: b2 ++ [lt_cmd_end])
      with ((pre ++ c :: b1 ++ [lt_cmd_else]) ++ b2 ++ [lt_cmd_end]).
    - apply drop_app_length'. subst j i.
      rewrite !length_app; simpl; rewrite !length_app; simpl. lia.
    - rewrite <- !app_assoc. simpl. rewrite <- !app_assoc. reflexivity. }
  assert (Hr1 : drop (S i) (take j lines) = b1).
  { subst lines.
    replace (pre ++ c :: b1 ++ lt_cmd_else :: b2 ++ lt_cmd_end :: post)
      with ((pre ++ c :: b1) ++ lt_cmd_else :: b2 ++ lt_cmd_end :: post)
      by (rewrite <- app_assoc; reflexivity).
    rewrite take_app_length'
      by (subst j i; rewrite length_app; simpl; lia).
    replace (pre ++ c :: b1) with ((pre ++ [c]) ++ b1)
      by (rewrite <- app_assoc; reflexivity).
    apply drop_app_length'. rewrite length_app. simpl. lia. }
  assert (Hr2 : drop (S j) (take k lines) = b2).
  { subst lines.
    replace (pre ++ c :: b1 ++ lt_cmd_else :: b2 ++ lt_cmd_end :: post)
      with ((pre ++ c :: b1 ++ lt_cmd_else :: b2) ++ lt_cmd_end :: post).
    2:{ rewrite <- !app_assoc. simpl. rewrite <- !app_assoc. reflexivity. }
    rewrite take_app_length'.
    2:{ subst k j i. rewrite !length_app; simpl; rewrite !length_app; simpl.
        lia. }
    replace (pre ++ c :: b1 ++ lt_cmd_else :: b2)
      with ((pre ++ c :: b1 ++ [lt_cmd_else]) ++ b2).
    2:{ rewrite <- !app_assoc. simpl. rewrite <- !app_assoc. reflexivity. }
    apply drop_app_length'. subst j i.
    rewrite !length_app; simpl; rewrite !length_app; simpl. lia. }
  assert (Hke : S k = e) by (subst k j e; lia).
  assert (Hend : forall f st0, exec_lines (S f) lines (S k) e st0
                               = (Returned true, st0)).
  { intros f st0. cbn [Script.exec_lines]. rewrite Hke, Nat.eqb_refl.
    reflexivity. }
  fold e. destruct fuel as [|fuel]; [lia|].
  cbn [Script.exec_lines].
  destruct (Nat.eqb_spec i e) as [E|_]; [subst e; lia|].
  rewrite Hi.
  assert (Hnext1 : forall skip l0,
            next lines e i false skip l0
            = Some (j, if skip then (l0 + count_commands b1)%nat else l0)).
  { intros skip l0. unfold next. rewrite Hd1.
    rewrite (next_scan_straight b1 _ _ lt_cmd_else _ false skip Hb1 eq_refl).
    f_equal. f_equal. subst j. lia. }
  assert (Hnext2 : forall skip l0,
            next lines e j true skip l0
            = Some (k, if skip then (l0 + count_commands b2)%nat else l0)).
  { intros skip l0. unfold next. rewrite Hd2.
    rewrite (next_scan_straight b2 _ _ lt_cmd_end [] true skip Hb2 eq_refl).
    f_equal. f_equal. subst k. lia. }
  assert (Hnext3 : forall skip l0,
            next lines e j false skip l0
            = Some (k, if skip then (l0 + count_commands b2)%nat else l0)).
  { intros skip l0. unfold next. rewrite Hd2.
    rewrite (next_scan_straight b2 _ _ lt_cmd_end [] false skip Hb2 eq_refl).
    f_equal. f_equal. subst k. lia. }
  assert (Hcond :
            match exec_if i (li st) with
            | Normal b =>
                Normal (match c with
                        | lt_cmd_ifn | lt_cmd_elifn => negb b
                        | _ => b
                        end)
            | Exit s => Exit s
            end = Normal (takes c cond)).
  { rewrite Hif. destruct Hc as [ -> | -> ]; reflexivity. }
  destruct fuel as [|fuel]; [lia|].
  assert (Hrun1 : forall st0,
            exec_lines (S fuel) lines (S i) j st0
            = (Returned true,
               mk_exec (li st0 + count_commands b1)
                 (trace st0 ++ straight_trace b1 (S i) (li st0)))).
  { intros st0.
    rewrite (straight_lines_run (S fuel) lines (S i) j st0), Hr1;
      [reflexivity|subst j; lia|subst j; lia|rewrite Hr1; exact Hb1
      |exact Hset|exact Hcmd|subst j; lia]. }
  destruct Hc as [ -> | -> ]; cbn [takes] in *; rewrite Hif;
    destruct cond; cbn [negb].
  - rewrite Hnext1, Hrun1, Hj, Hnext2, Hend. cbn [li trace].
    rewrite <- app_assoc. reflexivity.
  - rewrite Hnext1, Hj. cbn [li trace].
    cbn [Script.exec_lines].
    destruct (Nat.eqb_spec j e) as [E|_]; [subst e j; lia|].
    rewrite Hj, Hnext3. cbn [li trace].
    destruct fuel as [|fuel]; [lia|].
    rewrite (straight_lines_run (S fuel) lines (S j) k), Hr2;
      [|subst k; lia|subst k; lia|rewrite Hr2; exact Hb2
       |exact Hset|exact Hcmd|subst k; lia].
    rewrite Hk, Hend. cbn [li trace]. rewrite <- app_assoc.
    f_equal. f_equal. f_equal. f_equal. f_equal. subst j. lia.
  - rewrite Hnext1, Hj. cbn [li trace].
    cbn [Script.exec_lines].
    destruct (Nat.eqb_spec j e) as [E|_]; [subst e j; lia|].
    rewrite Hj, Hnext3. cbn [li trace].
    destruct fuel as [|fuel]; [lia|].
    rewrite (straight_lines_run (S fuel) lines (S j) k), Hr2;
      [|subst k; lia|subst k; lia|rewrite Hr2; exact Hb2
       |exact Hset|exact Hcmd|subst k; lia].
    rewrite Hk, Hend. cbn [li trace]. rewrite <- app_assoc.
    f_equal. f_equal. f_equal. f_equal. f_equal. subst j. lia.
  - rewrite Hnext1, Hrun1, Hj, Hnext2, Hend. cbn [li trace].
    rewrite <- app_assoc. reflexivity.
Qed.

(** X23: an [exit] ends the run: when the callback of line [k] throws
    it, the lines before [k] and line [k] itself have been handed to
    their callbacks and no later line is; the run fails for the
    failure status and returns false for the success status. *)
Theorem exec_lines_exit fuel : forall lines i e k st s,
  (e <= length lines)%nat -> (i <= k)%nat -> (k < e)%nat ->
  forallb straight (drop i (take e lines)) = true ->
  (forall m, (m < k)%nat -> exec_set m = Normal tt) ->
  (forall m n b, (m < k)%nat -> exec_cmd m n b = Normal tt) ->
  exec_set k = Exit s ->
  (forall n b, exec_cmd k n b = Exit s) ->
  (k - i < fuel)%nat ->
  exec_lines fuel lines i e st
  = (if s then Returned false else Thrown_failed,
     mk_exec
       (li st + count_commands (take (S (k - i)) (drop i (take e lines))))
       (trace st
        ++ take (S (k - i))
             (straight_trace (drop i (take e lines)) i (li st)))).
Proof.
  induction fuel as [|fuel IH];
    intros lines i e k st s He Hik Hke Hall Hset Hcmd Hxs Hxc Hf; [lia|].
  cbn [Script.exec_lines].
  destruct (Nat.eqb_spec i e) as [->|Hne]; [lia|].
  destruct (lines !! i) as [lt|] eqn:Hl.
  2:{ apply lookup_ge_None in Hl. lia. }
  rewrite (lines_from i e lines lt) in Hall |- * by (lia || exact Hl).
  cbn [forallb] in Hall. apply andb_true_iff in Hall as [Hlt Hall].
  destruct (Nat.eq_dec i k) as [->|Hnk].
  - rewrite Nat.sub_diag.
    destruct lt; try discriminate.
    + rewrite Hxs. unfold on_exit, count_commands. simpl.
      rewrite Nat.add_0_r. destruct s; reflexivity.
    + rewrite Hxc. unfold on_exit, count_commands. simpl.
      replace (li st + 1)%nat with (S (li st)) by lia.
      destruct s; reflexivity.
  - replace (S (k - i)) with (S (S (k - S i))) by lia.
    destruct lt; try discriminate.
    + rewrite Hset by lia.
      rewrite (IH lines (S i) e k _ s); try assumption; try lia.
      unfold count_commands. cbn [take straight_trace li trace].
      simpl. rewrite <- app_assoc. reflexivity.
    + rewrite Hcmd by lia.
      rewrite (IH lines (S i) e k _ s); try assumption; try lia.
      unfold count_commands. cbn [take straight_trace li trace].
      simpl. rewrite <- app_assoc. f_equal. f_equal. lia.
Qed.

End ExecFacts.

Lemma exec_lines_exit_witness :
  Script.exec_lines
    (fun m => if Nat.eqb m 1 then Exit false else Normal tt)
    (fun m _ _ => if Nat.eqb m 1 then Exit false else Normal tt)
    (fun _ _ => Normal true) 4 [lt_cmd; lt_cmd; lt_cmd] 0 3 (mk_exec 1 [])
  = (Thrown_failed, mk_exec 3 [ev_cmd 0 1 false; ev_cmd 1 2 false]).
Proof.
  apply (exec_lines_exit
           (fun m => if Nat.eqb m 1 then Exit false else Normal tt)
           (fun m _ _ => if Nat.eqb m 1 then Exit false else Normal tt)
           (fun _ _ => Normal true) 4 [lt_cmd; lt_cmd; lt_cmd] 0 3 1
           (mk_exec 1 []) false);
    try reflexivity; try (simpl; lia).
  - intros m Hm. destruct m; [reflexivity|lia].
  - intros m n b Hm. destruct m; [reflexivity|lia].
Defined.

Lemma exec_lines_straight_witness :
  Script.exec_lines (fun _ => Normal tt) (fun _ _ _ => Normal tt)
    (fun _ _ => Normal true) 4 [lt_var; lt_cmd; lt_var] 0 3 (mk_exec 1 [])
  = (Returned true, mk_exec 2 [ev_set 0; ev_cmd 1 1 true; ev_set 2]).
Proof.
  apply (exec_lines_straight (fun _ => Normal tt) (fun _ _ _ => Normal tt)
           (fun _ _ => Normal true) 4 [lt_var; lt_cmd; lt_var] 0 3
           (mk_exec 1 []));
    first [reflexivity | simpl; lia].
Defined.

(** [cmd; if false; cmd; else; cmd; cmd; end; cmd] run over the block:
    the commands of the [else] branch take the indices 4 and 5, as if
    the command of the first branch had run. *)
Lemma exec_lines_if_else_witness :
  Script.exec_lines (fun _ => Normal tt) (fun _ _ _ => Normal tt)
    (fun _ _ => Normal false) 7
    [lt_cmd; lt_cmd_if; lt_cmd; lt_cmd_else; lt_cmd; lt_cmd; lt_cmd_end;
     lt_cmd] 1 7 (mk_exec 2 [])
  = (Returned true,
     mk_exec 6 [ev_if 1 2; ev_cmd 4 4 false; ev_cmd 5 5 false]).
Proof.
  apply (exec_lines_if_else (fun _ => Normal tt) (fun _ _ _ => Normal tt)
           (fun _ _ => Normal false) 7 [lt_cmd] lt_cmd_if [lt_cmd]
           [lt_cmd; lt_cmd] [lt_cmd] (mk_exec 2 []) false);
    first [reflexivity | left; reflexivity | simpl; lia].
Defined.

End ScriptFacts.

(** ** Test-script variable lines *)

Module TestScriptFacts.

Import TestScript.

Section Parser.

Variable value : Type.
Variable parse_variable_value : list token -> outcome (value * token_type).
Variable apply_value_attributes :
  option value -> value -> token_type -> option value.
Variable parse_test_line : bool -> list token -> outcome unit.
Variable test_var opts_var args_var cmd_var : string.

Local Abbreviation parse_variable_line :=
  (parse_variable_line value parse_variable_value apply_value_attributes
     test_var opts_var args_var cmd_var).
Local Abbreviation pre_parse_script_line :=
  (pre_parse_script_line value parse_variable_value apply_value_attributes
     parse_test_line test_var opts_var args_var cmd_var).
Local Abbreviation pre_parse_script :=
  (pre_parse_script value parse_variable_value apply_value_attributes
     parse_test_line test_var opts_var args_var cmd_var).
Local Abbreviation parse_script :=
  (parse_script value parse_variable_value apply_value_attributes
     parse_test_line test_var opts_var args_var cmd_var).
Local Abbreviation run_script :=
  (run_script value parse_variable_value apply_value_attributes
     parse_test_line test_var opts_var args_var cmd_var).

Implicit Types (ps : parser_state value) (t : token).

Lemma parse_variable_line_special ps t rest :
  pre_parse_ ps = true -> special_alias (t_value t) = true ->
  parse_variable_line ps t rest = Failed "attempt to set variable directly".
Proof.
  intros Hp Hs. unfold TestScript.parse_variable_line. rewrite Hp, Hs.
  reflexivity.
Qed.

(** While pre-parsing, an accepted variable line has no special name
    and leaves the parser as it was. *)
Lemma parse_variable_line_pre ps t rest ps' :
  pre_parse_ ps = true -> parse_variable_line ps t rest = Done ps' ->
  special_alias (t_value t) = false /\ ps' = ps.
Proof.
  intros Hp. unfold TestScript.parse_variable_line. rewrite Hp. simpl.
  destruct (special_alias (t_value t)); [discriminate|].
  destruct rest as [|k toks]; [discriminate|].
  destruct (parse_variable_value toks) as [[rhs after]|d|]; try discriminate.
  destruct after; try discriminate. intros [= <-]. auto.
Qed.

Lemma pre_parse_script_line_pre ps toks lt ps' :
  pre_parse_ ps = true ->
  pre_parse_script_line ps toks = Done (lt, ps') ->
  ps' = ps
  /\ (variable_tokens toks = true -> special_alias (line_name toks) = false)
  /\ (lt = variable -> special_alias (line_name toks) = false).
Proof.
  intros Hp. unfold TestScript.pre_parse_script_line, variable_tokens.
  destruct toks as [|t rest]; [discriminate|].
  destruct rest as [|pk rest'].
  - rewrite andb_false_r.
    destruct (parse_test_line (pre_parse_ ps) [t]); try discriminate.
    intros [= Hlt Hps]. subst. repeat split; discriminate.
  - destruct (_ && is_assignment _).
    + destruct (parse_variable_line ps t (pk :: rest')) as [ps1|d|] eqn:E;
        try discriminate.
      intros [= Hlt Hps]. subst.
      destruct (parse_variable_line_pre ps t _ ps' Hp E) as [Hs ->].
      auto.
    + destruct (parse_test_line _ _); try discriminate.
      intros [= Hlt Hps]. subst. repeat split; discriminate.
Qed.

Lemma pre_parse_script_lines ps input lines :
  pre_parse_ ps = true ->
  pre_parse_script ps input = Done lines ->
  (forall toks, In toks input -> variable_tokens toks = true ->
                special_alias (line_name toks) = false)
  /\ (forall toks, In (variable, toks) lines ->
                   special_alias (line_name toks) = false).
Proof.
  intros Hp. revert lines. induction input as [|toks input IH]; intros lines.
  - simpl. intros [= <-]. split; intros toks [].
  - simpl.
    destruct (pre_parse_script_line ps toks) as [[lt ps1]|d|] eqn:E;
      try discriminate.
    destruct (pre_parse_script_line_pre ps toks lt ps1 Hp E) as (-> & Hv & Hl).
    destruct (TestScript.pre_parse_script _ _ _ _ _ _ _ _ ps input)
      as [ls|d|] eqn:E'; try discriminate.
    intros [= <-]. destruct (IH ls eq_refl) as [IH1 IH2]. split.
    + intros x [<-|Hx]; auto.
    + intros x [Hx|Hx]; [|auto].
      injection Hx as Hlt <-. apply Hl. congruence.
Qed.

(** Executing saved lines enters only the names of variable lines. *)
Lemma parse_script_pool ps lines ps' :
  parse_script ps lines = Done ps' ->
  forall n, In n (var_pool ps') ->
            In n (var_pool ps)
            \/ exists toks, In (variable, toks) lines /\ line_name toks = n.
Proof.
  revert ps. induction lines as [|[lt toks] lines IH]; intros ps.
  - simpl. intros [= <-]. auto.
  - simpl.
    destruct (TestScript.parse_script_line _ _ _ _ _ _ _ _ ps lt toks)
      as [ps1|d|] eqn:E; try discriminate.
    intros H n Hn. destruct (IH ps1 H n Hn) as [Hin|(x & Hx & Hname)].
    + unfold parse_script_line in E. destruct lt.
      * destruct toks as [|t rest]; [discriminate|].
        unfold TestScript.parse_variable_line in E.
        destruct (_ && _); [discriminate|].
        destruct rest as [|k rest']; [discriminate|].
        destruct (parse_variable_value rest') as [[rhs after]|d|];
          try discriminate.
        destruct after; try discriminate.
        destruct (negb (pre_parse_ ps)).
        -- injection E as <-. simpl in Hin. destruct Hin as [<-|Hin].
           ++ right. eexists. split; [left; reflexivity|reflexivity].
           ++ auto.
        -- injection E as <-. auto.
      * destruct (parse_test_line _ _); try discriminate.
        injection E as <-. auto.
    + right. exists x. split; [right; assumption|assumption].
Qed.

(** C10: while pre-parsing, a variable line whose name is [*], [~] or
    made of digits only fails, whatever the assignment operator; a
    script with such a line does not get through the pre-parser; and a
    script that runs never enters one of these names for a variable
    line. *)
Theorem special_aliases_not_assignable :
  (forall ps t rest,
      pre_parse_ ps = true -> special_alias (t_value t) = true ->
      parse_variable_line ps t rest
      = Failed "attempt to set variable directly")
  /\ (forall ps input toks,
        pre_parse_ ps = true -> In toks input ->
        variable_tokens toks = true ->
        special_alias (line_name toks) = true ->
        is_done (pre_parse_script ps input) = false)
  /\ (forall s input ps',
        run_script s input = Done ps' ->
        forall n, In n (var_pool ps') -> special_alias n = false).
Proof.
  split; [|split].
  - apply parse_variable_line_special.
  - intros ps input toks Hp Hin Hv Hs.
    destruct (pre_parse_script ps input) as [lines|d|] eqn:E; try reflexivity.
    destruct (pre_parse_script_lines ps input lines Hp E) as [H _].
    rewrite (H toks Hin Hv) in Hs. discriminate.
  - intros s input ps'. unfold TestScript.run_script.
    destruct (pre_parse_script _ input) as [lines|d|] eqn:E; try discriminate.
    intros H n Hn.
    destruct (pre_parse_script_lines (mk_parser true s []) input lines
                eq_refl E) as [_ Hl].
    destruct (parse_script_pool _ lines ps' H n Hn) as [[]|(x & Hx & <-)].
    apply Hl. assumption.
Qed.

End Parser.

(** The lines [* = foo] and [12 += foo] are refused by the pre-parser. *)
Lemma special_aliases_not_assignable_witness :
  (special_alias "*" = true
   /\ parse_variable_line nat (fun _ => Done (0%nat, tk_newline))
        (fun _ v _ => Some v) "test" "test.options" "test.arguments" "*"
        (mk_parser true [] []) (mk_token tk_word "*" false)
        [mk_token tk_assign "=" false; mk_token tk_word "foo" false;
         mk_token tk_newline "" false]
      = Failed "attempt to set variable directly")
  /\ (special_alias "12" = true
      /\ parse_variable_line nat (fun _ => Done (0%nat, tk_newline))
           (fun _ v _ => Some v) "test" "test.options" "test.arguments" "*"
           (mk_parser true [] []) (mk_token tk_word "12" false)
           [mk_token tk_append "+=" false; mk_token tk_word "foo" false;
            mk_token tk_newline "" false]
         = Failed "attempt to set variable directly").
Proof.
  split; (split; [reflexivity|]);
    apply (proj1 (special_aliases_not_assignable nat
                    (fun _ => Done (0%nat, tk_newline))
                    (fun _ v _ => Some v) (fun _ _ => Done tt)
                    "test" "test.options" "test.arguments" "*"));
    reflexivity.
Defined.

(** *** The special aliases read *)

Section Lookup.

Variable value : Type.
Variable parse_variable_value : list token -> outcome (value * token_type).
Variable apply_value_attributes :
  option value -> value -> token_type -> option value.
Variable path_string : value -> string.
Variable strings_of : value -> list string.
Variable of_strings : list string -> value.
Variable of_string : string -> value.
Variable test_var opts_var args_var cmd_var : string.

Local Abbreviation parse_variable_line :=
  (parse_variable_line value parse_variable_value apply_value_attributes
     test_var opts_var args_var cmd_var).
Local Abbreviation lookup_variable :=
  (lookup_variable path_string strings_of of_strings of_string
     test_var opts_var args_var cmd_var).
Local Abbreviation command_line :=
  (command_line path_string strings_of test_var opts_var args_var).

Lemma digits_not_star nm : digits nm = true -> String.eqb nm "*" = false.
Proof.
  intros H. destruct (String.eqb_spec nm "*") as [->|]; [|reflexivity].
  vm_compute in H. discriminate.
Qed.

(** What an executed assignment to one of the sources of [$*] leaves:
    [$*] is null in the scope. *)
Lemma parse_variable_line_resets ps t rest ps1 :
  pre_parse_ ps = false ->
  parse_variable_line ps t rest = Done ps1 ->
  t_value t = test_var \/ t_value t = opts_var \/ t_value t = args_var ->
  pre_parse_ ps1 = false /\ lookup (scope_ ps1) cmd_var = Some None.
Proof.
  intros Hp H Hn. unfold TestScript.parse_variable_line in H.
  rewrite Hp in H. simpl in H.
  destruct rest as [|k toks]; [discriminate|].
  destruct (parse_variable_value toks) as [[rhs after]|d|]; try discriminate.
  destruct after; try discriminate.
  assert (String.eqb (t_value t) test_var || String.eqb (t_value t) opts_var
          || String.eqb (t_value t) args_var = true) as Hb.
  { destruct Hn as [ -> | [ -> | -> ] ]; rewrite String.eqb_refl;
      rewrite ?orb_true_r; reflexivity. }
  rewrite Hb in H. injection H as <-. simpl.
  rewrite String.eqb_refl. split; reflexivity.
Qed.

(** X26: after an assignment to [test], to the options or to the
    arguments has been executed, the alias that is read first is
    computed anew: [$N] read first gives element N of the command line
    put together from the three variables as they now are, or null past
    its end, whatever [$N] was before; [$*] read first gives that
    command line, and from then on a [$N] that has a value in the scope
    keeps it (it is computed from the new command line only if it has
    none). *)
Theorem lookup_after_assignment ps t rest ps1 nm i k :
  (forall l, strings_of (of_strings l) = l) ->
  pre_parse_ ps = false ->
  parse_variable_line ps t rest = Done ps1 ->
  t_value t = test_var \/ t_value t = opts_var \/ t_value t = args_var ->
  digits nm = true -> Script.stoul nm = Some (i, k) ->
  (exists ps2,
      lookup_variable ps1 false nm
      = Done (Some (of_string <$> (command_line (scope_ ps1) !! N.to_nat i)),
              ps2))
  /\ exists ps2,
       lookup_variable ps1 false "*"
       = Done (Some (Some (of_strings (command_line (scope_ ps1)))), ps2)
       /\ (nm <> cmd_var ->
           exists ps3,
             lookup_variable ps2 false nm
             = Done (Some (match lookup (scope_ ps1) nm with
                           | Some l => l
                           | None =>
                               of_string
                                 <$> (command_line (scope_ ps1) !! N.to_nat i)
                           end),
                     ps3)).
Proof.
  intros Hrt Hp H Hn Hd Hs.
  destruct (parse_variable_line_resets _ _ _ _ Hp H Hn) as [Hp1 Hl].
  split.
  - unfold TestScript.lookup_variable.
    rewrite Hp1, Hd, (digits_not_star _ Hd), Hl. simpl.
    rewrite Hs, Hrt.
    destruct (command_line (scope_ ps1) !! N.to_nat i); eexists; reflexivity.
  - eexists. split.
    + unfold TestScript.lookup_variable.
      rewrite Hp1, Hl. simpl. reflexivity.
    + intros Hne. unfold TestScript.lookup_variable. simpl.
      rewrite Hd, (digits_not_star _ Hd), String.eqb_refl. simpl.
      apply String.eqb_neq in Hne. rewrite String.eqb_sym in Hne.
      rewrite Hne.
      destruct (TestScript.lookup (scope_ ps1) nm) as [l|].
      * eexists; reflexivity.
      * rewrite Hs, Hrt.
        destruct (command_line (scope_ ps1) !! N.to_nat i);
          eexists; reflexivity.
Qed.

End Lookup.

(** [test = ./driver] with an old [$0] in the scope: [$0] read first is
    taken from the new value of [test]; read after [$*] it is the old
    one. *)
Lemma lookup_after_assignment_witness :
  (exists ps2,
      lookup_variable (fun v : list string => String.concat "" v)
        (fun v => v) (fun l => l) (fun x => [x])
        "test" "test.options" "test.arguments" "*"
        (mk_parser false
           [("*", None); ("test", Some ["./driver"]); ("0", Some ["old"])]
           ["test"])
        false "0"
      = Done (Some (Some ["./driver"]), ps2))
  /\ exists ps2,
       lookup_variable (fun v : list string => String.concat "" v)
         (fun v => v) (fun l => l) (fun x => [x])
         "test" "test.options" "test.arguments" "*"
         (mk_parser false
            [("*", None); ("test", Some ["./driver"]); ("0", Some ["old"])]
            ["test"])
         false "*"
       = Done (Some (Some ["./driver"]), ps2)
       /\ exists ps3,
            lookup_variable (fun v : list string => String.concat "" v)
              (fun v => v) (fun l => l) (fun x => [x])
              "test" "test.options" "test.arguments" "*"
              ps2 false "0"
            = Done (Some (Some ["old"]), ps3).
Proof.
  destruct (lookup_after_assignment (list string)
              (fun toks => Done (["./driver"], tk_newline))
              (fun _ v _ => Some v)
              (fun v : list string => String.concat "" v)
              (fun v => v) (fun l => l) (fun x => [x])
              "test" "test.options" "test.arguments" "*"
              (mk_parser false [("0", Some ["old"])] [])
              (mk_token tk_word "test" false)
              [mk_token tk_assign "=" false; mk_token tk_word "./driver" false;
               mk_token tk_newline "" false]
              (mk_parser false
                 [("*", None); ("test", Some ["./driver"]);
                  ("0", Some ["old"])]
                 ["test"])
              "0" 0%N 1%nat
              (fun l => eq_refl) eq_refl eq_refl (or_introl eq_refl)
              eq_refl eq_refl)
    as [H1 (ps2 & H2 & H3)].
  split; [exact H1|].
  exists ps2. split; [exact H2|].
  apply H3. discriminate.
Defined.

End TestScriptFacts.
